(** * diet-tracker-bot: the food-text parser, the catalog, the log and
    the meal recommender

    A shallow embedding of [food_parser.py], of the functions of
    [db.py] that read and write the catalog, the aliases and the logged
    entries, of [models.py], of [recommender.py] and of what [cmd_log]
    and [cmd_recommend] of [diet_bot.py] compute, followed by the
    properties of the specification that concern them and by further
    properties of the code.

    Python [float] is IEEE 754 binary64, and so is Rocq's primitive
    [float]: arithmetic and comparisons are the machine's, not an
    idealisation over the rationals.  Python [str] is a sequence of
    Unicode code points and is modelled as [list N].  A function that
    can raise returns a [res].  A table of the database is the list of
    its rows in the order of the row ids. *)

From Stdlib Require Import ZArith NArith Lia Floats Ascii.
From stdpp Require Import base option list strings gmap sorting.

Set Warnings "-inexact-float".

Local Open Scope N_scope.

(** ** Python strings *)

Module PyStr.

(** A [str] is a list of code points. *)
Abbreviation pystr := (list N).

(** Decoding of a UTF-8 byte sequence; it only serves to write the
    source's string literals legibly. *)
Fixpoint utf8_decode (bs : list N) : pystr :=
  match bs with
  | [] => []
  | b0 :: r0 =>
    if b0 <? 128 then b0 :: utf8_decode r0
    else match r0 with
    | [] => [b0]
    | b1 :: r1 =>
      if b0 <? 224 then ((b0 - 192) * 64 + (b1 - 128)) :: utf8_decode r1
      else match r1 with
      | [] => [b0; b1]
      | b2 :: r2 =>
        if b0 <? 240
        then ((b0 - 224) * 4096 + (b1 - 128) * 64 + (b2 - 128)) :: utf8_decode r2
        else match r2 with
        | [] => [b0; b1; b2]
        | b3 :: r3 =>
          ((b0 - 240) * 262144 + (b1 - 128) * 4096 + (b2 - 128) * 64 + (b3 - 128))
            :: utf8_decode r3
        end
      end
    end
  end.

Fixpoint bytes_of_string (s : string) : list N :=
  match s with
  | EmptyString => []
  | String a s' => N_of_ascii a :: bytes_of_string s'
  end.

Definition u (s : string) : pystr := utf8_decode (bytes_of_string s).

(** The two Unicode properties the code depends on.  CPython reads them
    from its Unicode database, which is not part of the repository:
    [isspace] is what [str.strip], [str.isspace] and the regex class
    [\s] test; [decimal] is the decimal-digit value that the regex class
    [\d] tests and that [float()] reads. *)
Record Unicode := {
  isspace : N -> bool;
  decimal : N -> option N
}.

(** The table restricted to the characters whose properties every
    version of the database agrees on here: the ASCII digits, and the
    white space of [str.isspace]. *)
Definition basic_isspace (c : N) : bool :=
  ((9 <=? c) && (c <=? 13)) || ((28 <=? c) && (c <=? 32))
  || (c =? 133) || (c =? 160) || (c =? 5760)
  || ((8192 <=? c) && (c <=? 8202))
  || (c =? 8232) || (c =? 8233) || (c =? 8239) || (c =? 8287) || (c =? 12288).

Definition basic_decimal (c : N) : option N :=
  if (48 <=? c) && (c <=? 57) then Some (c - 48) else None.

Definition basic_unicode : Unicode :=
  {| isspace := basic_isspace; decimal := basic_decimal |}.

(** What the properties below need of a table: it is the basic one on
    ASCII, and the Hangul syllables (U+AC00 to U+D7A3) are neither
    white space nor digits. *)
Definition standard_tables (U : Unicode) : Prop :=
  (forall c, c < 128 -> isspace U c = basic_isspace c /\ decimal U c = basic_decimal c)
  /\ (forall c, 44032 <= c <= 55203 -> isspace U c = false /\ decimal U c = None).

Section Strings.
Context (U : Unicode).

Fixpoint lstrip (s : pystr) : pystr :=
  match s with
  | [] => []
  | c :: s' => if isspace U c then lstrip s' else s
  end.

Definition rstrip (s : pystr) : pystr := reverse (lstrip (reverse s)).

(** [s.strip()]. *)
Definition strip (s : pystr) : pystr := rstrip (lstrip s).

(** [re.sub(r"\s+", " ", s)]: every maximal run of white space becomes
    one space; [in_run] tells that the previous character was white
    space. *)
Fixpoint collapse_ws (in_run : bool) (s : pystr) : pystr :=
  match s with
  | [] => []
  | c :: s' =>
    if isspace U c
    then (if in_run then collapse_ws true s' else 32 :: collapse_ws true s')
    else c :: collapse_ws false s'
  end.

End Strings.

(** [p] is a prefix of [s]. *)
Fixpoint startswith (p s : pystr) : bool :=
  match p, s with
  | [], _ => true
  | _ :: _, [] => false
  | a :: p', b :: s' => (a =? b) && startswith p' s'
  end.

(** [s.replace(old, new)] for a non-empty [old]: occurrences are
    replaced from the left and do not overlap; [skip] counts the
    characters of an occurrence still to be dropped. *)
Fixpoint replace_from (old new : pystr) (skip : nat) (s : pystr) : pystr :=
  match s with
  | [] => []
  | c :: s' =>
    match skip with
    | S k => replace_from old new k s'
    | O =>
      if startswith old s
      then new ++ replace_from old new (pred (length old)) s'
      else c :: replace_from old new O s'
    end
  end.

Definition replace (old new s : pystr) : pystr := replace_from old new O s.

(** Splitting at every character satisfying [sep]: [re.split] with an
    alternation of single characters, and [str.split] with a one
    character separator.  The empty string gives one empty piece. *)
Fixpoint split_on (sep : N -> bool) (s : pystr) : list pystr :=
  match s with
  | [] => [[]]
  | c :: s' =>
    if sep c then [] :: split_on sep s'
    else match split_on sep s' with
         | [] => [[c]]
         | p :: ps => (c :: p) :: ps
         end
  end.

(** Truth value of a [str]: the empty string is false. *)
Definition truthy (s : pystr) : bool :=
  match s with [] => false | _ :: _ => true end.


End PyStr.
Import PyStr.

(** ** Exceptions *)

Module PyErr.

(** The exceptions the modelled code can raise. *)
Inductive exn := ZeroDivisionError | OverflowError | ValueError | TypeError.

(** A computation returns a value or raises. *)
Inductive res (A : Type) : Type :=
| Ok (a : A)
| Raise (e : exn).
Arguments Ok {A} a.
Arguments Raise {A} e.

#[global] Instance res_ret : MRet res := fun A a => Ok a.

#[global] Instance res_bind : MBind res := fun A B k m =>
  match m with
  | Ok a => k a
  | Raise e => Raise e
  end.

End PyErr.
Import PyErr.

(** ** Python floats *)

Module PyFloat.

(** The builtin [max(a, b)]: the first argument is kept unless the
    second compares strictly greater (so a NaN second argument never
    wins, and a NaN first argument is never replaced). *)
Definition py_max (a b : float) : float :=
  if PrimFloat.ltb a b then b else a.

(** The builtin [min(a, b)], likewise. *)
Definition py_min (a b : float) : float :=
  if PrimFloat.ltb b a then b else a.

(** [a / b] on floats: a zero divisor of either sign raises. *)
Definition py_div (a b : float) : res float :=
  if PrimFloat.eqb b 0%float then Raise ZeroDivisionError
  else Ok (PrimFloat.div a b).

(** Conversion of an [int] to [float], as an arithmetic operator does
    for a mixed operation: rounding to nearest even, and
    [OverflowError] when the result is not finite. *)
Definition float_of_int (n : Z) : res float :=
  match binary_normalize prec emax n 0 false with
  | S754_infinity _ => Raise OverflowError
  | sf => Ok (SF2Prim sf)
  end.

(** [a / n] for a float [a] and an int [n]: the int is converted
    first, then the division checks its divisor. *)
Definition py_div_int (a : float) (n : Z) : res float :=
  b ← float_of_int n; py_div a b.

(** [float(s)] for a string of the shape [\d+(?:\.\d+)?]: the digits
    [n] of the integer and fractional parts read as one integer, and
    the number [k] of fractional digits; the value is [n / 10^k],
    rounded once to nearest even. *)
Definition SF_of_N (n : N) : spec_float :=
  match n with
  | N0 => S754_zero false
  | Npos p => S754_finite false p 0
  end.

Definition decimal_to_float (n k : N) : float :=
  SF2Prim (SFdiv prec emax (SF_of_N n) (SF_of_N (10 ^ k))).

End PyFloat.
Import PyFloat.

(** ** db.py: the catalog and the two lookups *)

Module Db.

(** A row of [food_items]; the macros are per 100 g ([REAL] columns,
    written through [float(...)] by every insertion of the module). *)
Record FoodRow := {
  name : pystr;
  kcal : float;
  protein : float;
  fat : float;
  carbs : float
}.

(** The content of the store that the lookups read: the rows of
    [food_items] and of [food_synonyms] (alias, canonical) in row
    order.  Every lookup starts with [init_db], which only adds the
    seed rows that are missing ([INSERT OR IGNORE]); the snapshot is
    the store after that, the same for all lookups of one call. *)
Record Database := {
  food_items : list FoodRow;
  food_synonyms : list (pystr * pystr)
}.

(** SQLite's [LIKE]: [%] stands for any sequence of characters, [_] for
    any one character, and the ASCII letters match without regard to
    case. *)
Definition ascii_lower (c : N) : N :=
  if (65 <=? c) && (c <=? 90) then c + 32 else c.

Fixpoint sql_like (pat : pystr) : pystr -> bool :=
  match pat with
  | [] => fun s => match s with [] => true | _ :: _ => false end
  | p :: pat' =>
    if p =? 37 then
      fix any (s : pystr) : bool :=
        sql_like pat' s || match s with [] => false | _ :: s' => any s' end
    else fun s =>
      match s with
      | [] => false
      | c :: s' => ((p =? 95) || (ascii_lower p =? ascii_lower c)) && sql_like pat' s'
      end
  end.

(** [WHERE name=?] followed by [fetchone()]. *)
Definition select_food (db : Database) (n : pystr) : option FoodRow :=
  find (fun r => bool_decide (name r = n)) (food_items db).

(** [WHERE alias=?] followed by [fetchone()]. *)
Definition select_synonym (db : Database) (a : pystr) : option pystr :=
  snd <$> find (fun r => bool_decide (fst r = a)) (food_synonyms db).

(** [ORDER BY LENGTH(name) ASC LIMIT 1]: a row of least length, the
    earliest one among equals. *)
Fixpoint shortest (rows : list FoodRow) : option FoodRow :=
  match rows with
  | [] => None
  | r :: rs =>
    match shortest rs with
    | Some r' => if (length (name r') <? length (name r))%nat then Some r' else Some r
    | None => Some r
    end
  end.

(** [WHERE name LIKE '%' || n || '%' ORDER BY LENGTH(name) ASC LIMIT 1]. *)
Definition select_food_like (db : Database) (n : pystr) : option FoodRow :=
  shortest (filter (fun r => sql_like ([37] ++ n ++ [37]) (name r)) (food_items db)).

(** [get_food(name)]. *)
Definition get_food (db : Database) (n : pystr) : option FoodRow :=
  match select_food db n with
  | Some r => Some r
  | None => select_food_like db n
  end.

Section Resolve.
Context (U : Unicode).

(** [resolve_canonical(name)]. *)
Definition resolve_canonical (db : Database) (n : pystr) : pystr :=
  let n := strip U n in
  match select_synonym db n with
  | Some canonical => canonical
  | None =>
    match select_food db n with
    | Some r => name r
    | None => n
    end
  end.

End Resolve.

End Db.

(** ** food_parser.py *)

Module FoodParser.

(** [UNIT_TO_G]. *)
Definition UNIT_TO_G : gmap pystr float :=
  list_to_map
    [ (u "g", 1.0%float);
      (u "kg", 1000.0%float);
      (u "ml", 1.0%float);
      (u "l", 1000.0%float);
      (u "개", 50.0%float);
      (u "공기", 210.0%float);
      (u "큰술", 13.5%float);
      (u "작은술", 4.5%float) ].

(** [to_grams(value, unit, food_name)]. *)
Definition to_grams (value : float) (unit : option pystr) (food_name : pystr) : float :=
  match unit with
  | None => value
  | Some unit =>
    match UNIT_TO_G !! unit with
    | None => value
    | Some base => PrimFloat.mul value base
    end
  end.

(** The alternatives of the unit group of [NUM_UNIT_RE], in the order
    the pattern tries them. *)
Definition UNIT_ALTERNATIVES : list pystr :=
  [u "g"; u "kg"; u "ml"; u "l"; u "개"; u "공기"; u "큰술"; u "작은술"].

(** A pattern letter against a text character under [re.IGNORECASE]:
    the letters of the alternatives are g, k, m and l, each matched by
    itself and its capital, and k also by the Kelvin sign U+212A; the
    Hangul syllables have no case. *)
Definition ci_eq (p c : N) : bool :=
  (p =? c) || ((97 <=? p) && (p <=? 122) && (c =? p - 32)) || ((p =? 107) && (c =? 8490)).

Fixpoint ci_startswith (p s : pystr) : bool :=
  match p, s with
  | [], _ => true
  | _ :: _, [] => false
  | a :: p', b :: s' => ci_eq a b && ci_startswith p' s'
  end.

(** [str.lower()] on the characters a matched unit can hold. *)
Definition lower_char (c : N) : N :=
  if (65 <=? c) && (c <=? 90) then c + 32 else if c =? 8490 then 107 else c.

Definition lower (s : pystr) : pystr := lower_char <$> s.

(** A match object of [NUM_UNIT_RE]: its span and its two groups. *)
Record Match := {
  m_start : nat;
  m_end : nat;
  group1 : pystr;
  group2 : option pystr
}.

(** [ParsedItem]. *)
Record ParsedItem := {
  raw_name : pystr;
  canonical_name : pystr;
  grams : float
}.

Section Parser.
Context (U : Unicode).

Definition is_digit (c : N) : bool :=
  match decimal U c with Some _ => true | None => false end.

(** The longest prefix of characters satisfying [p], and the rest. *)
Fixpoint span_of (p : N -> bool) (s : pystr) : pystr * pystr :=
  match s with
  | [] => ([], [])
  | c :: s' =>
    if p c then let '(a, b) := span_of p s' in (c :: a, b) else ([], s)
  end.

(** The match of [(\d+(?:\.\d+)?)\s*(g|kg|ml|l|...)?] that starts at
    position [i], where [s] is the text from [i] on and begins with a
    digit.  Each quantifier is greedy and everything after the first
    digits is optional, so the first path the engine tries succeeds:
    all the digits, a point only when digits follow it, all the white
    space, then the first alternative that fits. *)
Definition match_at (i : nat) (s : pystr) : Match :=
  let '(ip, r1) := span_of is_digit s in
  let '(fp, r2) :=
    match r1 with
    | 46 :: r1' =>
      let '(d, r) := span_of is_digit r1' in
      match d with [] => ([], r1) | _ :: _ => (46 :: d, r) end
    | _ => ([], r1)
    end in
  let '(ws, r3) := span_of (isspace U) r2 in
  let g2 := (fun alt => take (length alt) r3) <$> find (fun alt => ci_startswith alt r3) UNIT_ALTERNATIVES in
  {| m_start := i;
     m_end := i + length ip + length fp + length ws + from_option length 0%nat g2;
     group1 := ip ++ fp;
     group2 := g2 |}.

(** [NUM_UNIT_RE.search(s)]: the leftmost position where the pattern
    matches is the first digit. *)
Fixpoint search_from (i : nat) (s : pystr) : option Match :=
  match s with
  | [] => None
  | c :: s' => if is_digit c then Some (match_at i s) else search_from (S i) s'
  end.

Definition NUM_UNIT_RE_search (s : pystr) : option Match := search_from 0 s.

(** [float(m.group(1))]: the digits are read through their decimal
    values. *)
Definition digits_value (ds : pystr) : N :=
  fold_left (fun acc c => acc * 10 + default 0 (decimal U c)) ds 0.

Definition float_of_group1 (g : pystr) : float :=
  let '(ip, r) := span_of is_digit g in
  let fp := drop 1 r in
  decimal_to_float (digits_value (ip ++ fp)) (N.of_nat (length fp)).

(** [split_items(text)]. *)
Definition split_items (text : pystr) : list pystr :=
  let text := replace (u "그리고") (u ",") text in
  omap (fun p => if truthy (strip U p) then Some (strip U p) else None)
       (split_on (fun c => (c =? 44) || (c =? 10) || (c =? 47)) text).

(** [extract_amount(segment)]. *)
Definition extract_amount (segment : pystr) : option (float * option pystr) :=
  match NUM_UNIT_RE_search segment with
  | None => None
  | Some m => Some (float_of_group1 (group1 m), lower <$> group2 m)
  end.

(** The name candidate of a segment, as [parse_text] computes it.  The
    second [NUM_UNIT_RE.search] of [parse_text] reads the segment that
    [extract_amount] searched, so it finds a match exactly when an
    amount was found. *)
Definition name_part_of (segment : pystr) : pystr :=
  let name_part :=
    match NUM_UNIT_RE_search segment with
    | Some m => strip U (take (m_start m) segment ++ drop (m_end m) segment)
    | None => segment
    end in
  let name_part := strip U (collapse_ws U false name_part) in
  if truthy name_part then name_part else strip U segment.

(** The body of the loop of [parse_text], on the two lists it fills. *)
Definition parse_segment (db : Db.Database)
    (st : list ParsedItem * list pystr) (segment : pystr) : list ParsedItem * list pystr :=
  if negb (truthy segment) then st
  else
    let amt := extract_amount segment in
    let name_part := name_part_of segment in
    let canonical := Db.resolve_canonical U db name_part in
    let value_g :=
      match amt with
      | Some (value, unit) => to_grams value unit canonical
      | None => 100.0%float
      end in
    let food :=
      match Db.get_food db canonical with
      | Some f => Some f
      | None => Db.get_food db name_part
      end in
    match food with
    | None => (st.1, st.2 ++ [segment])
    | Some f =>
      (st.1 ++ [{| raw_name := name_part; canonical_name := Db.name f; grams := value_g |}],
       st.2)
    end.

(** [parse_text(text)]: the items and the unresolved segments. *)
Definition parse_text (db : Db.Database) (text : pystr) : list ParsedItem * list pystr :=
  fold_left (parse_segment db) (split_items text) ([], []).

End Parser.

(** The dictionary [compute_nutrition] returns. *)
Record Nutrition := {
  kcal : float;
  protein : float;
  fat : float;
  carbs : float
}.

(** [compute_nutrition(canonical_name, grams)]. *)
Definition compute_nutrition (db : Db.Database) (canonical_name : pystr) (grams : float)
    : res Nutrition :=
  match Db.get_food db canonical_name with
  | None => Ok {| kcal := 0.0; protein := 0.0; fat := 0.0; carbs := 0.0 |}
  | Some food =>
    factor ← py_div grams 100.0;
    Ok {| kcal := Db.kcal food * factor;
          protein := Db.protein food * factor;
          fat := Db.fat food * factor;
          carbs := Db.carbs food * factor |}
  end.

End FoodParser.


(** ** models.py: the macro-ratio parser *)

Module Models.

Section ParseMacro.
(** [float_of_str] is the builtin [float()] applied to a [str]; it
    raises [ValueError] on text that is not a number. *)
Context (U : Unicode) (float_of_str : pystr -> res float).

(** [parse_macro_str(s)]. *)
Definition parse_macro_str (s : pystr) : res (gmap pystr float) :=
  let parts := strip U <$> split_on (fun c => c =? 44) s in
  match parts with
  | [p0; p1; p2] =>
    c ← float_of_str p0;
    p ← float_of_str p1;
    f ← float_of_str p2;
    let total := (c + p + f)%float in
    if (total <=? 0)%float then Raise ValueError
    else
      rc ← py_div c total;
      rp ← py_div p total;
      rf ← py_div f total;
      Ok (<[u "carb" := rc]> (<[u "protein" := rp]> (<[u "fat" := rf]> ∅)))
  | _ => Raise ValueError
  end.

End ParseMacro.

End Models.

(** ** recommender.py *)

Module Recommender.

Local Open Scope float_scope.

Definition PROTEIN_FOODS : list pystr :=
  [u "닭가슴살"; u "참치캔(물)"; u "계란"; u "두부"; u "요거트"; u "연어"; u "고등어"].
Definition CARB_FOODS : list pystr :=
  [u "백미밥"; u "현미밥"; u "고구마"; u "바나나"; u "사과"].
Definition FAT_HELPERS : list pystr :=
  [u "연어"; u "고등어"; u "요거트"].

(** [FoodPortion]. *)
Record FoodPortion := {
  name : pystr;
  grams : float;
  kcal : float;
  protein : float;
  fat : float;
  carbs : float
}.

(** The dictionary built for one meal. *)
Module Plan.
Record t := {
  items : list FoodPortion;
  kcal : float;
  protein : float;
  fat : float;
  carbs : float
}.
End Plan.

(** The local variables of one iteration of the loop over the meals. *)
Record Meal := {
  portions : list FoodPortion;
  total_kcal : float;
  total_p : float;
  total_f : float;
  total_c : float
}.

(** [portions.append(fp)] and the four [+=]. *)
Definition add_portion (m : Meal) (fp : FoodPortion) : Meal :=
  {| portions := portions m ++ [fp];
     total_kcal := total_kcal m + kcal fp;
     total_p := total_p m + protein fp;
     total_f := total_f m + fat fp;
     total_c := total_c m + carbs fp |}.

Definition empty_meal : Meal :=
  {| portions := []; total_kcal := 0.0; total_p := 0.0; total_f := 0.0; total_c := 0.0 |}.

Section Recommend.
Context (db : Db.Database).

(** [nutrition_for(name, grams)]. *)
Definition nutrition_for (n : pystr) (g : float) : res FoodPortion :=
  match Db.get_food db n with
  | None => Ok {| name := n; grams := g; kcal := 0; protein := 0; fat := 0; carbs := 0 |}
  | Some f =>
    factor ← py_div g 100.0;
    Ok {| name := n; grams := g;
          kcal := Db.kcal f * factor;
          protein := Db.protein f * factor;
          fat := Db.fat f * factor;
          carbs := Db.carbs f * factor |}
  end.

(** The search for the protein source: the first candidate that the
    catalog knows. *)
Fixpoint pick (candidates : list pystr) : option pystr :=
  match candidates with
  | [] => None
  | cand :: rest =>
    match Db.get_food db cand with
    | Some _ => Some cand
    | None => pick rest
    end
  end.

(** The body of the loop over the meals, for the values computed
    before it. *)
Section Slot.
Context (avoid prefer : gset pystr) (per_meal lower protein_per_meal : float).

(** The protein source. *)
Definition protein_slot (m : Meal) : res Meal :=
  let candidates := filter (fun f => f ∉ avoid) (elements prefer ++ PROTEIN_FOODS) in
  match pick candidates with
  | None => Ok m
  | Some picked =>
    if truthy picked then
      p100 ← match Db.get_food db picked with
             | Some f => Ok (Db.protein f)
             | None => Raise TypeError
             end;
      q ← py_div protein_per_meal (py_max p100 0.1);
      let g := py_min 200.0 (py_max 50.0 (q * 100.0)) in
      fp ← nutrition_for picked g;
      Ok (add_portion m fp)
    else Ok m
  end.

(** The loop over the carbohydrate bases; returning [m] unchanged from
    inside the list is the [break]. *)
Fixpoint carb_loop (cands : list pystr) (m : Meal) : res Meal :=
  match cands with
  | [] => Ok m
  | carb :: rest =>
    if bool_decide (carb ∈ avoid) then carb_loop rest m
    else
      match Db.get_food db carb with
      | None => carb_loop rest m
      | Some info =>
        let remain :=
          if total_kcal m <? lower then py_max (lower - total_kcal m) 0
          else per_meal - total_kcal m in
        if remain <=? 0 then Ok m
        else
          q ← py_div remain (py_max (Db.kcal info) 1e-6);
          let g := py_min 250.0 (py_max 80.0 (q * 100.0)) in
          fp ← nutrition_for carb g;
          let m' := add_portion m fp in
          if lower <=? total_kcal m' then Ok m' else carb_loop rest m'
      end
  end.

Definition carb_slot (m : Meal) : res Meal :=
  carb_loop (elements prefer ++ CARB_FOODS) m.

(** The loop over the fat helpers. *)
Fixpoint fat_loop (cands : list pystr) (m : Meal) : res Meal :=
  match cands with
  | [] => Ok m
  | fatname :: rest =>
    if bool_decide (fatname ∈ avoid) then fat_loop rest m
    else
      match Db.get_food db fatname with
      | None => fat_loop rest m
      | Some info =>
        q ← py_div (per_meal - total_kcal m) (py_max (Db.kcal info) 1e-6);
        let add := py_min 100.0 (py_max 30.0 (q * 100.0)) in
        fp ← nutrition_for fatname add;
        let m' := add_portion m fp in
        if lower <=? total_kcal m' then Ok m' else fat_loop rest m'
      end
  end.

Definition fat_slot (m : Meal) : res Meal :=
  if total_kcal m <? lower then fat_loop FAT_HELPERS m else Ok m.

(** The dictionary appended to [plans]. *)
Definition plan_of (m : Meal) : Plan.t :=
  {| Plan.items := portions m;
     Plan.kcal := total_kcal m;
     Plan.protein := total_p m;
     Plan.fat := total_f m;
     Plan.carbs := total_c m |}.

Definition meal_slot : res Plan.t :=
  m ← protein_slot empty_meal;
  m ← carb_slot m;
  m ← fat_slot m;
  Ok (plan_of m).

(** [for _ in range(meals)], with [n] iterations left. *)
Fixpoint meals_loop (n : nat) (plans : list Plan.t) : res (list Plan.t) :=
  match n with
  | O => Ok plans
  | S n' => plan ← meal_slot; meals_loop n' (plans ++ [plan])
  end.

End Slot.

(** [recommend_meals(target_kcal, macro_ratio, body_weight, meals,
    avoid, prefer)].  The two lists become sets; [list(prefer)] yields
    the names of the set in an order Python does not specify, and
    [elements] stands for that order. *)
Definition recommend_meals (target_kcal : float) (macro_ratio : gmap pystr float)
    (body_weight : float) (meals : Z) (avoid prefer : option (list pystr))
    : res (list Plan.t) :=
  let avoid : gset pystr := list_to_set (default [] avoid) in
  let prefer : gset pystr := list_to_set (default [] prefer) in
  per_meal ← py_div_int target_kcal meals;
  let lower := (per_meal * 0.9)%float in
  ratio_g ← py_div (target_kcal * default 0.3%float (macro_ratio !! u "protein")) 4;
  let protein_target_g := py_max (1.6 * body_weight) ratio_g in
  protein_per_meal ← py_div_int protein_target_g meals;
  meals_loop avoid prefer per_meal lower protein_per_meal (Z.to_nat meals) [].

End Recommend.

End Recommender.

(** ** A catalog for the examples

    The seed files of the repository are not part of the sources; the
    per-100g energy of egg, tomato and chicken breast is what the
    parser's test quotes, the other figures are illustrative. *)

Module Sample.

Definition row (n : string) (k p f c : float) : Db.FoodRow :=
  {| Db.name := u n; Db.kcal := k; Db.protein := p; Db.fat := f; Db.carbs := c |}.

Definition catalog : Db.Database :=
  {| Db.food_items :=
       [ row "계란" 155 13 11 1.1;
         row "토마토" 18 0.9 0.2 3.9;
         row "닭가슴살" 165 31 3.6 0;
         row "백미밥" 130 2.7 0.3 28 ];
     Db.food_synonyms := [ (u "달걀", u "계란") ] |}.

(** A catalog that holds rice only. *)
Definition rice_only : Db.Database :=
  {| Db.food_items := [ row "백미밥" 130 2.7 0.3 28 ]; Db.food_synonyms := [] |}.

(** The builtin [float()] on the unsigned decimal literals
    [\d+(\.\d+)?], where it agrees with [float_of_group1]; every other
    text is refused here, which the examples do not use. *)
Definition float_of_str (s : pystr) : res float :=
  match FoodParser.NUM_UNIT_RE_search basic_unicode s with
  | Some m =>
    if bool_decide (FoodParser.m_start m = 0%nat /\ FoodParser.group1 m = s)
    then Ok (FoodParser.float_of_group1 basic_unicode s)
    else Raise ValueError
  | None => Raise ValueError
  end.

End Sample.

(** ** The resolver as the specification words it

    Written from the specification, to be compared with
    [Db.resolve_canonical]: alias lookup, then exact catalog match, then
    substring catalog match with the shortest matching name first, and
    the input unchanged when nothing matches. *)

Module Spec.

(** [n] occurs in [s] as a substring. *)
Fixpoint contains (n s : pystr) : bool :=
  startswith n s || match s with [] => false | _ :: s' => contains n s' end.

Definition lookup_contains (db : Db.Database) (n : pystr) : option Db.FoodRow :=
  Db.shortest (filter (fun r => contains n (Db.name r)) (Db.food_items db)).

Definition resolver_chain (db : Db.Database) (n : pystr) : pystr :=
  match Db.select_synonym db n with
  | Some canonical => canonical
  | None =>
    match Db.select_food db n with
    | Some r => Db.name r
    | None =>
      match lookup_contains db n with
      | Some r => Db.name r
      | None => n
      end
    end
  end.

End Spec.

(** ** Predicates on floats

    The order tests are those of the machine: [nonneg x] is the Python
    test [0 <= x], false of a NaN. *)

Definition sf_nonneg (x : spec_float) : Prop :=
  match x with
  | S754_zero _ | S754_finite false _ _ | S754_infinity false => True
  | _ => False
  end.

Definition nonneg (x : float) : Prop := (0 <=? x)%float = true.

Definition pos (x : float) : Prop := (0 <? x)%float = true.

Definition sf_posfin (x : spec_float) : Prop :=
  match x with S754_finite false _ _ => True | _ => False end.

Definition posfin (x : float) : Prop := sf_posfin (Prim2SF x).

(** The size of a portion: a positive finite number with one of the
    four exponents that the numbers from 16 up to 256 have, among them
    every bound (30, 50, 80, 100, 200, 250) of the three slots. *)
Definition sf_portion (x : spec_float) : Prop :=
  match x with
  | S754_finite false m e => (-48 <= e <= -45)%Z
  | _ => False
  end.

Definition portion (g : float) : Prop := sf_portion (Prim2SF g).

(** ** Notions used to state the properties *)

Import Db FoodParser.

(** The table written out as the chain of comparisons it stands for. *)
Definition unit_factor (unit : pystr) : option float :=
  if decide (unit = u "g") then Some 1.0%float
  else if decide (unit = u "kg") then Some 1000.0%float
  else if decide (unit = u "ml") then Some 1.0%float
  else if decide (unit = u "l") then Some 1000.0%float
  else if decide (unit = u "개") then Some 50.0%float
  else if decide (unit = u "공기") then Some 210.0%float
  else if decide (unit = u "큰술") then Some 13.5%float
  else if decide (unit = u "작은술") then Some 4.5%float
  else None.

(** The [UNIQUE] constraint on [food_items.name]. *)
Definition unique_names (db : Database) : Prop := NoDup (name <$> food_items db).

(** A character that a [LIKE] pattern takes literally and without case:
    neither wildcard, nor an ASCII letter. *)
Definition plain (c : N) : Prop :=
  c <> 37 /\ c <> 95 /\ ~ (65 <= c <= 90) /\ ~ (97 <= c <= 122).

(** A string that [lstrip] leaves alone: empty, or not starting with
    white space. *)
Definition lstripped (U : Unicode) (s : pystr) : Prop :=
  match s with [] => True | c :: _ => isspace U c = false end.

Section SegmentOutcome.
Context (U : Unicode) (db : Database).

(** The catalog entry [parse_text] settles on for a segment: the lookup
    of the resolved name, then of the name candidate itself. *)
Definition segment_food (segment : pystr) : option FoodRow :=
  match get_food db (resolve_canonical U db (name_part_of U segment)) with
  | Some f => Some f
  | None => get_food db (name_part_of U segment)
  end.

(** The grams [parse_text] computes for a segment. *)
Definition segment_grams (segment : pystr) : float :=
  match extract_amount U segment with
  | Some (value, unit) =>
    to_grams value unit (resolve_canonical U db (name_part_of U segment))
  | None => 100.0%float
  end.

(** The item a segment gives, if any. *)
Definition segment_item (segment : pystr) : option ParsedItem :=
  if truthy segment then
    (fun f => {| raw_name := name_part_of U segment;
                 canonical_name := name f;
                 grams := segment_grams segment |}) <$> segment_food segment
  else None.

(** The segments reported as unresolved. *)
Definition segment_unresolved (segment : pystr) : bool :=
  truthy segment && bool_decide (segment_food segment = None).

End SegmentOutcome.

Module RecommenderNotions.
Import Recommender.
Local Open Scope float_scope.

(** The portion [nutrition_for] builds. *)
Definition scaled (db : Database) (n : pystr) (g : float) : FoodPortion :=
  match get_food db n with
  | None => {| name := n; grams := g; kcal := 0; protein := 0; fat := 0; carbs := 0 |}
  | Some f =>
    {| name := n; grams := g;
       kcal := Db.kcal f * (g / 100);
       protein := Db.protein f * (g / 100);
       fat := Db.fat f * (g / 100);
       carbs := Db.carbs f * (g / 100) |}
  end.

(** The grams of the three slots. *)
Definition protein_grams (protein_per_meal p100 : float) : float :=
  py_min 200 (py_max 50 (protein_per_meal / py_max p100 0.1 * 100)).

(** The totals stay non-negative when the macros of the catalog are. *)
Definition nonneg_catalog (db : Database) : Prop :=
  forall f, f ∈ food_items db ->
    nonneg (Db.kcal f) /\ nonneg (Db.protein f) /\ nonneg (Db.fat f) /\ nonneg (Db.carbs f).

Definition nonneg_totals (m : Meal) : Prop :=
  nonneg (total_kcal m) /\ nonneg (total_p m) /\ nonneg (total_f m) /\ nonneg (total_c m).

(** Portions are only ever appended. *)
Definition extends (m0 m : Meal) : Prop := exists l, portions m = portions m0 ++ l.

Definition nonempty (m : Meal) : Prop := exists fp l, portions m = fp :: l.

(** The values [recommend_meals] computes before its loop, for the
    float [fm] its meal count converts to. *)
Definition per_meal_of (target_kcal fm : float) : float := target_kcal / fm.

Definition lower_of (target_kcal fm : float) : float := per_meal_of target_kcal fm * 0.9.

Definition protein_per_meal_of (target_kcal : float) (macro_ratio : gmap pystr float)
    (body_weight fm : float) : float :=
  py_max (1.6 * body_weight)
         (target_kcal * default 0.3 (macro_ratio !! u "protein") / 4) / fm.

Definition as_set (l : option (list pystr)) : gset pystr := list_to_set (default [] l).

End RecommenderNotions.

(** ** db.py: the statements that change the catalog, and the search *)

Module DbWrite.

Section Write.
Context (U : Unicode).

(** [upsert_food(name, kcal, protein, fat, carbs)]: [INSERT ... ON
    CONFLICT(name) DO UPDATE SET ...] with the trimmed name.  The row
    of that name, if there is one, takes the new values where it
    stands; otherwise a new row comes last.  [float(kcal)] leaves a
    float as it is.  A [REAL] column keeps every number except a NaN,
    which SQLite stores as [NULL], and a negative zero, whose sign it
    may drop; the property about the stored values takes numbers that
    are neither. *)
Definition upsert_food (db : Database) (n : pystr) (k p f c : float) : Database :=
  let row :=
    {| Db.name := strip U n; Db.kcal := k; Db.protein := p; Db.fat := f; Db.carbs := c |} in
  {| food_items :=
       match select_food db (strip U n) with
       | Some _ =>
         (fun r => if bool_decide (Db.name r = strip U n) then row else r) <$> food_items db
       | None => food_items db ++ [row]
       end;
     food_synonyms := food_synonyms db |}.

(** [add_synonym(alias, canonical)]: [INSERT OR REPLACE]; a row with
    the same alias is deleted and the new row comes last. *)
Definition add_synonym (db : Database) (alias canonical : pystr) : Database :=
  {| food_items := food_items db;
     food_synonyms :=
       filter (fun r => r.1 <> strip U alias) (food_synonyms db)
       ++ [(strip U alias, strip U canonical)] |}.

End Write.

(** The order of [ORDER BY name]: the column has the default collation,
    which compares the UTF-8 encodings byte by byte, and that is the
    order of the code points, a proper prefix coming first. *)
Fixpoint name_le (a b : pystr) : bool :=
  match a, b with
  | [], _ => true
  | _ :: _, [] => false
  | x :: a', y :: b' => (x <? y) || ((x =? y) && name_le a' b')
  end.

Definition by_name (r1 r2 : FoodRow) : Prop := name_le (Db.name r1) (Db.name r2) = true.

#[global] Instance by_name_dec : RelDecision by_name.
Proof. intros r1 r2. unfold by_name. apply _. Defined.

(** [search_foods(q)]: [WHERE name LIKE '%' || q || '%' ORDER BY name]. *)
Definition search_foods (db : Database) (q : pystr) : list FoodRow :=
  merge_sort by_name
    (filter (fun r => sql_like ([37] ++ q ++ [37]) (Db.name r)) (food_items db)).

End DbWrite.

(** ** db.py: the logged entries *)

Module Entries.

(** A row of [entries]. *)
Record EntryRow := {
  id : Z;
  dt : pystr;
  date : pystr;
  time : pystr;
  food_name : pystr;
  grams : float;
  kcal : float;
  protein : float;
  fat : float;
  carbs : float;
  raw_input : pystr
}.

(** The largest row id in use, 0 for the empty table. *)
Definition max_id (t : list EntryRow) : Z :=
  match id <$> t with
  | [] => 0%Z
  | i :: rest => foldr Z.max i rest
  end.

(** [insert_entry(...)]: the table, in the order of the row ids, with
    the new row, and the [lastrowid] returned.  The column [id] is an
    [INTEGER PRIMARY KEY] without [AUTOINCREMENT]: SQLite gives the new
    row one more than the largest id in use, as long as that is not the
    largest 64-bit integer.  The five numbers go into [REAL] columns,
    with the proviso stated at [upsert_food]. *)
Definition insert_entry (t : list EntryRow)
    (dt_iso date_str time_str name : pystr) (g k p f c : float) (raw : pystr)
    : list EntryRow * Z :=
  let i := (max_id t + 1)%Z in
  (t ++ [{| id := i; dt := dt_iso; date := date_str; time := time_str; food_name := name;
            grams := g; kcal := k; protein := p; fat := f; carbs := c;
            raw_input := raw |}],
   i).

(** [delete_entry(entry_id)]. *)
Definition delete_entry (t : list EntryRow) (entry_id : Z) : list EntryRow :=
  filter (fun r => id r <> entry_id) t.

(** A dictionary of the list [list_entries_by_date] returns. *)
Record Listed := {
  l_id : Z;
  l_food_name : pystr;
  l_grams : float;
  l_kcal : float;
  l_protein : float;
  l_fat : float;
  l_carbs : float;
  l_time : pystr
}.

Definition listed (r : EntryRow) : Listed :=
  {| l_id := id r; l_food_name := food_name r; l_grams := grams r; l_kcal := kcal r;
     l_protein := protein r; l_fat := fat r; l_carbs := carbs r; l_time := time r |}.

Definition by_time (r1 r2 : EntryRow) : Prop := DbWrite.name_le (time r1) (time r2) = true.

#[global] Instance by_time_dec : RelDecision by_time.
Proof. intros r1 r2. unfold by_time. apply _. Defined.

(** [list_entries_by_date(date_str)]: [WHERE date=? ORDER BY time].
    Among rows of equal time SQLite fixes no order; the order of the
    row ids stands for it here, and no property below depends on it. *)
Definition list_entries_by_date (t : list EntryRow) (date_str : pystr) : list Listed :=
  listed <$> merge_sort by_time (filter (fun r => date r = date_str) t).

End Entries.

(** ** models.py: the user profile *)

Module UserProfile.

Local Open Scope float_scope.

(** [ACTIVITY_MAP]. *)
Definition ACTIVITY_MAP : gmap pystr float :=
  list_to_map
    [ (u "sedentary", 1.2);
      (u "light", 1.375);
      (u "moderate", 1.55);
      (u "very", 1.725);
      (u "athlete", 1.9) ].

(** The dataclass, with the types of its annotations; [age] is an
    [int] and the other numbers are [float]s. *)
Record t := {
  gender : pystr;
  age : Z;
  height_cm : float;
  weight_kg : float;
  activity : pystr;
  target_kcal : option float;
  macro_ratio : gmap pystr float
}.

(** [bmr()].  [5 * self.age] is a product of integers; subtracting it
    from a float converts it, which raises when it is too large. *)
Definition bmr (self : t) : res float :=
  a ← float_of_int (5 * age self);
  let body := 10 * weight_kg self + 6.25 * height_cm self - a in
  Ok (if bool_decide (gender self = u "female") then body - 161 else body + 5).

(** [tdee()]. *)
Definition tdee (self : t) : res float :=
  let factor := default 1.375 (ACTIVITY_MAP !! activity self) in
  b ← bmr self;
  Ok (b * factor).

(** [resolve_target_kcal(deficit)]. *)
Definition resolve_target_kcal (self : t) (deficit : option float) : res float :=
  base ← match target_kcal self with
         | Some tk => Ok tk
         | None => tdee self
         end;
  match deficit with
  | Some d => if (0 <? d) && (d <? 0.9) then Ok (base * (1 - d)) else Ok base
  | None => Ok base
  end.

(** The dictionary [macro_targets_g] returns. *)
Record MacroTargets := {
  carb_g : float;
  protein_g : float;
  fat_g : float
}.

(** [macro_targets_g(target_kcal)]. *)
Definition macro_targets_g (self : t) (target : option float) : res MacroTargets :=
  tk ← match target with
       | Some tk => Ok tk
       | None => resolve_target_kcal self None
       end;
  let carb_ratio := default 0.4 (macro_ratio self !! u "carb") in
  let protein_ratio := default 0.3 (macro_ratio self !! u "protein") in
  let fat_ratio := default 0.3 (macro_ratio self !! u "fat") in
  Ok {| carb_g := tk * carb_ratio / 4;
        protein_g := tk * protein_ratio / 4;
        fat_g := tk * fat_ratio / 9 |}.

End UserProfile.

(** ** diet_bot.py: what the commands compute *)

Module DietBot.

Section Commands.
Context (U : Unicode) (db : Database).

(** [[s.strip() for s in (arg or "").split(",") if s.strip()]], the
    list [cmd_recommend] makes of [--avoid] and of [--prefer]. *)
Definition cli_names (arg : option pystr) : list pystr :=
  omap (fun s => if truthy (strip U s) then Some (strip U s) else None)
       (split_on (fun c => c =? 44) (default [] arg)).

(** The loop of [cmd_log] over the parsed items, on the table of
    entries: one [insert_entry] per item.  [date_str] and [time_str]
    are the date and the time the command settles on, from its options
    or from the clock, and [raw] is the text. *)
Fixpoint log_items (date_str time_str raw : pystr) (items : list ParsedItem)
    (t : list Entries.EntryRow) : res (list Entries.EntryRow) :=
  match items with
  | [] => Ok t
  | it :: rest =>
    n ← compute_nutrition db (canonical_name it) (FoodParser.grams it);
    let t' :=
      (Entries.insert_entry t (date_str ++ [84] ++ time_str) date_str time_str
         (canonical_name it) (FoodParser.grams it)
         (FoodParser.kcal n) (FoodParser.protein n) (FoodParser.fat n) (FoodParser.carbs n)
         raw).1 in
    log_items date_str time_str raw rest t'
  end.

(** [cmd_log]: the table after the command and the two counts of the
    line it prints, logged and skipped. *)
Definition cmd_log (t : list Entries.EntryRow) (text date_str time_str : pystr)
    : res (list Entries.EntryRow * (nat * nat)) :=
  let '(items, unresolved) := parse_text U db text in
  t' ← log_items date_str time_str text items t;
  Ok (t', (length items, length unresolved)).

(** [cmd_recommend], from the profile it has built to the plans it
    prints. *)
Definition cmd_recommend (prof : UserProfile.t) (deficit : option float) (meals : Z)
    (avoid prefer : option pystr) : res (list Recommender.Plan.t) :=
  tk ← UserProfile.resolve_target_kcal prof deficit;
  Recommender.recommend_meals db tk (UserProfile.macro_ratio prof)
    (UserProfile.weight_kg prof) meals
    (Some (cli_names avoid)) (Some (cli_names prefer)).

End Commands.

End DietBot.

(** ** Notions used to state the further properties *)

(** A separator of [split_items]. *)
Definition separator (c : N) : Prop := c = 44 \/ c = 10 \/ c = 47.

(** A number that a [REAL] column gives back as it was stored: not a
    NaN, which is stored as [NULL], and not a negative zero, whose sign
    is dropped. *)
Definition storable (x : float) : Prop :=
  match Prim2SF x with
  | S754_nan | S754_zero true => False
  | _ => True
  end.

(** The column holds [v], provided [v] is a number it gives back. *)
Definition holds (x v : float) : Prop := storable v -> x = v.

(** The row [cmd_log] inserts for a parsed item: the date, the time and
    the text of the command, the item's name and grams, and the macros
    of the catalog row of that name scaled to the grams. *)
Definition logged (db : Database) (date_str time_str raw : pystr)
    (it : ParsedItem) (r : Entries.EntryRow) : Prop :=
  exists row,
    select_food db (canonical_name it) = Some row
    /\ Entries.dt r = date_str ++ [84] ++ time_str
    /\ Entries.date r = date_str
    /\ Entries.time r = time_str
    /\ Entries.raw_input r = raw
    /\ Entries.food_name r = canonical_name it
    /\ holds (Entries.grams r) (FoodParser.grams it)
    /\ holds (Entries.kcal r) (Db.kcal row * (FoodParser.grams it / 100))%float
    /\ holds (Entries.protein r) (Db.protein row * (FoodParser.grams it / 100))%float
    /\ holds (Entries.fat r) (Db.fat row * (FoodParser.grams it / 100))%float
    /\ holds (Entries.carbs r) (Db.carbs row * (FoodParser.grams it / 100))%float.

(** The order of the listed entries. *)
Definition listed_by_time (a b : Entries.Listed) : Prop :=
  DbWrite.name_le (Entries.l_time a) (Entries.l_time b) = true.

Module PlanNotions.
Import Recommender.
Local Open Scope float_scope.

(** [lo <= g <= hi] as Python tests it. *)
Definition within (lo hi g : float) : Prop := (lo <=? g) = true /\ (g <=? hi) = true.

(** The bounds of the three slots: protein source, carbohydrate base,
    fat helper. *)
Definition SLOT_BOUNDS : list (float * float) := [(50, 200); (80, 250); (30, 100)].

(** A total accumulated from [0.0] by [+=] over the items in order. *)
Definition running_sum (xs : list float) : float := fold_left PrimFloat.add xs 0.

End PlanNotions.

(** A number that is zero or positive, and finite. *)
Definition finite_nonneg (x : float) : Prop :=
  match Prim2SF x with
  | S754_zero _ | S754_finite false _ _ => True
  | _ => False
  end.

(** [",".join(segments)]. *)
Fixpoint join_commas (segments : list pystr) : pystr :=
  match segments with
  | [] => []
  | [s] => s
  | s :: rest => s ++ 44 :: join_commas rest
  end.

(** A segment as [split_items] returns them, and without the word
    그리고: not empty, trimmed, and free of separators. *)
Definition clean_segment (U : Unicode) (s : pystr) : Prop :=
  s <> [] /\ strip U s = s /\ Forall (fun c => ~ separator c) s
  /\ Spec.contains (u "그리고") s = false.

(** A table of entries for the examples: one entry on each of two
    days. *)
Module SampleEntries.
Import Entries.

Definition table : list EntryRow :=
  [ {| id := 1; dt := u "2025-01-01T08:00"; date := u "2025-01-01"; time := u "08:00";
       food_name := u "계란"; grams := 100; kcal := 155; protein := 13; fat := 11;
       carbs := 1.1; raw_input := u "계란 2개" |};
    {| id := 2; dt := u "2025-01-02T07:30"; date := u "2025-01-02"; time := u "07:30";
       food_name := u "토마토"; grams := 100; kcal := 18; protein := 0.9; fat := 0.2;
       carbs := 3.9; raw_input := u "토마토" |} ].

End SampleEntries.

(** * Properties *)

(** ** The unit converter *)

Lemma UNIT_TO_G_lookup (unit : pystr) : UNIT_TO_G !! unit = unit_factor unit.
Proof.
  unfold unit_factor.
  repeat (destruct (decide _) as [->|?]; [vm_compute; reflexivity|]).
  unfold UNIT_TO_G. cbn [list_to_map foldr fst snd uncurry].
  repeat (rewrite lookup_insert_ne by (intros E; symmetry in E; contradiction)).
  apply lookup_empty.
Qed.

(** C3: [to_grams] returns the value unchanged for no unit and for a
    unit outside the table, and the value times the factor of the table
    (g 1, kg 1000, ml 1, l 1000, 개 50, 공기 210, 큰술 13.5, 작은술 4.5)
    otherwise; it is a total function, and the food name plays no part
    in the result. *)
Theorem to_grams_table (value : float) (unit : option pystr) (food_name other_name : pystr) :
  to_grams value unit food_name =
    match unit with
    | None => value
    | Some s =>
      if decide (s = u "g") then (value * 1)%float
      else if decide (s = u "kg") then (value * 1000)%float
      else if decide (s = u "ml") then (value * 1)%float
      else if decide (s = u "l") then (value * 1000)%float
      else if decide (s = u "개") then (value * 50)%float
      else if decide (s = u "공기") then (value * 210)%float
      else if decide (s = u "큰술") then (value * 13.5)%float
      else if decide (s = u "작은술") then (value * 4.5)%float
      else value
    end
  /\ to_grams value unit other_name = to_grams value unit food_name.
Proof.
  split; [|reflexivity].
  destruct unit as [s|]; [|reflexivity].
  unfold to_grams. rewrite UNIT_TO_G_lookup. unfold unit_factor.
  repeat (destruct (decide _); [reflexivity|]). reflexivity.
Qed.

(** ** The catalog *)

Lemma find_name_unique (rows : list FoodRow) (row : FoodRow) :
  NoDup (name <$> rows) -> row ∈ rows ->
  find (fun r => bool_decide (name r = name row)) rows = Some row.
Proof.
  induction rows as [|r rows IH]; intros Hnd Hin.
  - inversion Hin.
  - rewrite fmap_cons in Hnd. apply NoDup_cons in Hnd as [Hr Hnd].
    cbn [find]. apply elem_of_cons in Hin as [->|Hin].
    + rewrite bool_decide_eq_true_2 by reflexivity. reflexivity.
    + rewrite bool_decide_eq_false_2; [auto|].
      intros E. apply Hr. rewrite E. apply list_elem_of_fmap. eauto.
Qed.

Lemma select_food_unique (db : Database) (row : FoodRow) :
  unique_names db -> row ∈ food_items db -> select_food db (name row) = Some row.
Proof. apply find_name_unique. Qed.

Lemma get_food_exact (db : Database) (n : pystr) (row : FoodRow) :
  select_food db n = Some row -> get_food db n = Some row.
Proof. unfold get_food. intros ->. reflexivity. Qed.

Lemma select_food_name (db : Database) (n : pystr) (row : FoodRow) :
  select_food db n = Some row -> name row = n /\ row ∈ food_items db.
Proof.
  unfold select_food. intros H. apply find_some in H as [Hin Hb].
  apply bool_decide_eq_true_1 in Hb. split; [assumption|].
  apply list_elem_of_In. assumption.
Qed.

(** ** The nutrition scaler *)

Lemma py_div_100 (g : float) : py_div g 100 = Ok (g / 100)%float.
Proof. reflexivity. Qed.


Lemma sample_unique : unique_names Sample.catalog.
Proof. apply (bool_decide_unpack _). vm_compute. exact I. Qed.


(** ** The segment parser *)

Section ParseText.
Context (U : Unicode) (db : Database).

Lemma parse_segment_spec (st : list ParsedItem * list pystr) (segment : pystr) :
  parse_segment U db st segment =
    (st.1 ++ option_list (segment_item U db segment),
     st.2 ++ (if segment_unresolved U db segment then [segment] else [])).
Proof.
  unfold parse_segment, segment_item, segment_unresolved, segment_food, segment_grams.
  destruct st as [items unresolved]. cbn [fst snd].
  destruct (truthy segment); cbn [negb andb].
  - destruct (get_food db (resolve_canonical U db (name_part_of U segment))) as [f|].
    + rewrite bool_decide_eq_false_2 by discriminate. cbn. rewrite app_nil_r. reflexivity.
    + destruct (get_food db (name_part_of U segment)) as [f|].
      * rewrite bool_decide_eq_false_2 by discriminate. cbn. rewrite app_nil_r. reflexivity.
      * rewrite bool_decide_eq_true_2 by reflexivity. cbn. rewrite app_nil_r. reflexivity.
  - cbn. rewrite !app_nil_r. reflexivity.
Qed.

Lemma parse_fold_spec (segments : list pystr) (st : list ParsedItem * list pystr) :
  fold_left (parse_segment U db) segments st =
    (st.1 ++ omap (segment_item U db) segments,
     st.2 ++ filter (fun s => segment_unresolved U db s) segments).
Proof.
  revert st. induction segments as [|s segments IH]; intros st.
  - cbn. rewrite !app_nil_r. destruct st; reflexivity.
  - cbn [fold_left]. rewrite IH, parse_segment_spec. cbn [fst snd].
    rewrite <- !app_assoc. f_equal.
    + f_equal.
      change (omap (segment_item U db) (s :: segments))
        with (match segment_item U db s with
              | Some y => y :: omap (segment_item U db) segments
              | None => omap (segment_item U db) segments
              end).
      destruct (segment_item U db s); reflexivity.
    + f_equal. rewrite filter_cons. destruct (segment_unresolved U db s); cbn.
      * rewrite decide_True by exact I. reflexivity.
      * rewrite decide_False by (intros []). reflexivity.
Qed.

(** [parse_text] keeps the order of the segments: the items are those
    of the segments that have a catalog entry, and the unresolved list
    holds the other segments. *)
Lemma parse_text_spec (text : pystr) :
  parse_text U db text =
    (omap (segment_item U db) (split_items U text),
     filter (fun s => segment_unresolved U db s) (split_items U text)).
Proof. unfold parse_text. rewrite parse_fold_spec. reflexivity. Qed.

Lemma extract_amount_search (segment : pystr) :
  extract_amount U segment = None <-> NUM_UNIT_RE_search U segment = None.
Proof.
  unfold extract_amount. destruct (NUM_UNIT_RE_search U segment); split; congruence.
Qed.

End ParseText.

(** Deciding the comparisons of a table at a character of known range. *)
Ltac compare_N :=
  repeat match goal with
  | |- context [?a <=? ?b] =>
      first [ rewrite (proj2 (N.leb_le a b)) by lia
            | rewrite (proj2 (N.leb_gt a b)) by lia ]
  | |- context [?a =? ?b] => rewrite (proj2 (N.eqb_neq a b)) by lia
  end.

Lemma basic_unicode_standard : standard_tables basic_unicode.
Proof.
  split; intros c Hc; cbn; [split; reflexivity|].
  split.
  - unfold basic_isspace. compare_N. reflexivity.
  - unfold basic_decimal. compare_N. reflexivity.
Qed.

Lemma split_items_truthy (U : Unicode) (text segment : pystr) :
  segment ∈ split_items U text -> truthy segment = true.
Proof.
  unfold split_items. intros H. apply list_elem_of_omap in H as (p & _ & Hp).
  destruct (truthy (strip U p)) eqn:E; [|discriminate].
  injection Hp as <-. exact E.
Qed.

Section Rice.
Context (U : Unicode) (HU : standard_tables U).

Lemma tab_ascii (c : N) :
  c < 128 -> isspace U c = basic_isspace c /\ decimal U c = basic_decimal c.
Proof. apply HU. Qed.

Lemma tab_hangul (c : N) :
  44032 <= c <= 55203 -> isspace U c = false /\ decimal U c = None.
Proof. apply HU. Qed.

(** Reading the table at a given character. *)
Ltac table_at c :=
  first
    [ rewrite !(proj1 (tab_hangul c ltac:(lia))), ?(proj2 (tab_hangul c ltac:(lia)))
    | rewrite !(proj2 (tab_hangul c ltac:(lia)))
    | let s := eval vm_compute in (basic_isspace c) in
      let d := eval vm_compute in (basic_decimal c) in
      first [ rewrite !(proj1 (tab_ascii c ltac:(lia))); change (basic_isspace c) with s
            | rewrite !(proj2 (tab_ascii c ltac:(lia))); change (basic_decimal c) with d ] ].

Ltac tables :=
  repeat match goal with
  | |- context [isspace U ?c] => table_at c
  | |- context [decimal U ?c] => table_at c
  end.

(** Running the string functions on a given text. *)
Ltac ev :=
  repeat (progress
    (unfold strip, rstrip, is_digit;
     cbn [lstrip reverse rev_append collapse_ws span_of take drop app truthy
          fst snd search_from omap list_omap length fold_left default from_option];
     tables)).

Lemma split_rice : split_items U (u "밥 1공기") = [u "밥 1공기"].
Proof.
  unfold split_items.
  change (replace (u "그리고") (u ",") (u "밥 1공기")) with (u "밥 1공기").
  change (split_on _ (u "밥 1공기")) with [u "밥 1공기"].
  change (u "밥 1공기") with [48165; 32; 49; 44277; 44592].
  ev. reflexivity.
Qed.

Lemma search_rice :
  NUM_UNIT_RE_search U (u "밥 1공기") =
    Some {| m_start := 2; m_end := 5; group1 := [49]; group2 := Some (u "공기") |}.
Proof.
  change (u "밥 1공기") with [48165; 32; 49; 44277; 44592].
  unfold NUM_UNIT_RE_search. ev. unfold match_at. ev. reflexivity.
Qed.

Lemma float_one : float_of_group1 U [49] = 1%float.
Proof. unfold float_of_group1, digits_value. ev. reflexivity. Qed.

Lemma extract_rice : extract_amount U (u "밥 1공기") = Some (1%float, Some (u "공기")).
Proof. unfold extract_amount. rewrite search_rice. cbn [group1 group2]. rewrite float_one. reflexivity. Qed.

Lemma name_rice : name_part_of U (u "밥 1공기") = u "밥".
Proof.
  unfold name_part_of. rewrite search_rice. cbn [m_start m_end].
  change (u "밥 1공기") with [48165; 32; 49; 44277; 44592].
  ev. reflexivity.
Qed.

End Rice.



Lemma omap_length_le {A B : Type} (f : A -> option B) (l : list A) :
  (length (omap f l) <= length l)%nat.
Proof.
  induction l as [|a l IH]; [reflexivity|].
  change (omap f (a :: l))
    with (match f a with Some y => y :: omap f l | None => omap f l end).
  destruct (f a); cbn [length]; lia.
Qed.

(** C5: a segment for which neither the resolved name (the alias
    target, when the name candidate has an alias) nor the name
    candidate itself has a catalog entry, exact or by containment, is
    appended whole to the unresolved list, and the step of the loop
    leaves the items as they were. *)
Theorem unresolved_segment (U : Unicode) (db : Database)
    (text : pystr) (pre post : list pystr) (segment : pystr)
    (Hsplit : split_items U text = pre ++ segment :: post)
    (Hres : get_food db (resolve_canonical U db (name_part_of U segment)) = None)
    (Hraw : get_food db (name_part_of U segment) = None) :
  let before := fold_left (parse_segment U db) pre ([], []) in
  parse_segment U db before segment = (before.1, before.2 ++ [segment])
  /\ parse_text U db text =
       fold_left (parse_segment U db) post (before.1, before.2 ++ [segment])
  /\ segment ∈ (parse_text U db text).2
  /\ (length (parse_text U db text).1 < length (split_items U text))%nat.
Proof.
  intros before.
  assert (Htruthy : truthy segment = true).
  { apply (split_items_truthy U text). rewrite Hsplit. set_solver. }
  assert (Hstep : parse_segment U db before segment = (before.1, before.2 ++ [segment])).
  { unfold parse_segment. rewrite Htruthy, Hres, Hraw. reflexivity. }
  split; [exact Hstep|]. split; [|split].
  - unfold parse_text. rewrite Hsplit, fold_left_app. cbn [fold_left].
    fold before. rewrite Hstep. reflexivity.
  - rewrite parse_text_spec. cbn [snd]. apply list_elem_of_filter. split.
    + unfold segment_unresolved, segment_food. rewrite Htruthy, Hres, Hraw. reflexivity.
    + rewrite Hsplit. set_solver.
  - rewrite parse_text_spec, Hsplit. cbn [fst].
    rewrite omap_app, !length_app. cbn [omap list_omap length].
    replace (segment_item U db segment) with (@None ParsedItem)
      by (unfold segment_item, segment_food; rewrite Htruthy, Hres, Hraw; reflexivity).
    pose proof (omap_length_le (segment_item U db) pre).
    pose proof (omap_length_le (segment_item U db) post).
    change (list_omap _ _ ?f ?l) with (omap f l). lia.
Qed.

Lemma unresolved_segment_witness :
  split_items basic_unicode (u "계란, 피자 2") = [u "계란"] ++ u "피자 2" :: []
  /\ parse_text basic_unicode Sample.catalog (u "계란, 피자 2") =
       ([{| raw_name := u "계란"; canonical_name := u "계란"; grams := 100%float |}],
        [u "피자 2"]).
Proof.
  assert (Hsplit : split_items basic_unicode (u "계란, 피자 2")
                   = [u "계란"] ++ u "피자 2" :: []) by (vm_compute; reflexivity).
  assert (Hres : get_food Sample.catalog
                   (resolve_canonical basic_unicode Sample.catalog
                      (name_part_of basic_unicode (u "피자 2"))) = None)
    by (vm_compute; reflexivity).
  assert (Hraw : get_food Sample.catalog (name_part_of basic_unicode (u "피자 2")) = None)
    by (vm_compute; reflexivity).
  split; [exact Hsplit|].
  exact (proj1 (proj2 (unresolved_segment basic_unicode Sample.catalog
                         (u "계란, 피자 2") [u "계란"] [] (u "피자 2") Hsplit Hres Hraw))).
Defined.

(** ** The resolver and the catalog lookup *)

Section Strip.
Context (U : Unicode).

Lemma lstrip_lstripped (s : pystr) : lstripped U (lstrip U s).
Proof.
  induction s as [|c s IH]; [exact I|].
  cbn [lstrip]. destruct (isspace U c) eqn:E; [exact IH|exact E].
Qed.

Lemma lstrip_id (s : pystr) : lstripped U s -> lstrip U s = s.
Proof. destruct s as [|c s]; [reflexivity|]. cbn. intros ->. reflexivity. Qed.

Lemma lstrip_suffix (s : pystr) :
  exists k, s = k ++ lstrip U s /\ Forall (fun c => isspace U c = true) k.
Proof.
  induction s as [|c s (k & Hk & Hall)].
  - exists []. split; [reflexivity|constructor].
  - cbn [lstrip]. destruct (isspace U c) eqn:E.
    + exists (c :: k). split; [cbn; congruence|constructor; assumption].
    + exists []. split; [reflexivity|constructor].
Qed.

Lemma rstrip_lstripped (s : pystr) : lstripped U s -> lstripped U (rstrip U s).
Proof.
  intros Hs. unfold rstrip.
  destruct (lstrip_suffix (reverse s)) as (k & Hk & Hall).
  apply (f_equal reverse) in Hk. rewrite reverse_involutive, reverse_app in Hk.
  destruct (reverse (lstrip U (reverse s))) as [|c t]; [exact I|].
  rewrite Hk in Hs. exact Hs.
Qed.

Lemma rstrip_idem (s : pystr) : rstrip U (rstrip U s) = rstrip U s.
Proof.
  unfold rstrip. rewrite reverse_involutive.
  rewrite (lstrip_id (lstrip U (reverse s))) by apply lstrip_lstripped. reflexivity.
Qed.

(** [strip] is idempotent: a trimmed string is returned as it is. *)
Lemma strip_idem (s : pystr) : strip U (strip U s) = strip U s.
Proof.
  unfold strip.
  rewrite (lstrip_id (rstrip U (lstrip U s)))
    by (apply rstrip_lstripped, lstrip_lstripped).
  apply rstrip_idem.
Qed.

Lemma name_part_stripped (segment : pystr) :
  strip U (name_part_of U segment) = name_part_of U segment.
Proof.
  unfold name_part_of.
  destruct (truthy _); apply strip_idem.
Qed.

End Strip.

Lemma shortest_none (rows : list FoodRow) : shortest rows = None <-> rows = [].
Proof.
  split; [|intros ->; reflexivity].
  destruct rows as [|a rows]; [reflexivity|].
  cbn [shortest]. destruct (shortest rows); [destruct (_ <? _)%nat|]; discriminate.
Qed.

Lemma shortest_spec (rows : list FoodRow) (r : FoodRow) :
  shortest rows = Some r ->
  r ∈ rows /\ forall r', r' ∈ rows -> (length (name r) <= length (name r'))%nat.
Proof.
  revert r. induction rows as [|a rows IH]; intros r; [discriminate|].
  cbn [shortest]. destruct (shortest rows) as [b|] eqn:E.
  - destruct (IH b eq_refl) as [Hb Hmin].
    destruct (Nat.ltb_spec (length (name b)) (length (name a))) as [Hlt|Hge];
      intros Heq; injection Heq as Heq; subst r.
    + split; [apply elem_of_cons; right; exact Hb|].
      intros r' Hr'. apply elem_of_cons in Hr' as [Hr'|Hr']; [subst r'; lia|auto].
    + split; [apply elem_of_cons; left; reflexivity|].
      intros r' Hr'. apply elem_of_cons in Hr' as [Hr'|Hr']; [subst r'; lia|].
      specialize (Hmin r' Hr'). lia.
  - intros Heq. injection Heq as Heq. subst r. apply shortest_none in E. subst rows.
    split; [apply elem_of_cons; left; reflexivity|].
    intros r' Hr'. apply elem_of_cons in Hr' as [Hr'|Hr']; [subst r'; lia|inversion Hr'].
Qed.

(** *** [LIKE] and substrings *)

Lemma sql_like_percent (pat s : pystr) :
  sql_like (37 :: pat) s =
    sql_like pat s || match s with [] => false | _ :: s' => sql_like (37 :: pat) s' end.
Proof. destruct s; reflexivity. Qed.

Lemma sql_like_char (p : N) (pat : pystr) (c : N) (s : pystr) :
  p <> 37 ->
  sql_like (p :: pat) (c :: s) =
    ((p =? 95) || (ascii_lower p =? ascii_lower c)) && sql_like pat s.
Proof.
  intros Hp. cbn [sql_like]. destruct (N.eqb_spec p 37); [contradiction|reflexivity].
Qed.

Lemma plain_match (p c : N) :
  plain p -> ((p =? 95) || (ascii_lower p =? ascii_lower c)) = (p =? c).
Proof.
  intros (H1 & H2 & H3 & H4). unfold ascii_lower.
  destruct (N.eqb_spec p 95); [contradiction|]. cbn [orb].
  repeat match goal with
  | |- context [?a <=? ?b] => destruct (N.leb_spec a b)
  end; cbn [andb];
  repeat match goal with
  | |- context [?a =? ?b] => destruct (N.eqb_spec a b)
  end; try reflexivity; lia.
Qed.

Lemma sql_like_any (s : pystr) : sql_like [37] s = true.
Proof.
  induction s as [|c s IH]; [reflexivity|].
  rewrite sql_like_percent, IH. apply orb_true_r.
Qed.

Lemma sql_like_prefix (n s : pystr) :
  Forall plain n -> sql_like (n ++ [37]) s = startswith n s.
Proof.
  intros Hn. revert s. induction Hn as [|p n Hp Hn IH]; intros s.
  - cbn [app]. rewrite sql_like_any. destruct s; reflexivity.
  - destruct s as [|c s].
    + cbn. destruct (N.eqb_spec p 37); [destruct Hp; contradiction|reflexivity].
    + cbn [app]. rewrite sql_like_char by apply Hp.
      rewrite plain_match by assumption. cbn [startswith]. rewrite IH. reflexivity.
Qed.

(** On a name made of plain characters (a Hangul name, say) the
    pattern ['%' || n || '%'] matches exactly the strings that contain
    [n]. *)
Lemma sql_like_contains (n s : pystr) :
  Forall plain n -> sql_like ([37] ++ n ++ [37]) s = Spec.contains n s.
Proof.
  intros Hn. induction s as [|c s IH].
  - cbn [app]. rewrite sql_like_percent, sql_like_prefix by assumption.
    cbn [Spec.contains]. reflexivity.
  - cbn [app] in *. rewrite sql_like_percent, sql_like_prefix, IH by assumption.
    reflexivity.
Qed.

Lemma select_food_like_contains (db : Database) (n : pystr) :
  Forall plain n -> select_food_like db n = Spec.lookup_contains db n.
Proof.
  intros Hn. unfold select_food_like, Spec.lookup_contains. f_equal.
  induction (food_items db) as [|r rows IH]; [reflexivity|].
  rewrite !filter_cons, IH, sql_like_contains by assumption. reflexivity.
Qed.

(** The chain as the specification words it does not describe
    [resolve_canonical]: with rice as the only catalog row and no
    alias, the chain resolves 밥 to 백미밥 by containment, while
    [resolve_canonical] returns 밥 as it came. *)
Lemma resolver_has_no_substring_stage :
  Spec.resolver_chain Sample.rice_only (u "밥") = u "백미밥"
  /\ resolve_canonical basic_unicode Sample.rice_only (u "밥") = u "밥"
  /\ bool_decide (u "밥" = u "백미밥") = false.
Proof. vm_compute. repeat split. Qed.

(** C4, as the code has it: [resolve_canonical] trims the name and
    applies two stages, the alias lookup and then the exact catalog
    match, and returns the trimmed name when neither matches (the exact
    match returns that very name, and a name candidate of [parse_text]
    is already trimmed, so it comes back unchanged).  The substring
    stage belongs to the catalog lookup [get_food]: the exact match
    wins, otherwise the row of least name length among those the
    [LIKE] pattern matches, which for a name of plain characters are
    the rows whose name contains it. *)
Theorem resolver_chain_code (U : Unicode) (db : Database) (n : pystr) :
  resolve_canonical U db n = default (strip U n) (select_synonym db (strip U n))
  /\ (forall segment,
        select_synonym db (name_part_of U segment) = None ->
        resolve_canonical U db (name_part_of U segment) = name_part_of U segment)
  /\ (forall r, select_food db n = Some r -> get_food db n = Some r)
  /\ (select_food db n = None -> get_food db n = select_food_like db n)
  /\ (forall r, select_food_like db n = Some r ->
        r ∈ food_items db
        /\ sql_like ([37] ++ n ++ [37]) (name r) = true
        /\ forall r', r' ∈ food_items db ->
             sql_like ([37] ++ n ++ [37]) (name r') = true ->
             (length (name r) <= length (name r'))%nat)
  /\ (select_food_like db n = None ->
        forall r', r' ∈ food_items db -> sql_like ([37] ++ n ++ [37]) (name r') = false)
  /\ (Forall plain n -> select_food_like db n = Spec.lookup_contains db n).
Proof.
  assert (Hres : forall m,
            resolve_canonical U db m = default (strip U m) (select_synonym db (strip U m))).
  { intros m. unfold resolve_canonical.
    destruct (select_synonym db (strip U m)) as [c|]; [reflexivity|].
    destruct (select_food db (strip U m)) as [r|] eqn:E; [|reflexivity].
    apply select_food_name in E as [E _]. exact E. }
  split; [apply Hres|]. split; [|split; [|split; [|split; [|split]]]].
  - intros segment Halias. rewrite Hres, name_part_stripped, Halias. reflexivity.
  - apply get_food_exact.
  - intros E. unfold get_food. rewrite E. reflexivity.
  - intros r Hr. unfold select_food_like in Hr.
    apply shortest_spec in Hr as [Hin Hmin].
    apply list_elem_of_filter in Hin as [Hlike Hin].
    split; [exact Hin|]. split; [apply Is_true_true_1, Hlike|].
    intros r' Hin' Hlike'. apply Hmin, list_elem_of_filter.
    split; [apply Is_true_true_2, Hlike'|exact Hin'].
  - intros Hnone r' Hin'. unfold select_food_like in Hnone.
    apply shortest_none in Hnone.
    destruct (sql_like ([37] ++ n ++ [37]) (name r')) eqn:E; [|reflexivity].
    assert (Hmem : r' ∈ filter (fun r => sql_like ([37] ++ n ++ [37]) (name r)) (food_items db)).
    { apply list_elem_of_filter. split; [apply Is_true_true_2, E|exact Hin']. }
    rewrite Hnone in Hmem. inversion Hmem.
  - apply select_food_like_contains.
Qed.

(** The alias 달걀 resolves to 계란; 밥 has no alias and no row of its
    own and is found as the shortest name that contains it. *)
Lemma resolver_chain_code_witness :
  resolve_canonical basic_unicode Sample.catalog (u " 달걀 ") = u "계란"
  /\ select_synonym Sample.catalog (name_part_of basic_unicode (u "밥 1공기")) = None
  /\ resolve_canonical basic_unicode Sample.catalog (name_part_of basic_unicode (u "밥 1공기"))
     = name_part_of basic_unicode (u "밥 1공기")
  /\ select_food Sample.catalog (u "밥") = None
  /\ get_food Sample.catalog (u "밥") = select_food_like Sample.catalog (u "밥")
  /\ Forall plain (u "밥")
  /\ select_food_like Sample.catalog (u "밥") = Spec.lookup_contains Sample.catalog (u "밥").
Proof.
  assert (Halias : select_synonym Sample.catalog
                     (name_part_of basic_unicode (u "밥 1공기")) = None)
    by (vm_compute; reflexivity).
  assert (Hexact : select_food Sample.catalog (u "밥") = None) by (vm_compute; reflexivity).
  assert (Hplain : Forall plain (u "밥")).
  { change (u "밥") with [48165]. repeat constructor; lia. }
  pose proof (resolver_chain_code basic_unicode Sample.catalog (u " 달걀 ")) as [H1 _].
  pose proof (resolver_chain_code basic_unicode Sample.catalog (u "밥"))
    as (_ & H2 & _ & H4 & _ & _ & H7).
  split; [exact H1|]. split; [exact Halias|]. split; [exact (H2 _ Halias)|].
  split; [exact Hexact|]. split; [exact (H4 Hexact)|]. split; [exact Hplain|].
  exact (H7 Hplain).
Defined.

(** ** Floats *)

Section FloatFacts.
Local Open Scope Z_scope.

Lemma nonneg_spec (x : float) : nonneg x <-> sf_nonneg (Prim2SF x).
Proof.
  unfold nonneg. rewrite FloatAxioms.leb_spec.
  change (Prim2SF 0) with (S754_zero false).
  destruct (Prim2SF x) as [s|s| |s m e]; try destruct s; cbn; intuition congruence.
Qed.

Lemma pos_spec (x : float) :
  pos x <-> match Prim2SF x with
            | S754_finite false _ _ | S754_infinity false => True
            | _ => False
            end.
Proof.
  unfold pos. rewrite FloatAxioms.ltb_spec.
  change (Prim2SF 0) with (S754_zero false).
  destruct (Prim2SF x) as [s|s| |s m e]; try destruct s; cbn; intuition congruence.
Qed.

Lemma pos_not_le0 (x : float) : pos x -> (x <=? 0)%float = false.
Proof.
  intros H%pos_spec. rewrite FloatAxioms.leb_spec. change (Prim2SF 0) with (S754_zero false).
  destruct (Prim2SF x) as [s|s| |s m e]; try destruct s; cbn in *; tauto.
Qed.

Lemma pos_not_lt0 (x : float) : pos x -> (x <? 0)%float = false.
Proof.
  intros H%pos_spec. rewrite FloatAxioms.ltb_spec. change (Prim2SF 0) with (S754_zero false).
  destruct (Prim2SF x) as [s|s| |s m e]; try destruct s; cbn in *; tauto.
Qed.

Lemma sub_zero (x : float) : (x - 0)%float = x.
Proof.
  apply Prim2SF_inj. rewrite sub_spec. change (Prim2SF 0) with (S754_zero false).
  destruct (Prim2SF x) as [s|s| |s m e]; try destruct s; reflexivity.
Qed.

(** A divisor [max(k, c)] with [c] positive is never zero. *)
Lemma py_max_nonzero (k c : float) : pos c -> (py_max k c =? 0)%float = false.
Proof.
  intros Hc. unfold py_max. destruct (k <? c)%float eqn:E.
  - apply pos_spec in Hc. rewrite FloatAxioms.eqb_spec. change (Prim2SF 0) with (S754_zero false).
    destruct (Prim2SF c) as [s|s| |s m e]; try destruct s; cbn in *; tauto.
  - apply pos_spec in Hc. rewrite FloatAxioms.eqb_spec. rewrite FloatAxioms.ltb_spec in E.
    change (Prim2SF 0) with (S754_zero false).
    destruct (Prim2SF k) as [s|s| |s m e]; try destruct s; try reflexivity;
    destruct (Prim2SF c) as [s'|s'| |s' m' e']; try destruct s'; cbn in *; try tauto; try discriminate.
Qed.

Lemma py_div_max (a k c : float) : pos c -> py_div a (py_max k c) = Ok (a / py_max k c)%float.
Proof. intros Hc. unfold py_div. rewrite py_max_nonzero by assumption. reflexivity. Qed.

Lemma shr_1_nonneg (mrs : shr_record) : 0 <= shr_m mrs -> 0 <= shr_m (shr_1 mrs).
Proof.
  destruct mrs as [m r s]. cbn [shr_m]. intros Hm. unfold shr_1.
  destruct m as [|[p|p|]|p]; cbn [shr_m]; lia.
Qed.

Lemma iter_shr_1_nonneg (n : positive) (mrs : shr_record) :
  0 <= shr_m mrs -> 0 <= shr_m (SpecFloat.iter_pos shr_1 n mrs).
Proof.
  revert mrs. induction n as [n IH|n IH|]; intros mrs Hm; cbn [SpecFloat.iter_pos].
  - apply IH, IH, shr_1_nonneg, Hm.
  - apply IH, IH, Hm.
  - apply shr_1_nonneg, Hm.
Qed.

Lemma shr_record_of_loc_m (m : Z) (l : location) : shr_m (shr_record_of_loc m l) = m.
Proof. destruct l as [|[]]; reflexivity. Qed.

Lemma shr_fexp_nonneg (m e : Z) (l : location) :
  0 <= m -> 0 <= shr_m (fst (shr_fexp prec emax m e l)).
Proof.
  intros Hm. unfold shr_fexp, shr.
  destruct (fexp prec emax (Zdigits2 m + e) - e) as [|n|n]; cbn [fst];
    try apply iter_shr_1_nonneg; rewrite shr_record_of_loc_m; exact Hm.
Qed.

Lemma round_nearest_even_nonneg (m : Z) (l : location) :
  0 <= m -> 0 <= round_nearest_even m l.
Proof.
  intros Hm. destruct l as [|[]]; cbn [round_nearest_even]; try lia.
  destruct (Z.even m); lia.
Qed.

(** The sign given to [binary_round_aux] is the sign of its result, and
    on a mantissa that is not negative the result is a number. *)
Lemma binary_round_aux_sign (sx : bool) (mx ex : Z) (lx : location) :
  0 <= mx ->
  match binary_round_aux prec emax sx mx ex lx with
  | S754_zero s | S754_infinity s | S754_finite s _ _ => s = sx
  | S754_nan => False
  end.
Proof.
  intros Hm. unfold binary_round_aux.
  pose proof (shr_fexp_nonneg mx ex lx Hm) as H1.
  destruct (shr_fexp prec emax mx ex lx) as [mrs' e']. cbn [fst] in H1.
  pose proof (shr_fexp_nonneg _ e' loc_Exact
                (round_nearest_even_nonneg _ (loc_of_shr_record mrs') H1)) as H2.
  destruct (shr_fexp prec emax _ e' loc_Exact) as [mrs'' e'']. cbn [fst] in H2.
  destruct (shr_m mrs'') as [|m|m]; [reflexivity| |lia].
  destruct (e'' <=? emax - prec); reflexivity.
Qed.

Lemma binary_round_aux_nonneg (mx ex : Z) (lx : location) :
  0 <= mx -> sf_nonneg (binary_round_aux prec emax false mx ex lx).
Proof.
  intros Hm. pose proof (binary_round_aux_sign false mx ex lx Hm) as H.
  destruct (binary_round_aux prec emax false mx ex lx); try subst; cbn; tauto.
Qed.

Lemma binary_normalize_nonneg (m e : Z) :
  0 < m -> sf_nonneg (binary_normalize prec emax m e false).
Proof.
  destruct m as [|p|p]; try lia. intros _.
  unfold binary_normalize, binary_round.
  destruct (shl_align p e _) as [mz ez].
  apply binary_round_aux_nonneg. lia.
Qed.

Lemma SFadd_nonneg (x y : spec_float) :
  sf_nonneg x -> sf_nonneg y -> sf_nonneg (SFadd prec emax x y).
Proof.
  destruct x as [sx|sx| |sx mx ex]; try destruct sx; cbn [sf_nonneg]; try tauto;
  destruct y as [sy|sy| |sy my ey]; try destruct sy; cbn [sf_nonneg]; try tauto;
  intros _ _; try exact I.
  unfold SFadd, cond_Zopp. apply binary_normalize_nonneg. lia.
Qed.

Lemma SFmul_nonneg (x y : spec_float) :
  sf_nonneg x -> sf_posfin y -> sf_nonneg (SFmul prec emax x y).
Proof.
  destruct x as [sx|sx| |sx mx ex]; try destruct sx; cbn [sf_nonneg]; try tauto;
  destruct y as [sy|sy| |sy my ey]; try destruct sy; cbn [sf_posfin]; try tauto;
  intros _ _; try exact I.
  unfold SFmul. cbn [xorb]. apply binary_round_aux_nonneg. lia.
Qed.

Lemma add_nonneg (x y : float) : nonneg x -> nonneg y -> nonneg (x + y).
Proof.
  rewrite !nonneg_spec, add_spec. apply SFadd_nonneg.
Qed.

Lemma mul_nonneg (x y : float) : nonneg x -> posfin y -> nonneg (x * y).
Proof.
  unfold posfin. rewrite !nonneg_spec, mul_spec. apply SFmul_nonneg.
Qed.

(** *** Division of a portion's grams by 100 *)

Lemma digits2_pos_size (p : positive) : digits2_pos p = Pos.size p.
Proof. induction p as [p IH|p IH|]; cbn; congruence. Qed.

Lemma Zdigits2_log2 (z : Z) : 0 < z -> Zdigits2 z = Z.log2 z + 1.
Proof.
  destruct z as [|p|p]; try lia. intros _. cbn [Zdigits2].
  rewrite digits2_pos_size. destruct p; cbn; lia.
Qed.

Lemma Zdigits2_unique (z d : Z) : 0 < d -> 2 ^ (d - 1) <= z < 2 ^ d -> Zdigits2 z = d.
Proof.
  intros Hd Hz. assert (0 < z) by (pose proof (Z.pow_pos_nonneg 2 (d - 1)); lia).
  rewrite Zdigits2_log2 by assumption.
  rewrite (Z.log2_unique z (d - 1)); [lia|lia|].
  replace (Z.succ (d - 1)) with d by lia. exact Hz.
Qed.

Lemma Zdigits2_bounds (z : Z) : 0 < z -> 2 ^ (Zdigits2 z - 1) <= z < 2 ^ Zdigits2 z.
Proof.
  intros Hz. rewrite Zdigits2_log2 by assumption.
  replace (Z.log2 z + 1 - 1) with (Z.log2 z) by lia.
  pose proof (Z.log2_spec z Hz). replace (Z.log2 z + 1) with (Z.succ (Z.log2 z)) by lia.
  assumption.
Qed.

Lemma shr_1_div2 (mrs : shr_record) :
  0 <= shr_m mrs -> shr_m (shr_1 mrs) = shr_m mrs / 2.
Proof.
  destruct mrs as [m r s]. cbn [shr_m]. intros Hm. rewrite <- Z.div2_div.
  unfold shr_1. destruct m as [|[p|p|]|p]; cbn [shr_m]; try reflexivity; lia.
Qed.

Lemma round_nearest_even_bounds (m : Z) (l : location) :
  m <= round_nearest_even m l <= m + 1.
Proof.
  destruct l as [|[]]; cbn [round_nearest_even]; try lia.
  destruct (Z.even m); lia.
Qed.

Lemma fexp_normal (z : Z) : -1021 <= z -> fexp prec emax z = z - 53.
Proof. intros Hz. unfold fexp, SpecFloat.emin, prec, emax. lia. Qed.

Lemma pow2_xO (n : positive) : 2 ^ Z.pos n~0 = 2 ^ Z.pos n * 2 ^ Z.pos n.
Proof. rewrite <- Z.pow_add_r by lia. f_equal. lia. Qed.

Lemma pow2_xI (n : positive) : 2 ^ Z.pos n~1 = 2 * (2 ^ Z.pos n * 2 ^ Z.pos n).
Proof.
  rewrite <- Z.pow_add_r by lia. rewrite <- Z.pow_succ_r by lia. f_equal. lia.
Qed.

Lemma iter_shr_1_div (n : positive) (mrs : shr_record) :
  0 <= shr_m mrs -> shr_m (SpecFloat.iter_pos shr_1 n mrs) = shr_m mrs / 2 ^ Z.pos n.
Proof.
  revert mrs. induction n as [n IH|n IH|]; intros mrs Hm; cbn [SpecFloat.iter_pos].
  - rewrite IH by (apply iter_shr_1_nonneg, shr_1_nonneg, Hm).
    rewrite IH by (apply shr_1_nonneg, Hm).
    rewrite shr_1_div2 by exact Hm.
    assert (0 < 2 ^ Z.pos n) by (apply Z.pow_pos_nonneg; lia).
    rewrite !Z.div_div by lia. rewrite pow2_xI. reflexivity.
  - rewrite IH by (apply iter_shr_1_nonneg, Hm).
    rewrite IH by exact Hm.
    assert (0 < 2 ^ Z.pos n) by (apply Z.pow_pos_nonneg; lia).
    rewrite !Z.div_div by lia. rewrite pow2_xO. reflexivity.
  - rewrite shr_1_div2 by exact Hm. reflexivity.
Qed.

Lemma Zdigits2_big (q : Z) : 2 ^ 52 <= q -> 53 <= Zdigits2 q.
Proof.
  intros Hq. pose proof (Zdigits2_bounds q ltac:(lia)) as [_ Hd].
  destruct (Z_lt_le_dec (Zdigits2 q) 53) as [Hlt|]; [|assumption].
  assert (2 ^ Zdigits2 q <= 2 ^ 52) by (apply Z.pow_le_mono_r; lia). lia.
Qed.

(** One call of [shr_fexp] on a mantissa of at least 53 bits keeps its
    53 leading bits. *)
Lemma shr_fexp_normal (q e : Z) (l : location) :
  2 ^ 52 <= q -> -1000 <= e ->
  2 ^ 52 <= shr_m (fst (shr_fexp prec emax q e l)) < 2 ^ 53
  /\ snd (shr_fexp prec emax q e l) = e + (Zdigits2 q - 53).
Proof.
  intros Hq He. pose proof (Zdigits2_big q Hq) as Hd.
  pose proof (Zdigits2_bounds q ltac:(lia)) as Hb.
  unfold shr_fexp. rewrite fexp_normal by lia.
  replace (Zdigits2 q + e - 53 - e) with (Zdigits2 q - 53) by lia.
  destruct (Zdigits2 q - 53) as [|n|n] eqn:En; try lia.
  - cbn [shr fst snd]. rewrite shr_record_of_loc_m.
    replace (Zdigits2 q) with 53 in Hb by lia. change (2 ^ (53 - 1)) with (2 ^ 52) in Hb. lia.
  - cbn [shr fst snd].
    rewrite iter_shr_1_div by (rewrite shr_record_of_loc_m; lia).
    rewrite shr_record_of_loc_m. split; [|lia].
    replace (Zdigits2 q - 1) with (52 + Z.pos n) in Hb by lia.
    replace (Zdigits2 q) with (53 + Z.pos n) in Hb by lia.
    rewrite !Z.pow_add_r in Hb by lia.
    assert (0 < 2 ^ Z.pos n) by (apply Z.pow_pos_nonneg; lia).
    split.
    + apply Z.div_le_lower_bound; lia.
    + apply Z.div_lt_upper_bound; lia.
Qed.

(** Rounding a positive mantissa of at least 53 bits: the result is a
    normal positive number, or the positive infinity when the exponent
    leaves the format. *)
Lemma binary_round_aux_normal (q e : Z) (l : location) :
  2 ^ 52 <= q -> -1000 <= e ->
  match binary_round_aux prec emax false q e l with
  | S754_finite false m e' =>
    Zdigits2 (Z.pos m) = 53 /\ e <= e' <= e + (Zdigits2 q - 53) + 1 /\ e' <= 971
  | S754_infinity false => 971 < e + (Zdigits2 q - 53) + 1
  | _ => False
  end.
Proof.
  intros Hq He. unfold binary_round_aux.
  pose proof (Zdigits2_big q Hq) as Hd.
  pose proof (shr_fexp_normal q e l Hq He) as [H1 H1e].
  destruct (shr_fexp prec emax q e l) as [mrs' e']. cbn [fst snd] in H1, H1e.
  pose proof (round_nearest_even_bounds (shr_m mrs') (loc_of_shr_record mrs')) as Hr.
  set (q' := round_nearest_even (shr_m mrs') (loc_of_shr_record mrs')) in *.
  pose proof (shr_fexp_normal q' e' loc_Exact ltac:(lia) ltac:(lia)) as [H2 H2e].
  assert (Hd' : 53 <= Zdigits2 q' <= 54).
  { split; [apply Zdigits2_big; lia|].
    destruct (Z_lt_le_dec q' (2 ^ 53)).
    - rewrite (Zdigits2_unique q' 53); lia.
    - rewrite (Zdigits2_unique q' 54); lia. }
  destruct (shr_fexp prec emax q' e' loc_Exact) as [mrs'' e'']. cbn [fst snd] in H2, H2e.
  destruct (shr_m mrs'') as [|m|m]; try lia.
  destruct (Z.leb_spec e'' (emax - prec)) as [Hle|Hgt]; unfold emax, prec in *.
  - split; [apply Zdigits2_unique; lia|]. lia.
  - lia.
Qed.

Lemma binary_round_aux_posfin (q e : Z) (l : location) :
  2 ^ 52 <= q < 2 ^ 54 -> -1000 <= e <= 900 ->
  sf_posfin (binary_round_aux prec emax false q e l).
Proof.
  intros Hq He.
  pose proof (binary_round_aux_normal q e l ltac:(lia) ltac:(lia)) as H.
  assert (Zdigits2 q <= 54).
  { destruct (Z_lt_le_dec q (2 ^ 53)).
    - rewrite (Zdigits2_unique q 53); lia.
    - rewrite (Zdigits2_unique q 54); lia. }
  destruct (binary_round_aux prec emax false q e l) as [| [] | | [] m e']; cbn; try tauto; lia.
Qed.

Lemma valid_normal (m : positive) (e : Z) :
  valid_binary (S754_finite false m e) = true -> -1000 <= e ->
  Zdigits2 (Z.pos m) = 53.
Proof.
  cbn [SpecFloat.valid_binary]. unfold bounded, canonical_mantissa.
  intros H He. apply andb_prop in H as [H _]. apply Z.eqb_eq in H.
  cbn [Zdigits2]. unfold fexp, SpecFloat.emin, prec, emax in H. lia.
Qed.

Lemma SFdiv_100_posfin (m : positive) (e : Z) :
  Zdigits2 (Z.pos m) = 53 -> -48 <= e <= -45 ->
  sf_posfin (SFdiv prec emax (S754_finite false m e) (Prim2SF 100)).
Proof.
  intros Hd He.
  change (Prim2SF 100) with (S754_finite false 7036874417766400 (-46)).
  unfold SFdiv, SFdiv_core_binary. rewrite Hd.
  change (Zdigits2 7036874417766400) with 53.
  pose proof (Zdigits2_bounds (Z.pos m) ltac:(lia)) as Hm. rewrite Hd in Hm.
  change (2 ^ (53 - 1)) with (2 ^ 52) in Hm.
  rewrite fexp_normal by lia.
  replace (Z.min (53 + e - (53 + -46) - 53) (e - -46)) with (e - 7) by lia.
  replace (e - -46 - (e - 7)) with 53 by lia.
  rewrite Z.shiftl_mul_pow2 by lia.
  pose proof (Z_div_mod (Z.pos m * 2 ^ 53) 7036874417766400 ltac:(lia)) as Hqr.
  destruct (Z.div_eucl (Z.pos m * 2 ^ 53) 7036874417766400) as [q r].
  destruct Hqr as [Hqr Hr].
  cbn [xorb]. apply binary_round_aux_posfin; [|lia].
  change (2 ^ 54) with 18014398509481984. change (2 ^ 53) with 9007199254740992 in *.
  change (2 ^ 52) with 4503599627370496 in *. lia.
Qed.

Lemma div_100_posfin (g : float) : portion g -> posfin (g / 100).
Proof.
  unfold portion, posfin. intros Hg. rewrite div_spec.
  pose proof (Prim2SF_valid g) as Hv.
  destruct (Prim2SF g) as [s|s| |[] m e]; cbn [sf_portion] in Hg; try tauto.
  apply SFdiv_100_posfin; [|exact Hg].
  apply (valid_normal m e Hv). lia.
Qed.

(** A number strictly between two positive finite bounds has an
    exponent between theirs. *)
Lemma between_exponents (lo hi x : spec_float) :
  sf_portion lo -> sf_portion hi ->
  SFltb lo x = true -> SFltb x hi = true -> sf_portion x.
Proof.
  destruct lo as [| | |[] ml el]; cbn [sf_portion]; try tauto.
  destruct hi as [| | |[] mh eh]; cbn [sf_portion]; try tauto.
  intros Hlo Hhi. unfold SFltb, SFcompare.
  destruct x as [s|[]| |[] m e]; try discriminate. cbn [sf_portion].
  destruct (Z.compare_spec el e), (Z.compare_spec e eh); intros; try discriminate; lia.
Qed.

(** [min(hi, max(lo, x))] for bounds between 30 and 250 is a portion,
    whatever [x] is. *)
Lemma clamp_portion (lo hi x : float) :
  portion lo -> portion hi -> portion (py_min hi (py_max lo x)).
Proof.
  unfold portion, py_min, py_max. intros Hlo Hhi.
  destruct (lo <? x)%float eqn:E1.
  - destruct (x <? hi)%float eqn:E2; [|exact Hhi].
    rewrite FloatAxioms.ltb_spec in E1, E2.
    exact (between_exponents _ _ _ Hlo Hhi E1 E2).
  - destruct (lo <? hi)%float; assumption.
Qed.

(** *** Conversion of the meal count *)

Lemma iter_xO (p d : positive) : Z.pos (Pos.iter xO p d) = Z.pos p * 2 ^ Z.pos d.
Proof.
  induction d as [|d IH] using Pos.peano_ind.
  - cbn. lia.
  - rewrite Pos.iter_succ, Pos2Z.inj_xO, IH, Pos2Z.inj_succ, Z.pow_succ_r by lia. lia.
Qed.

Lemma posfin_valid_SF2Prim (m : positive) (e : Z) :
  Zdigits2 (Z.pos m) = 53 -> -1000 <= e <= 971 ->
  Prim2SF (SF2Prim (S754_finite false m e)) = S754_finite false m e.
Proof.
  intros Hd He. apply Prim2SF_SF2Prim.
  cbn [SpecFloat.valid_binary]. unfold bounded, canonical_mantissa.
  cbn [Zdigits2] in Hd. rewrite Hd, fexp_normal by lia.
  apply andb_true_intro. split; [apply Z.eqb_eq; lia|apply Z.leb_le; unfold emax, prec; lia].
Qed.

(** A meal count from 1 up converts to a positive finite float. *)
Lemma float_of_int_posfin (n : Z) :
  1 <= n < 2 ^ 1023 -> exists f, float_of_int n = Ok f /\ posfin f.
Proof.
  intros Hn. destruct n as [|p|p]; try lia.
  unfold float_of_int, binary_normalize, binary_round, shl_align.
  change (Z.pos (digits2_pos p)) with (Zdigits2 (Z.pos p)).
  pose proof (Zdigits2_bounds (Z.pos p) ltac:(lia)) as Hb.
  assert (Hd0 : 1 <= Zdigits2 (Z.pos p)) by (cbn; lia).
  assert (Hd1 : Zdigits2 (Z.pos p) <= 1023).
  { destruct (Z_lt_le_dec 1023 (Zdigits2 (Z.pos p))) as [Hgt|]; [|assumption].
    assert (2 ^ 1023 <= 2 ^ (Zdigits2 (Z.pos p) - 1)) by (apply Z.pow_le_mono_r; lia). lia. }
  rewrite fexp_normal by lia.
  assert (Hres : forall q e,
            2 ^ 52 <= q -> -1000 <= e -> e + (Zdigits2 q - 53) + 1 <= 971 ->
            exists f,
              match binary_round_aux prec emax false q e loc_Exact with
              | S754_infinity _ => Raise OverflowError
              | sf => Ok (SF2Prim sf)
              end = Ok f /\ posfin f).
  { intros q e Hq He Hmax.
    pose proof (binary_round_aux_normal q e loc_Exact Hq He) as H.
    destruct (binary_round_aux prec emax false q e loc_Exact) as [|[]| |[] m e']; try tauto; try lia.
    eexists. split; [reflexivity|]. unfold posfin.
    rewrite posfin_valid_SF2Prim by lia. exact I. }
  destruct (Zdigits2 (Z.pos p) + 0 - 53 - 0) as [|d|d] eqn:Ed.
  - apply Hres; try lia.
    replace (Zdigits2 (Z.pos p)) with 53 in Hb by lia. change (2 ^ (53 - 1)) with (2 ^ 52) in Hb. lia.
  - apply Hres; try lia.
    assert (2 ^ 52 <= 2 ^ (Zdigits2 (Z.pos p) - 1)) by (apply Z.pow_le_mono_r; lia). lia.
  - assert (Hq : 2 ^ 52 <= Z.pos (Pos.iter xO p d) < 2 ^ 53).
    { rewrite iter_xO.
      replace 52 with (Zdigits2 (Z.pos p) - 1 + Z.pos d) by lia.
      replace 53 with (Zdigits2 (Z.pos p) + Z.pos d) by lia.
      rewrite !Z.pow_add_r by lia.
      assert (0 < 2 ^ Z.pos d) by (apply Z.pow_pos_nonneg; lia). nia. }
    apply Hres; try lia.
    rewrite (Zdigits2_unique (Z.pos (Pos.iter xO p d)) 53) by lia. lia.
Qed.

Lemma posfin_nonzero (f : float) : posfin f -> (f =? 0)%float = false.
Proof.
  unfold posfin. rewrite FloatAxioms.eqb_spec. change (Prim2SF 0) with (S754_zero false).
  destruct (Prim2SF f) as [s|s| |[] m e]; cbn; tauto.
Qed.

(** Dividing by a meal count from 1 up never raises. *)
Lemma py_div_int_ok (a : float) (n : Z) :
  1 <= n < 2 ^ 1023 ->
  exists f, float_of_int n = Ok f /\ posfin f /\ py_div_int a n = Ok (a / f)%float.
Proof.
  intros Hn. destruct (float_of_int_posfin n Hn) as (f & Hf & Hpos).
  exists f. split; [exact Hf|]. split; [exact Hpos|].
  unfold py_div_int. rewrite Hf. cbn. unfold py_div.
  rewrite posfin_nonzero by exact Hpos. reflexivity.
Qed.

End FloatFacts.

(** ** The meal recommender *)

Module RecommenderFacts.
Import Recommender RecommenderNotions.
Local Open Scope float_scope.

Lemma get_food_in (db : Database) (n : pystr) (f : FoodRow) :
  get_food db n = Some f -> f ∈ food_items db.
Proof.
  unfold get_food. destruct (select_food db n) as [r|] eqn:E.
  - intros [= <-]. apply select_food_name in E. apply E.
  - unfold select_food_like. intros H. apply shortest_spec in H as [H _].
    apply list_elem_of_filter in H. apply H.
Qed.

Section Facts.
Context (db : Database).

Lemma nutrition_for_ok (n : pystr) (g : float) : nutrition_for db n g = Ok (scaled db n g).
Proof.
  unfold nutrition_for, scaled. destruct (get_food db n); [|reflexivity].
  rewrite py_div_100. reflexivity.
Qed.

Lemma pick_some (cands : list pystr) (c : pystr) :
  pick db cands = Some c ->
  exists pre post,
    cands = pre ++ c :: post
    /\ is_Some (get_food db c)
    /\ forall x, x ∈ pre -> get_food db x = None.
Proof.
  induction cands as [|a cands IH]; [discriminate|].
  cbn [pick]. destruct (get_food db a) as [f|] eqn:E.
  - intros [= <-]. exists [], cands. split; [reflexivity|]. split; [eauto|].
    intros x Hx. inversion Hx.
  - intros H. destruct (IH H) as (pre & post & -> & Hc & Hpre).
    exists (a :: pre), post. split; [reflexivity|]. split; [exact Hc|].
    intros x Hx. apply elem_of_cons in Hx as [->|Hx]; auto.
Qed.

Lemma pick_none (cands : list pystr) :
  pick db cands = None <-> forall x, x ∈ cands -> get_food db x = None.
Proof.
  induction cands as [|a cands IH]; cbn [pick].
  - split; [intros _ x Hx; inversion Hx|reflexivity].
  - destruct (get_food db a) as [f|] eqn:E.
    + split; [discriminate|]. intros H. rewrite (H a) in E by (apply elem_of_cons; auto).
      discriminate.
    + rewrite IH. split.
      * intros H x Hx. apply elem_of_cons in Hx as [->|Hx]; auto.
      * intros H x Hx. apply H, elem_of_cons. auto.
Qed.

Lemma pick_first (pre post : list pystr) (c : pystr) :
  (forall x, x ∈ pre -> get_food db x = None) -> is_Some (get_food db c) ->
  pick db (pre ++ c :: post) = Some c.
Proof.
  intros Hpre [f Hc]. induction pre as [|a pre IH]; cbn [app pick].
  - rewrite Hc. reflexivity.
  - rewrite (Hpre a) by (apply elem_of_cons; auto).
    apply IH. intros x Hx. apply Hpre, elem_of_cons. auto.
Qed.

Section Slots.
Context (avoid prefer : gset pystr) (per_meal lower protein_per_meal : float).

Abbreviation protein_slot := (protein_slot db avoid prefer protein_per_meal).
Abbreviation carb_loop := (carb_loop db avoid per_meal lower).
Abbreviation fat_loop := (fat_loop db avoid per_meal lower).
Abbreviation carb_slot := (carb_slot db avoid prefer per_meal lower).
Abbreviation fat_slot := (fat_slot db avoid per_meal lower).
Abbreviation meal_slot := (meal_slot db avoid prefer per_meal lower protein_per_meal).
Abbreviation meals_loop := (meals_loop db avoid prefer per_meal lower protein_per_meal).

Lemma pos_tenth : pos 0.1.
Proof. reflexivity. Qed.

Lemma pos_millionth : pos 1e-6.
Proof. reflexivity. Qed.

Lemma portion_const :
  portion 30 /\ portion 50 /\ portion 80 /\ portion 100 /\ portion 200 /\ portion 250.
Proof. unfold portion. vm_compute. repeat split; discriminate. Qed.

(** What the protein slot does: nothing without a candidate that the
    catalog knows or with an empty name; otherwise one portion of the
    first such candidate. *)
Lemma protein_slot_eq (m : Meal) :
  protein_slot m =
    Ok match pick db (filter (fun f => f ∉ avoid) (elements prefer ++ PROTEIN_FOODS)) with
       | None => m
       | Some picked =>
         if truthy picked then
           match get_food db picked with
           | Some f => add_portion m (scaled db picked (protein_grams protein_per_meal (Db.protein f)))
           | None => m
           end
         else m
       end.
Proof.
  unfold Recommender.protein_slot.
  destruct (pick db _) as [picked|] eqn:E; [|reflexivity].
  destruct (truthy picked); [|reflexivity].
  apply pick_some in E as (_ & _ & _ & [f Hf] & _). rewrite Hf.
  cbn [mbind res_bind]. rewrite py_div_max by exact pos_tenth.
  cbn [mbind res_bind]. rewrite nutrition_for_ok. reflexivity.
Qed.

(** An invariant of the meal that adding a portion of a catalog food
    preserves is kept by each slot, and no slot raises. *)
Section Invariant.
Context (P : Meal -> Prop).
Context (Hadd : forall m n f g,
           P m -> get_food db n = Some f -> portion g -> P (add_portion m (scaled db n g))).

Lemma protein_slot_inv (m : Meal) : P m -> exists m', protein_slot m = Ok m' /\ P m'.
Proof.
  intros Hm. rewrite protein_slot_eq. eexists. split; [reflexivity|].
  destruct (pick db _) as [picked|]; [|exact Hm].
  destruct (truthy picked); [|exact Hm].
  destruct (get_food db picked) as [f|] eqn:E; [|exact Hm].
  apply (Hadd m picked f); [exact Hm|exact E|].
  apply clamp_portion; apply portion_const.
Qed.

Lemma carb_loop_inv (cands : list pystr) (m : Meal) :
  P m -> exists m', carb_loop cands m = Ok m' /\ P m'.
Proof.
  revert m. induction cands as [|carb rest IH]; intros m Hm; cbn [Recommender.carb_loop].
  - eauto.
  - destruct (bool_decide (carb ∈ avoid)); [apply IH, Hm|].
    destruct (get_food db carb) as [info|] eqn:E; [|apply IH, Hm].
    destruct (_ <=? 0); [eauto|].
    rewrite py_div_max by exact pos_millionth. cbn [mbind res_bind].
    rewrite nutrition_for_ok. cbn [mbind res_bind].
    match goal with |- context [add_portion m ?fp] => assert (Hm' : P (add_portion m fp)) end.
    { apply (Hadd m carb info); [exact Hm|exact E|].
      apply clamp_portion; apply portion_const. }
    destruct (lower <=? _); [eauto|apply IH, Hm'].
Qed.

Lemma fat_loop_inv (cands : list pystr) (m : Meal) :
  P m -> exists m', fat_loop cands m = Ok m' /\ P m'.
Proof.
  revert m. induction cands as [|fatname rest IH]; intros m Hm; cbn [Recommender.fat_loop].
  - eauto.
  - destruct (bool_decide (fatname ∈ avoid)); [apply IH, Hm|].
    destruct (get_food db fatname) as [info|] eqn:E; [|apply IH, Hm].
    rewrite py_div_max by exact pos_millionth. cbn [mbind res_bind].
    rewrite nutrition_for_ok. cbn [mbind res_bind].
    match goal with |- context [add_portion m ?fp] => assert (Hm' : P (add_portion m fp)) end.
    { apply (Hadd m fatname info); [exact Hm|exact E|].
      apply clamp_portion; apply portion_const. }
    destruct (lower <=? _); [eauto|apply IH, Hm'].
Qed.

Lemma fat_slot_inv (m : Meal) : P m -> exists m', fat_slot m = Ok m' /\ P m'.
Proof.
  intros Hm. unfold Recommender.fat_slot.
  destruct (_ <? lower); [apply fat_loop_inv, Hm|eauto].
Qed.

Lemma meal_slot_inv :
  P empty_meal ->
  exists m1 m2 m3,
    protein_slot empty_meal = Ok m1 /\ carb_slot m1 = Ok m2 /\ fat_slot m2 = Ok m3
    /\ meal_slot = Ok (plan_of m3) /\ P m1 /\ P m2 /\ P m3.
Proof.
  intros H0.
  destruct (protein_slot_inv empty_meal H0) as (m1 & E1 & H1).
  destruct (carb_loop_inv (elements prefer ++ CARB_FOODS) m1 H1) as (m2 & E2 & H2).
  destruct (fat_slot_inv m2 H2) as (m3 & E3 & H3).
  exists m1, m2, m3. unfold Recommender.meal_slot, Recommender.carb_slot.
  rewrite E1. cbn [mbind res_bind]. rewrite E2. cbn [mbind res_bind]. rewrite E3.
  repeat split; assumption.
Qed.

End Invariant.

(** The loop over the meals appends the same plan each time. *)
Lemma meals_loop_replicate (plan : Plan.t) (n : nat) (plans : list Plan.t) :
  meal_slot = Ok plan -> meals_loop n plans = Ok (plans ++ replicate n plan).
Proof.
  intros E. revert plans. induction n as [|n IH]; intros plans; cbn [Recommender.meals_loop].
  - rewrite app_nil_r. reflexivity.
  - rewrite E. cbn [mbind res_bind]. rewrite IH, <- app_assoc. reflexivity.
Qed.

Lemma add_portion_nonneg (m : Meal) (n : pystr) (f : FoodRow) (g : float) :
  nonneg_catalog db ->
  nonneg_totals m -> get_food db n = Some f -> portion g ->
  nonneg_totals (add_portion m (scaled db n g)).
Proof.
  intros Hdb (Hk & Hp & Hf & Hc) E Hg. unfold scaled. rewrite E.
  destruct (Hdb f (get_food_in db n f E)) as (Fk & Fp & Ff & Fc).
  pose proof (div_100_posfin g Hg) as Hfac.
  unfold nonneg_totals, add_portion. cbn.
  repeat split; apply add_nonneg; try assumption; apply mul_nonneg; assumption.
Qed.

Lemma add_portion_extends (m0 m : Meal) (fp : FoodPortion) :
  extends m0 m -> extends m0 (add_portion m fp).
Proof.
  intros [l Hl]. exists (l ++ [fp]). cbn. rewrite Hl, app_assoc. reflexivity.
Qed.

Lemma add_portion_nonempty (m : Meal) (fp : FoodPortion) : nonempty (add_portion m fp).
Proof.
  unfold nonempty. cbn. destruct (portions m) as [|a l]; cbn; eauto.
Qed.

(** With a positive lower bound and nothing eaten yet, the first
    carbohydrate base that is not avoided and that the catalog knows
    becomes a portion. *)
Lemma carb_loop_nonempty (cands : list pystr) (m : Meal) :
  pos lower -> total_kcal m = 0 ->
  (exists c, c ∈ cands /\ (c ∉ avoid) /\ is_Some (get_food db c)) ->
  exists m', carb_loop cands m = Ok m' /\ nonempty m'.
Proof.
  intros Hlow Hzero. induction cands as [|carb rest IH]; intros (c & Hin & Hav & Hc).
  - inversion Hin.
  - cbn [Recommender.carb_loop].
    destruct (bool_decide_reflect (carb ∈ avoid)) as [Ha|Ha].
    { apply IH. exists c. apply elem_of_cons in Hin as [->|Hin]; [contradiction|eauto]. }
    destruct (get_food db carb) as [info|] eqn:E.
    2:{ apply IH. exists c. apply elem_of_cons in Hin as [->|Hin]; [|eauto].
        rewrite E in Hc. destruct Hc; discriminate. }
    rewrite Hzero. unfold pos in Hlow. rewrite Hlow, sub_zero.
    unfold py_max at 1. rewrite pos_not_lt0, pos_not_le0 by exact Hlow.
    rewrite py_div_max by exact pos_millionth. cbn [mbind res_bind].
    rewrite nutrition_for_ok. cbn [mbind res_bind].
    destruct (lower <=? _).
    + eexists. split; [reflexivity|apply add_portion_nonempty].
    + apply (carb_loop_inv nonempty).
      * intros. apply add_portion_nonempty.
      * apply add_portion_nonempty.
Qed.

Lemma fat_helpers_in_protein_pool (c : pystr) : c ∈ FAT_HELPERS -> c ∈ PROTEIN_FOODS.
Proof.
  unfold FAT_HELPERS, PROTEIN_FOODS. rewrite !elem_of_cons.
  intros [->|[->|[->|H]]]; [tauto..|inversion H].
Qed.

Lemma empty_not_in_protein_pool : [] ∉ PROTEIN_FOODS.
Proof.
  unfold PROTEIN_FOODS. rewrite !elem_of_cons.
  intros [H|[H|[H|[H|[H|[H|[H|H]]]]]]]; try discriminate H. inversion H.
Qed.

(** With a positive lower bound, a food of one of the three pools that
    is not avoided and that the catalog knows makes the meal non-empty. *)
Lemma meal_nonempty (m1 m2 m3 : Meal) :
  protein_slot empty_meal = Ok m1 -> carb_slot m1 = Ok m2 -> fat_slot m2 = Ok m3 ->
  pos lower ->
  (exists c, c ∈ PROTEIN_FOODS ++ CARB_FOODS ++ FAT_HELPERS
             /\ (c ∉ avoid) /\ is_Some (get_food db c)) ->
  nonempty m3.
Proof.
  intros E1 E2 E3 Hlow (c & Hin & Hav & Hc).
  assert (Hkeep : forall m, nonempty m ->
            forall m' m'', carb_slot m = Ok m' -> fat_slot m' = Ok m'' -> nonempty m'').
  { intros m Hm m' m'' Ea Eb.
    destruct (carb_loop_inv nonempty (fun _ _ _ _ _ _ _ => add_portion_nonempty _ _)
                (elements prefer ++ CARB_FOODS) m Hm) as (x & Ex & Hx).
    unfold Recommender.carb_slot in Ea. rewrite Ea in Ex. injection Ex as <-.
    destruct (fat_slot_inv nonempty (fun _ _ _ _ _ _ _ => add_portion_nonempty _ _) m' Hx)
      as (y & Ey & Hy).
    rewrite Eb in Ey. injection Ey as <-. exact Hy. }
  rewrite protein_slot_eq in E1. injection E1 as E1.
  assert (Hcarb : (exists c', c' ∈ elements prefer ++ CARB_FOODS
                              /\ (c' ∉ avoid) /\ is_Some (get_food db c')) ->
                  m1 = empty_meal -> nonempty m3).
  { intros Hex ->.
    destruct (carb_loop_nonempty (elements prefer ++ CARB_FOODS) empty_meal Hlow eq_refl Hex)
      as (x & Ex & Hx).
    unfold Recommender.carb_slot in E2. rewrite E2 in Ex. injection Ex as <-.
    destruct (fat_slot_inv nonempty (fun _ _ _ _ _ _ _ => add_portion_nonempty _ _) m2 Hx)
      as (y & Ey & Hy).
    rewrite E3 in Ey. injection Ey as <-. exact Hy. }
  destruct (pick db _) as [picked|] eqn:Ep.
  - pose proof Ep as Ep'. apply pick_some in Ep' as (pre & post & Hcands & [f Hf] & _).
    rewrite Hf in E1.
    destruct picked as [|ch picked]; cbn [truthy] in E1.
    + apply Hcarb; [|symmetry; exact E1].
      assert (Hmem : [] ∈ filter (fun f => f ∉ avoid) (elements prefer ++ PROTEIN_FOODS)).
      { rewrite Hcands. apply elem_of_app. right. apply elem_of_cons. auto. }
      apply list_elem_of_filter in Hmem as [Hna Hmem].
      exists []. split; [|split; [exact Hna|eauto]].
      apply elem_of_app in Hmem as [Hmem|Hmem]; [apply elem_of_app; auto|].
      destruct (empty_not_in_protein_pool Hmem).
    + subst m1. apply (Hkeep _ (add_portion_nonempty _ _) m2 m3 E2 E3).
  - rewrite pick_none in Ep.
    assert (Hnot : c ∉ PROTEIN_FOODS).
    { intros Hp. destruct Hc as [f Hf].
      rewrite (Ep c) in Hf; [discriminate|].
      apply list_elem_of_filter. split; [exact Hav|]. apply elem_of_app. auto. }
    apply Hcarb; [|symmetry; exact E1].
    exists c. split; [|split; assumption].
    apply elem_of_app in Hin as [Hin|Hin]; [contradiction|].
    apply elem_of_app in Hin as [Hin|Hin]; [apply elem_of_app; auto|].
    destruct (Hnot (fat_helpers_in_protein_pool c Hin)).
Qed.

Lemma carb_loop_skip (pre cands : list pystr) (m : Meal) :
  (forall x, x ∈ pre -> x ∈ avoid) -> carb_loop (pre ++ cands) m = carb_loop cands m.
Proof.
  intros Hpre. induction pre as [|a pre IH]; [reflexivity|].
  cbn [app Recommender.carb_loop].
  rewrite bool_decide_eq_true_2 by (apply Hpre, elem_of_cons; auto).
  apply IH. intros x Hx. apply Hpre, elem_of_cons. auto.
Qed.

Lemma fat_loop_skip (cands : list pystr) (m : Meal) :
  (forall x, x ∈ cands -> x ∈ avoid) -> fat_loop cands m = Ok m.
Proof.
  intros Hall. induction cands as [|a cands IH]; [reflexivity|].
  cbn [Recommender.fat_loop].
  rewrite bool_decide_eq_true_2 by (apply Hall, elem_of_cons; auto).
  apply IH. intros x Hx. apply Hall, elem_of_cons. auto.
Qed.

Lemma filter_all_avoided (cands : list pystr) :
  (forall x, x ∈ cands -> x ∈ avoid) -> filter (fun f => f ∉ avoid) cands = [].
Proof.
  intros Hall. induction cands as [|a cands IH]; [reflexivity|].
  rewrite filter_cons, decide_False by (intros H; apply H, Hall, elem_of_cons; auto).
  apply IH. intros x Hx. apply Hall, elem_of_cons. auto.
Qed.

(** The first candidate that is not avoided and that the catalog knows
    is the one the protein slot picks. *)
Lemma pick_first_available (pre post : list pystr) (c : pystr) :
  (forall x, x ∈ pre -> x ∈ avoid \/ get_food db x = None) ->
  c ∉ avoid -> is_Some (get_food db c) ->
  pick db (filter (fun f => f ∉ avoid) (pre ++ c :: post)) = Some c.
Proof.
  intros Hpre Hav Hc. rewrite filter_app, filter_cons, decide_True by exact Hav.
  apply pick_first; [|exact Hc].
  intros x Hx. apply list_elem_of_filter in Hx as [Hna Hx].
  destruct (Hpre x Hx) as [H|H]; [contradiction|exact H].
Qed.

End Slots.
End Facts.
End RecommenderFacts.

Module RecommendMeals.
Import Recommender RecommenderNotions RecommenderFacts.
Local Open Scope float_scope.

Section Call.
Context (db : Database) (target_kcal : float) (macro_ratio : gmap pystr float)
        (body_weight : float) (meals : Z) (avoid prefer : option (list pystr)).

(** With a meal count from 1 up, [recommend_meals] reaches its loop. *)
Lemma recommend_meals_loop :
  (1 <= meals < 2 ^ 1023)%Z ->
  exists fm,
    float_of_int meals = Ok fm /\ posfin fm
    /\ recommend_meals db target_kcal macro_ratio body_weight meals avoid prefer =
         meals_loop db (as_set avoid) (as_set prefer)
           (per_meal_of target_kcal fm) (lower_of target_kcal fm)
           (protein_per_meal_of target_kcal macro_ratio body_weight fm)
           (Z.to_nat meals) [].
Proof.
  intros Hm. destruct (float_of_int_posfin meals Hm) as (fm & Hfm & Hpos).
  exists fm. split; [exact Hfm|]. split; [exact Hpos|].
  unfold recommend_meals, py_div_int. rewrite Hfm. cbn [mbind res_bind].
  unfold py_div at 1. rewrite posfin_nonzero by exact Hpos. cbn [mbind res_bind].
  change (py_div ?x 4) with (Ok (x / 4)). cbn [mbind res_bind].
  unfold py_div. rewrite posfin_nonzero by exact Hpos. reflexivity.
Qed.

(** Whenever [recommend_meals] returns, it returns one plan repeated. *)
Lemma recommend_meals_replicate (plans : list Plan.t) :
  recommend_meals db target_kcal macro_ratio body_weight meals avoid prefer = Ok plans ->
  exists plan, plans = replicate (Z.to_nat meals) plan.
Proof.
  unfold recommend_meals.
  destruct (py_div_int target_kcal meals) as [per_meal|e]; [|discriminate].
  cbn [mbind res_bind].
  destruct (py_div _ 4) as [ratio_g|e]; [|discriminate]. cbn [mbind res_bind].
  destruct (py_div_int _ meals) as [ppm|e]; [|discriminate]. cbn [mbind res_bind].
  destruct (meal_slot_inv db (as_set avoid) (as_set prefer) per_meal (per_meal * 0.9) ppm
              (fun _ => True) (fun _ _ _ _ _ _ _ => I) I)
    as (m1 & m2 & m3 & _ & _ & _ & Hslot & _).
  fold (as_set avoid) (as_set prefer).
  rewrite (meals_loop_replicate db _ _ _ _ _ _ _ _ Hslot). intros [= <-]. eauto.
Qed.

(** C10: the plans [recommend_meals] returns are pairwise identical,
    portions and totals alike, and there are as many as meals were
    asked for: each turn of the loop recomputes the plan from the same
    targets. *)
Theorem plans_identical (plans : list Plan.t)
    (Hret : recommend_meals db target_kcal macro_ratio body_weight meals avoid prefer
            = Ok plans) :
  length plans = Z.to_nat meals
  /\ forall i j p q, plans !! i = Some p -> plans !! j = Some q -> p = q.
Proof.
  destruct (recommend_meals_replicate plans Hret) as [plan ->].
  split; [apply length_replicate|].
  intros i j p q Hp Hq.
  apply lookup_replicate in Hp as [-> _]. apply lookup_replicate in Hq as [-> _].
  reflexivity.
Qed.




End Call.
Lemma meals_in_range (n : Z) : (1 <= n <= 9)%Z -> (1 <= n < 2 ^ 1023)%Z.
Proof.
  intros Hn. split; [lia|]. apply Z.le_lt_trans with (2 ^ 4)%Z; [cbn; lia|].
  apply Z.pow_lt_mono_r; lia.
Qed.

Lemma sample_nonneg : nonneg_catalog Sample.catalog.
Proof.
  intros f Hf. unfold Sample.catalog in Hf. cbn [food_items] in Hf.
  rewrite !elem_of_cons in Hf.
  destruct Hf as [->|[->|[->|[->|Hf]]]]; [repeat split; reflexivity..|inversion Hf].
Qed.

(** Three meals of 1800 kcal from the sample catalog. *)
Lemma plans_identical_witness :
  exists plans,
    recommend_meals Sample.catalog 1800 ∅ 70 3 None None = Ok plans
    /\ length plans = 3%nat
    /\ forall i j p q, plans !! i = Some p -> plans !! j = Some q -> p = q.
Proof.
  destruct (recommend_meals Sample.catalog 1800 ∅ 70 3 None None) as [plans|e] eqn:E.
  - exists plans. split; [reflexivity|].
    exact (plans_identical Sample.catalog 1800 ∅ 70 3 None None plans E).
  - vm_compute in E. discriminate E.
Defined.





End RecommendMeals.

(** ** The macro-ratio parser *)

Module ModelsFacts.
Import Models.
Local Open Scope float_scope.

Lemma pos_nonzero (x : float) : pos x -> (x =? 0) = false.
Proof.
  intros H%pos_spec. rewrite FloatAxioms.eqb_spec. change (Prim2SF 0) with (S754_zero false).
  destruct (Prim2SF x) as [s|[]| |[] m e]; cbn in *; tauto.
Qed.



(** In binary64 the three quotients add up to 1 only up to rounding,
    and the result depends on the order of the additions. *)
Remark ratio_sum_rounding :
  4 / 9 + 3 / 9 + 2 / 9 = 0.99999999999999989 /\ 4 / 9 + (3 / 9 + 2 / 9) = 1.
Proof. split; reflexivity. Qed.

End ModelsFacts.

(** * Further properties *)

(** ** The splitter *)

Section Pieces.
Context (U : Unicode).

Lemma lstrip_chars (s : pystr) (c : N) : c ∈ lstrip U s -> c ∈ s.
Proof.
  induction s as [|a s IH]; cbn [lstrip]; [auto|].
  destruct (isspace U a); intros H; [apply elem_of_cons; right; auto|exact H].
Qed.

Lemma strip_chars (s : pystr) (c : N) : c ∈ strip U s -> c ∈ s.
Proof.
  unfold strip, rstrip. intros H.
  apply elem_of_reverse, lstrip_chars, elem_of_reverse, lstrip_chars in H. exact H.
Qed.

Lemma lstrip_blank (s : pystr) :
  Forall (fun c => isspace U c = true) s -> lstrip U s = [].
Proof.
  induction 1 as [|c s Hc _ IH]; [reflexivity|]. cbn [lstrip]. rewrite Hc. exact IH.
Qed.

Lemma strip_blank (s : pystr) :
  Forall (fun c => isspace U c = true) s -> strip U s = [].
Proof. intros H. unfold strip. rewrite lstrip_blank by exact H. reflexivity. Qed.

End Pieces.

Lemma split_on_pieces (sep : N -> bool) (s p : pystr) :
  p ∈ split_on sep s -> Forall (fun c => c ∈ s /\ sep c = false) p.
Proof.
  revert p. induction s as [|c s IH]; intros p; cbn [split_on].
  - intros H. apply list_elem_of_singleton in H. subst p. constructor.
  - destruct (sep c) eqn:E.
    + intros H. apply elem_of_cons in H as [->|H]; [constructor|].
      eapply Forall_impl; [apply IH, H|]. cbn. intros x [Hx Hs]. split; [|exact Hs].
      apply elem_of_cons. auto.
    + assert (Hweak : forall q, q ∈ split_on sep s ->
                Forall (fun x => x ∈ c :: s /\ sep x = false) q).
      { intros q Hq. eapply Forall_impl; [apply IH, Hq|]. cbn. intros x [Hx Hs].
        split; [apply elem_of_cons; auto|exact Hs]. }
      destruct (split_on sep s) as [|q qs].
      * intros H. apply list_elem_of_singleton in H. subst p.
        repeat constructor. exact E.
      * intros H. apply elem_of_cons in H as [->|H].
        -- constructor; [split; [apply elem_of_cons; auto|exact E]|].
           apply Hweak, elem_of_cons. auto.
        -- apply Hweak, elem_of_cons. auto.
Qed.

Lemma split_on_length (sep : N -> bool) (s : pystr) :
  length (split_on sep s) = S (length (filter (fun c => sep c = true) s)).
Proof.
  induction s as [|c s IH]; [reflexivity|]. cbn [split_on]. rewrite filter_cons.
  destruct (sep c) eqn:E.
  - rewrite decide_True by reflexivity. cbn [length]. rewrite IH. reflexivity.
  - rewrite decide_False by discriminate.
    destruct (split_on sep s); cbn [length] in *; [discriminate IH|exact IH].
Qed.

Lemma replace_from_chars (old new : pystr) (k : nat) (s : pystr) (c : N) :
  c ∈ replace_from old new k s -> c ∈ new \/ c ∈ s.
Proof.
  revert k. induction s as [|a s IH]; intros k; cbn [replace_from].
  - intros H. inversion H.
  - destruct k as [|k].
    + destruct (startswith old (a :: s)).
      * intros H. apply elem_of_app in H as [H|H]; [auto|].
        destruct (IH _ H); [auto|right; apply elem_of_cons; auto].
      * intros H. apply elem_of_cons in H as [->|H]; [right; apply elem_of_cons; auto|].
        destruct (IH _ H); [auto|right; apply elem_of_cons; auto].
    + intros H. destruct (IH _ H); [auto|right; apply elem_of_cons; auto].
Qed.

Lemma separator_test (c : N) :
  ((c =? 44) || (c =? 10) || (c =? 47)) = false <-> ~ separator c.
Proof.
  unfold separator.
  destruct (N.eqb_spec c 44), (N.eqb_spec c 10), (N.eqb_spec c 47); cbn; split;
    intros; try discriminate; try tauto; try lia.
Qed.

Lemma split_items_piece (U : Unicode) (text segment : pystr) :
  segment ∈ split_items U text ->
  exists p,
    p ∈ split_on (fun c => (c =? 44) || (c =? 10) || (c =? 47))
          (replace (u "그리고") (u ",") text)
    /\ segment = strip U p /\ truthy segment = true.
Proof.
  unfold split_items. intros H. apply list_elem_of_omap in H as (p & Hp & Hs).
  exists p. split; [exact Hp|].
  destruct (truthy (strip U p)) eqn:E; [|discriminate].
  injection Hs as <-. split; [reflexivity|exact E].
Qed.

(** X1: every segment [split_items] returns is non-empty and trimmed,
    holds none of the three separators (comma, newline, slash), and is
    made of characters of the text. *)
Theorem split_items_segments (U : Unicode) (text segment : pystr)
    (Hseg : segment ∈ split_items U text) :
  segment <> []
  /\ strip U segment = segment
  /\ Forall (fun c => ~ separator c /\ c ∈ text) segment.
Proof.
  apply split_items_piece in Hseg as (p & Hp & -> & Htruthy).
  split; [intros E; rewrite E in Htruthy; discriminate|].
  split; [apply strip_idem|].
  apply split_on_pieces in Hp. rewrite Forall_forall in Hp.
  apply Forall_forall. intros c Hc. apply strip_chars in Hc.
  destruct (Hp c Hc) as [Hin Hsep]. apply separator_test in Hsep.
  split; [exact Hsep|].
  apply replace_from_chars in Hin as [Hin|Hin]; [|exact Hin].
  apply list_elem_of_singleton in Hin. destruct Hsep. left. exact Hin.
Qed.

Lemma split_items_segments_witness :
  split_items basic_unicode (u "계란 2개 그리고 토마토/ 밥 1공기")
    = [u "계란 2개"; u "토마토"; u "밥 1공기"]
  /\ u "토마토" <> []
  /\ strip basic_unicode (u "토마토") = u "토마토"
  /\ Forall (fun c => ~ separator c /\ c ∈ u "계란 2개 그리고 토마토/ 밥 1공기") (u "토마토").
Proof.
  split; [vm_compute; reflexivity|].
  apply (split_items_segments basic_unicode (u "계란 2개 그리고 토마토/ 밥 1공기")).
  vm_compute. apply elem_of_cons. right. apply elem_of_cons. left. reflexivity.
Defined.

(** X2: a text made of white space and separators only, the empty text
    among them, has no segment: [parse_text] returns two empty lists
    and looks nothing up. *)
Theorem parse_text_blank (U : Unicode) (db : Database) (text : pystr)
    (Hblank : Forall (fun c => isspace U c = true \/ separator c) text) :
  split_items U text = [] /\ parse_text U db text = ([], []).
Proof.
  assert (Hsplit : split_items U text = []).
  { destruct (split_items U text) as [|segment l] eqn:E; [reflexivity|].
    assert (Hin : segment ∈ split_items U text) by (rewrite E; apply elem_of_cons; auto).
    apply split_items_piece in Hin as (p & Hp & -> & Htruthy).
    rewrite strip_blank in Htruthy; [discriminate|].
    apply split_on_pieces in Hp. eapply Forall_impl; [exact Hp|].
    cbn. intros c [Hin Hsep]. apply separator_test in Hsep.
    apply replace_from_chars in Hin as [Hin|Hin].
    - apply list_elem_of_singleton in Hin. destruct Hsep. left. exact Hin.
    - rewrite Forall_forall in Hblank. destruct (Hblank c Hin); [assumption|contradiction]. }
  split; [exact Hsplit|]. unfold parse_text. rewrite Hsplit. reflexivity.
Qed.

Lemma parse_text_blank_witness :
  split_items basic_unicode (u " , /  ,") = []
  /\ parse_text basic_unicode Sample.catalog (u " , /  ,") = ([], []).
Proof.
  apply parse_text_blank.
  change (u " , /  ,") with [32; 44; 32; 47; 32; 32; 44].
  repeat constructor; first [left; reflexivity | right; unfold separator; lia].
Defined.

(** ** The segment parser *)

Lemma segment_outcome (U : Unicode) (db : Database) (segment : pystr) :
  truthy segment = true ->
  (exists it, segment_item U db segment = Some it /\ segment_unresolved U db segment = false)
  \/ (segment_item U db segment = None /\ segment_unresolved U db segment = true).
Proof.
  intros Ht. unfold segment_item, segment_unresolved. rewrite Ht. cbn [andb].
  destruct (segment_food U db segment) as [f|].
  - left. eexists. split; [reflexivity|]. apply bool_decide_eq_false_2. discriminate.
  - right. split; [reflexivity|]. apply bool_decide_eq_true_2. reflexivity.
Qed.

Lemma parse_counts (U : Unicode) (db : Database) (segments : list pystr) :
  Forall (fun s => truthy s = true) segments ->
  (length (omap (segment_item U db) segments)
   + length (filter (fun s => segment_unresolved U db s) segments)
   = length segments)%nat.
Proof.
  induction 1 as [|s segments Hs _ IH]; [reflexivity|].
  change (omap (segment_item U db) (s :: segments))
    with (match segment_item U db s with
          | Some y => y :: omap (segment_item U db) segments
          | None => omap (segment_item U db) segments
          end).
  rewrite filter_cons.
  destruct (segment_outcome U db s Hs) as [(it & -> & ->)|[-> ->]]; cbn [length].
  - rewrite decide_False by (intros []). lia.
  - rewrite decide_True by exact I. cbn [length]. lia.
Qed.

Lemma omap_sublist_fmap {A B C : Type} (f : A -> option B) (g : B -> C) (h : A -> C)
    (l : list A) :
  (forall a b, f a = Some b -> g b = h a) -> (g <$> omap f l) `sublist_of` (h <$> l).
Proof.
  intros Hfg. induction l as [|a l IH]; [constructor|].
  change (omap f (a :: l))
    with (match f a with Some y => y :: omap f l | None => omap f l end).
  destruct (f a) as [b|] eqn:E; rewrite !fmap_cons.
  - rewrite (Hfg a b E). apply sublist_skip, IH.
  - apply sublist_cons, IH.
Qed.

(** X3: [parse_text] accounts for every segment exactly once: the
    items and the unresolved segments together are as many as the
    segments, the unresolved list is a subsequence of the segments, and
    the raw names of the items are, in order, name candidates of
    segments. *)
Theorem parse_text_accounts (U : Unicode) (db : Database) (text : pystr) :
  (length (parse_text U db text).1 + length (parse_text U db text).2
   = length (split_items U text))%nat
  /\ (parse_text U db text).2 `sublist_of` split_items U text
  /\ (raw_name <$> (parse_text U db text).1)
       `sublist_of` (name_part_of U <$> split_items U text).
Proof.
  rewrite parse_text_spec. cbn [fst snd]. split; [|split].
  - apply parse_counts, Forall_forall. intros s Hs.
    exact (split_items_truthy U text s Hs).
  - apply sublist_filter.
  - apply omap_sublist_fmap. intros s it. unfold segment_item.
    destruct (truthy s); [|discriminate].
    destruct (segment_food U db s); [|discriminate].
    intros [= <-]. reflexivity.
Qed.



(** ** The quantity extractor *)

Lemma search_from_match (U : Unicode) (s : pystr) (i : nat) (m : Match) :
  search_from U i s = Some m -> exists j t, m = match_at U j t.
Proof.
  revert i. induction s as [|c s IH]; intros i; cbn [search_from]; [discriminate|].
  destruct (is_digit U c); [intros [= <-]; eauto|apply IH].
Qed.

(** Under [re.IGNORECASE] a character that matches a letter of an
    alternative lowers to that letter. *)
Lemma ci_eq_lower (p c : N) :
  p ∈ [103; 107; 109; 108; 44060; 44277; 44592; 53360; 49696; 51089; 51008] ->
  ci_eq p c = true -> lower_char c = p.
Proof.
  intros Hp H. unfold ci_eq in H.
  apply orb_prop in H as [H|H]; [apply orb_prop in H as [H|H]|].
  - apply N.eqb_eq in H. subst c. rewrite !elem_of_cons in Hp.
    destruct Hp as [->|[->|[->|[->|[->|[->|[->|[->|[->|[->|[->|Hp]]]]]]]]]]];
      [reflexivity..|inversion Hp].
  - apply andb_prop in H as [Hrange H]. apply N.eqb_eq in H. subst c.
    rewrite !elem_of_cons in Hp.
    destruct Hp as [->|[->|[->|[->|[->|[->|[->|[->|[->|[->|[->|Hp]]]]]]]]]]];
      [try reflexivity; discriminate Hrange..|inversion Hp].
  - apply andb_prop in H as [Hp' H]. apply N.eqb_eq in Hp', H. subst p c. reflexivity.
Qed.

Lemma ci_startswith_lower (alt s : pystr) :
  Forall (fun p => p ∈ [103; 107; 109; 108; 44060; 44277; 44592; 53360; 49696; 51089; 51008]) alt ->
  ci_startswith alt s = true -> lower (take (length alt) s) = alt.
Proof.
  intros Halt. revert s. induction Halt as [|p alt Hp _ IH]; intros s; [reflexivity|].
  destruct s as [|c s]; cbn [ci_startswith]; [discriminate|].
  intros H. apply andb_prop in H as [Hc Hs].
  cbn [length take]. unfold lower in *. rewrite fmap_cons.
  rewrite (ci_eq_lower p c Hp Hc). f_equal. apply IH, Hs.
Qed.

Lemma alternatives_letters (alt : pystr) :
  alt ∈ UNIT_ALTERNATIVES ->
  Forall (fun p => p ∈ [103; 107; 109; 108; 44060; 44277; 44592; 53360; 49696; 51089; 51008]) alt.
Proof.
  unfold UNIT_ALTERNATIVES. rewrite !elem_of_cons.
  intros [->|[->|[->|[->|[->|[->|[->|[->|H]]]]]]]]; [..|inversion H];
    apply (bool_decide_unpack _); vm_compute; exact I.
Qed.

Lemma alternatives_in_table (alt : pystr) :
  alt ∈ UNIT_ALTERNATIVES -> is_Some (UNIT_TO_G !! alt).
Proof.
  unfold UNIT_ALTERNATIVES. rewrite !elem_of_cons.
  intros [->|[->|[->|[->|[->|[->|[->|[->|H]]]]]]]]; [..|inversion H];
    rewrite UNIT_TO_G_lookup; vm_compute; eauto.
Qed.

(** X5: a unit that [extract_amount] returns is one of the eight
    lower-case keys of [UNIT_TO_G], whatever the case of the text: for
    an amount with a unit [to_grams] always multiplies by the factor of
    the table, and its fallback for an unknown unit is never reached
    from [parse_text]. *)
Theorem extract_amount_unit (U : Unicode) (segment : pystr) (value : float) (unit : pystr)
    (Hamt : extract_amount U segment = Some (value, Some unit)) :
  unit ∈ UNIT_ALTERNATIVES
  /\ exists base,
       UNIT_TO_G !! unit = Some base
       /\ forall food_name, to_grams value (Some unit) food_name = (value * base)%float.
Proof.
  unfold extract_amount in Hamt.
  destruct (NUM_UNIT_RE_search U segment) as [m|] eqn:E; [|discriminate].
  apply search_from_match in E as (j & t & ->).
  injection Hamt as _ Hunit. unfold match_at in Hunit.
  destruct (span_of (is_digit U) t) as [ip r1].
  destruct (match r1 with
            | 46 :: r1' =>
              let '(d, r) := span_of (is_digit U) r1' in
              match d with [] => ([], r1) | _ :: _ => (46 :: d, r) end
            | _ => ([], r1)
            end) as [fp r2].
  destruct (span_of (isspace U) r2) as [ws r3]. cbn [group2] in Hunit.
  destruct (find (fun alt => ci_startswith alt r3) UNIT_ALTERNATIVES) as [alt|] eqn:Ef;
    [|discriminate].
  apply find_some in Ef as [Hin Hci]. apply list_elem_of_In in Hin.
  cbn [fmap option_fmap option_map] in Hunit. injection Hunit as <-.
  rewrite (ci_startswith_lower alt r3 (alternatives_letters alt Hin) Hci).
  split; [exact Hin|].
  destruct (alternatives_in_table alt Hin) as [base Hbase].
  exists base. split; [exact Hbase|]. intros food_name. unfold to_grams.
  rewrite Hbase. reflexivity.
Qed.

Lemma extract_amount_unit_witness :
  extract_amount basic_unicode (u "우유 2 KG") = Some (2%float, Some (u "kg"))
  /\ u "kg" ∈ UNIT_ALTERNATIVES
  /\ exists base,
       UNIT_TO_G !! u "kg" = Some base
       /\ forall food_name, to_grams 2 (Some (u "kg")) food_name = (2 * base)%float.
Proof.
  assert (H : extract_amount basic_unicode (u "우유 2 KG") = Some (2%float, Some (u "kg")))
    by (vm_compute; reflexivity).
  split; [exact H|].
  exact (extract_amount_unit basic_unicode (u "우유 2 KG") 2 (u "kg") H).
Defined.

(** ** The catalog: search, insertion and aliases *)

Import DbWrite.

Lemma sql_like_skip (pat s : pystr) : sql_like pat s = true -> sql_like (37 :: pat) s = true.
Proof. intros H. rewrite sql_like_percent, H. reflexivity. Qed.

(** A name matches itself as a pattern, whatever wildcards it holds. *)
Lemma sql_like_self (n t : pystr) : sql_like (n ++ [37]) (n ++ t) = true.
Proof.
  induction n as [|p n IH]; cbn [app]; [apply sql_like_any|].
  destruct (N.eq_dec p 37) as [->|Hp].
  - rewrite sql_like_percent. apply orb_true_intro. right. apply sql_like_skip, IH.
  - rewrite sql_like_char by exact Hp. rewrite N.eqb_refl, orb_true_r. exact IH.
Qed.

Lemma sql_like_exact (n : pystr) : sql_like ([37] ++ n ++ [37]) n = true.
Proof.
  cbn [app]. apply sql_like_skip.
  rewrite <- (app_nil_r n) at 2. apply sql_like_self.
Qed.

Lemma get_food_none (db : Database) (q : pystr) :
  get_food db q = None <->
  filter (fun r => sql_like ([37] ++ q ++ [37]) (name r)) (food_items db) = [].
Proof.
  unfold get_food, select_food_like. split.
  - destruct (select_food db q); [discriminate|]. apply shortest_none.
  - intros Hnone. destruct (select_food db q) as [r|] eqn:E.
    + apply select_food_name in E as [<- Hin].
      assert (Hr : r ∈ filter (fun r' => sql_like ([37] ++ name r ++ [37]) (name r'))
                     (food_items db)).
      { apply list_elem_of_filter. split; [|exact Hin].
        apply Is_true_true_2, sql_like_exact. }
      rewrite Hnone in Hr. inversion Hr.
    + rewrite Hnone. reflexivity.
Qed.

Lemma get_food_match (db : Database) (q : pystr) (r : FoodRow) :
  get_food db q = Some r ->
  r ∈ filter (fun r' => sql_like ([37] ++ q ++ [37]) (name r')) (food_items db).
Proof.
  unfold get_food, select_food_like. destruct (select_food db q) as [r'|] eqn:E.
  - intros [= <-]. apply select_food_name in E as [<- Hin].
    apply list_elem_of_filter. split; [|exact Hin]. apply Is_true_true_2, sql_like_exact.
  - intros H. apply shortest_spec in H as [H _]. exact H.
Qed.

(** X6: [get_food] and [search_foods] agree on what the catalog knows:
    [get_food(q)] finds nothing exactly when [search_foods(q)] is
    empty, and the row [get_food] returns is one of the rows
    [search_foods] lists. *)
Theorem get_food_search_foods (db : Database) (q : pystr) :
  (get_food db q = None <-> search_foods db q = [])
  /\ (forall r, get_food db q = Some r -> r ∈ search_foods db q).
Proof.
  unfold search_foods. split.
  - rewrite get_food_none. split.
    + intros ->. reflexivity.
    + intros H. apply Permutation_nil_r. rewrite <- H. symmetry.
      apply merge_sort_Permutation.
  - intros r Hr. rewrite merge_sort_Permutation. apply get_food_match, Hr.
Qed.

Lemma name_le_refl (a : pystr) : name_le a a = true.
Proof.
  induction a as [|x a IH]; [reflexivity|]. cbn [name_le].
  rewrite N.eqb_refl, IH. apply orb_true_r.
Qed.

Lemma name_le_total (a b : pystr) : name_le a b = true \/ name_le b a = true.
Proof.
  revert b. induction a as [|x a IH]; intros [|y b]; cbn [name_le]; auto.
  destruct (N.lt_trichotomy x y) as [H|[->|H]].
  - left. rewrite (proj2 (N.ltb_lt _ _) H). reflexivity.
  - rewrite N.ltb_irrefl, N.eqb_refl. cbn [orb andb]. apply IH.
  - right. rewrite (proj2 (N.ltb_lt _ _) H). reflexivity.
Qed.

Lemma name_le_trans (a b c : pystr) :
  name_le a b = true -> name_le b c = true -> name_le a c = true.
Proof.
  revert b c. induction a as [|x a IH]; intros [|y b] [|z c]; cbn [name_le];
    try reflexivity; try discriminate.
  intros H1 H2.
  apply orb_prop in H1 as [H1|H1]; apply orb_prop in H2 as [H2|H2].
  - apply N.ltb_lt in H1, H2. rewrite (proj2 (N.ltb_lt x z)) by lia. reflexivity.
  - apply andb_prop in H2 as [H2 _]. apply N.eqb_eq in H2. subst z.
    rewrite H1. reflexivity.
  - apply andb_prop in H1 as [H1 _]. apply N.eqb_eq in H1. subst y.
    rewrite H2. reflexivity.
  - apply andb_prop in H1 as [H1 H1']. apply andb_prop in H2 as [H2 H2'].
    apply N.eqb_eq in H1, H2. subst y z. rewrite N.eqb_refl, (IH b c H1' H2').
    apply orb_true_r.
Qed.

#[local] Instance by_name_total : Total by_name.
Proof. intros r1 r2. apply name_le_total. Qed.

#[local] Instance by_name_trans : Transitive by_name.
Proof. intros r1 r2 r3. apply name_le_trans. Qed.

(** X7: [search_foods(q)] returns the rows whose name the pattern
    matches, each as often as the catalog holds it, in ascending order
    of name: every row comes before the rows listed after it.  For the
    empty query these are all the rows of the catalog. *)
Theorem search_foods_sorted (db : Database) (q : pystr) :
  search_foods db q
    ≡ₚ filter (fun r => sql_like ([37] ++ q ++ [37]) (name r)) (food_items db)
  /\ StronglySorted by_name (search_foods db q)
  /\ search_foods db [] ≡ₚ food_items db.
Proof.
  unfold search_foods. split; [apply merge_sort_Permutation|].
  split; [apply (StronglySorted_merge_sort by_name)|].
  rewrite merge_sort_Permutation.
  induction (food_items db) as [|r rows IH]; [reflexivity|].
  rewrite filter_cons, decide_True by (apply Is_true_true_2, sql_like_skip, sql_like_any).
  rewrite IH. reflexivity.
Qed.

Section Upsert.
Context (U : Unicode) (db : Database) (n : pystr) (k p f c : float).

Let row : FoodRow :=
  {| name := strip U n; Db.kcal := k; Db.protein := p; Db.fat := f; Db.carbs := c |}.

Lemma find_replaced (rows : list FoodRow) (r0 : FoodRow) :
  find (fun r => bool_decide (name r = strip U n)) rows = Some r0 ->
  find (fun r => bool_decide (name r = strip U n))
    ((fun r => if bool_decide (name r = strip U n) then row else r) <$> rows) = Some row.
Proof.
  induction rows as [|r rows IH]; [discriminate|].
  rewrite fmap_cons. cbn [find].
  destruct (bool_decide_reflect (name r = strip U n)) as [E|E].
  - intros _. rewrite bool_decide_eq_true_2 by reflexivity. reflexivity.
  - rewrite bool_decide_eq_false_2 by exact E. exact IH.
Qed.

Lemma find_appended (rows : list FoodRow) :
  find (fun r => bool_decide (name r = strip U n)) rows = None ->
  find (fun r => bool_decide (name r = strip U n)) (rows ++ [row]) = Some row.
Proof.
  induction rows as [|r rows IH]; cbn [app find].
  - intros _. rewrite bool_decide_eq_true_2 by reflexivity. reflexivity.
  - destruct (bool_decide (name r = strip U n)); [discriminate|exact IH].
Qed.

Lemma find_other_replaced (rows : list FoodRow) (n' : pystr) :
  n' <> strip U n ->
  find (fun r => bool_decide (name r = n'))
    ((fun r => if bool_decide (name r = strip U n) then row else r) <$> rows)
  = find (fun r => bool_decide (name r = n')) rows.
Proof.
  intros Hne. induction rows as [|r rows IH]; [reflexivity|].
  rewrite fmap_cons. cbn [find].
  destruct (bool_decide_reflect (name r = strip U n)) as [E|E].
  - rewrite !bool_decide_eq_false_2 by (cbn; congruence). exact IH.
  - destruct (bool_decide (name r = n')); [reflexivity|exact IH].
Qed.

Lemma find_other_appended (rows : list FoodRow) (n' : pystr) :
  n' <> strip U n ->
  find (fun r => bool_decide (name r = n')) (rows ++ [row])
  = find (fun r => bool_decide (name r = n')) rows.
Proof.
  intros Hne. induction rows as [|r rows IH]; cbn [app find].
  - rewrite bool_decide_eq_false_2 by (cbn; congruence). reflexivity.
  - destruct (bool_decide (name r = n')); [reflexivity|exact IH].
Qed.

Lemma names_replaced (rows : list FoodRow) :
  name <$> ((fun r => if bool_decide (name r = strip U n) then row else r) <$> rows)
  = name <$> rows.
Proof.
  induction rows as [|r rows IH]; [reflexivity|].
  rewrite !fmap_cons, IH. f_equal.
  destruct (bool_decide_reflect (name r = strip U n)) as [E|E]; [symmetry; exact E|reflexivity].
Qed.

(** X8: after [upsert_food(name, kcal, protein, fat, carbs)] the lookup
    of the trimmed name returns that name with the four values given,
    found by the exact match; the exact lookup of every other name
    returns what it returned before, and the aliases are untouched. *)
Theorem upsert_food_lookup
    (Hk : storable k) (Hp : storable p) (Hf : storable f) (Hc : storable c) :
  get_food (upsert_food U db n k p f c) (strip U n)
    = Some {| name := strip U n; Db.kcal := k; Db.protein := p; Db.fat := f; Db.carbs := c |}
  /\ (forall n', n' <> strip U n ->
        select_food (upsert_food U db n k p f c) n' = select_food db n')
  /\ food_synonyms (upsert_food U db n k p f c) = food_synonyms db.
Proof.
  split; [|split; [|reflexivity]].
  - apply get_food_exact. unfold select_food, upsert_food. cbn [food_items].
    fold row. unfold select_food.
    destruct (find _ (food_items db)) as [r0|] eqn:E.
    + exact (find_replaced _ r0 E).
    + exact (find_appended _ E).
  - intros n' Hne. unfold select_food at 1, upsert_food. cbn [food_items]. fold row.
    destruct (select_food db (strip U n)).
    + exact (find_other_replaced _ n' Hne).
    + exact (find_other_appended _ n' Hne).
Qed.

(** X9: [upsert_food] keeps the names of the catalog in place: the
    list of names is the same when the trimmed name was in it and has
    that name added at the end otherwise; names that were unique stay
    unique. *)
Theorem upsert_food_names :
  name <$> food_items (upsert_food U db n k p f c)
    = (if bool_decide (strip U n ∈ name <$> food_items db)
       then name <$> food_items db
       else (name <$> food_items db) ++ [strip U n])
  /\ (unique_names db -> unique_names (upsert_food U db n k p f c)).
Proof.
  assert (Hnames : name <$> food_items (upsert_food U db n k p f c)
                   = (if bool_decide (strip U n ∈ name <$> food_items db)
                      then name <$> food_items db
                      else (name <$> food_items db) ++ [strip U n])).
  { unfold upsert_food. cbn [food_items]. fold row.
    destruct (select_food db (strip U n)) as [r0|] eqn:E.
    - apply select_food_name in E as [E Hin].
      rewrite bool_decide_eq_true_2 by (apply list_elem_of_fmap; eauto).
      apply names_replaced.
    - rewrite bool_decide_eq_false_2; [rewrite fmap_app; reflexivity|].
      intros Hin. apply list_elem_of_fmap in Hin as (r & Hr & Hin).
      apply list_elem_of_In in Hin.
      pose proof (find_none _ _ E r Hin) as H. cbn in H.
      rewrite bool_decide_eq_true_2 in H by (symmetry; exact Hr). discriminate. }
  split; [exact Hnames|].
  unfold unique_names. rewrite Hnames. intros Hnd.
  destruct (bool_decide_reflect (strip U n ∈ name <$> food_items db)) as [E|E]; [exact Hnd|].
  apply NoDup_app. split; [exact Hnd|]. split; [|apply NoDup_singleton].
  intros x Hx Hx'. apply list_elem_of_singleton in Hx'. subst x. contradiction.
Qed.

End Upsert.

Lemma upsert_food_lookup_witness :
  get_food (upsert_food basic_unicode Sample.catalog (u " 두부 ") 76 8 4.8 1.9) (u "두부")
    = Some (Sample.row "두부" 76 8 4.8 1.9)
  /\ select_food (upsert_food basic_unicode Sample.catalog (u " 두부 ") 76 8 4.8 1.9) (u "계란")
     = Some (Sample.row "계란" 155 13 11 1.1).
Proof.
  destruct (upsert_food_lookup basic_unicode Sample.catalog (u " 두부 ") 76 8 4.8 1.9
              I I I I) as (Hget & Hother & _).
  split; [exact Hget|].
  rewrite Hother; [vm_compute; reflexivity|]. vm_compute. discriminate.
Defined.

Lemma upsert_food_names_witness :
  name <$> food_items (upsert_food basic_unicode Sample.catalog (u "계란") 150 12 10 1)
    = [u "계란"; u "토마토"; u "닭가슴살"; u "백미밥"]
  /\ unique_names (upsert_food basic_unicode Sample.catalog (u "계란") 150 12 10 1).
Proof.
  destruct (upsert_food_names basic_unicode Sample.catalog (u "계란") 150 12 10 1)
    as [Hnames Huniq].
  split; [rewrite Hnames; vm_compute; reflexivity|exact (Huniq sample_unique)].
Defined.

Section Synonym.
Context (U : Unicode) (db : Database) (alias canonical : pystr).

Lemma find_alias_added (rows : list (pystr * pystr)) :
  find (fun r => bool_decide (r.1 = strip U alias))
    (filter (fun r => r.1 <> strip U alias) rows ++ [(strip U alias, strip U canonical)])
  = Some (strip U alias, strip U canonical).
Proof.
  induction rows as [|r rows IH]; cbn [filter app find].
  - cbn. rewrite bool_decide_eq_true_2 by reflexivity. reflexivity.
  - rewrite filter_cons. destruct (decide (r.1 <> strip U alias)) as [E|E]; [|exact IH].
    cbn [app find]. rewrite bool_decide_eq_false_2 by exact E. exact IH.
Qed.

Lemma find_alias_other (rows : list (pystr * pystr)) (a : pystr) :
  a <> strip U alias ->
  find (fun r => bool_decide (r.1 = a))
    (filter (fun r => r.1 <> strip U alias) rows ++ [(strip U alias, strip U canonical)])
  = find (fun r => bool_decide (r.1 = a)) rows.
Proof.
  intros Hne. induction rows as [|r rows IH]; cbn [app find].
  - cbn. rewrite bool_decide_eq_false_2 by (cbn; congruence). reflexivity.
  - rewrite filter_cons. destruct (decide (r.1 <> strip U alias)) as [E|E].
    + cbn [app find]. destruct (bool_decide (r.1 = a)); [reflexivity|exact IH].
    + rewrite bool_decide_eq_false_2; [exact IH|].
      intros E'. apply E. intros E''. apply Hne. congruence.
Qed.

(** X10: after [add_synonym(alias, canonical)] the resolver maps the
    alias, trimmed or not, to the trimmed canonical name, replacing an
    earlier target of that alias; every name that trims to something
    else resolves as before, the catalog rows are untouched, and
    aliases that were unique stay unique. *)
Theorem add_synonym_resolves :
  resolve_canonical U (add_synonym U db alias canonical) alias = strip U canonical
  /\ (forall n', strip U n' <> strip U alias ->
        resolve_canonical U (add_synonym U db alias canonical) n' = resolve_canonical U db n')
  /\ food_items (add_synonym U db alias canonical) = food_items db
  /\ (NoDup (food_synonyms db).*1 -> NoDup (food_synonyms (add_synonym U db alias canonical)).*1).
Proof.
  split; [|split; [|split; [reflexivity|]]].
  - unfold resolve_canonical, select_synonym, add_synonym. cbn [food_synonyms].
    rewrite find_alias_added. reflexivity.
  - intros n' Hne. unfold resolve_canonical, select_synonym, select_food, add_synonym.
    cbn [food_synonyms food_items]. rewrite (find_alias_other _ _ Hne). reflexivity.
  - unfold add_synonym. cbn [food_synonyms]. intros Hnd. rewrite fmap_app.
    apply NoDup_app. split; [|split; [|apply NoDup_singleton]].
    + clear -Hnd. induction (food_synonyms db) as [|r rows IH]; [constructor|].
      rewrite fmap_cons in Hnd. apply NoDup_cons in Hnd as [Hr Hnd].
      rewrite filter_cons. destruct (decide (r.1 <> strip U alias)); [|auto].
      rewrite fmap_cons. apply NoDup_cons. split; [|auto].
      intros Hin. apply Hr. apply list_elem_of_fmap in Hin as (x & Hx & Hin).
      apply list_elem_of_filter in Hin as [_ Hin]. apply list_elem_of_fmap. eauto.
    + intros x Hx Hx'. apply list_elem_of_singleton in Hx'. cbn in Hx'. subst x.
      apply list_elem_of_fmap in Hx as (r & Hr & Hin).
      apply list_elem_of_filter in Hin as [Hne _]. apply Hne. symmetry. exact Hr.
Qed.

(** X11: an alias teaches the parser: once [add_synonym(alias,
    canonical)] has run for a canonical name that is a row of the
    catalog, a segment whose name candidate is the alias becomes an
    item of that row, with the grams of the segment's amount, whatever
    the lookup of the alias itself would have found. *)
Theorem alias_teaches_parser (row : FoodRow) (segment : pystr)
    (st : list ParsedItem * list pystr)
    (Hrow : select_food db (strip U canonical) = Some row)
    (Hseg : truthy segment = true)
    (Hname : name_part_of U segment = strip U alias) :
  parse_segment U (add_synonym U db alias canonical) st segment =
    (st.1 ++ [{| raw_name := strip U alias;
                 canonical_name := strip U canonical;
                 FoodParser.grams :=
                   match extract_amount U segment with
                   | Some (value, unit) => to_grams value unit (strip U canonical)
                   | None => 100%float
                   end |}],
     st.2).
Proof.
  unfold parse_segment. rewrite Hseg, Hname. cbn [negb].
  assert (Hres : resolve_canonical U (add_synonym U db alias canonical) (strip U alias)
                 = strip U canonical).
  { unfold resolve_canonical, select_synonym, add_synonym. cbn [food_synonyms].
    rewrite strip_idem, find_alias_added. reflexivity. }
  rewrite Hres.
  assert (Hget : get_food (add_synonym U db alias canonical) (strip U canonical) = Some row).
  { apply get_food_exact. exact Hrow. }
  rewrite Hget. apply select_food_name in Hrow as [-> _]. reflexivity.
Qed.

End Synonym.

Lemma add_synonym_resolves_witness :
  resolve_canonical basic_unicode Sample.catalog (u " 달걀 ") = u "계란"
  /\ resolve_canonical basic_unicode
       (add_synonym basic_unicode Sample.catalog (u " 달걀 ") (u " 토마토")) (u " 달걀 ")
     = u "토마토"
  /\ NoDup (food_synonyms
              (add_synonym basic_unicode Sample.catalog (u " 달걀 ") (u " 토마토"))).*1.
Proof.
  destruct (add_synonym_resolves basic_unicode Sample.catalog (u " 달걀 ") (u " 토마토"))
    as (Hres & _ & _ & Hnd).
  split; [vm_compute; reflexivity|]. split; [exact Hres|].
  apply Hnd. vm_compute. repeat constructor. intros H. inversion H.
Defined.

(** 라이스 is unknown to the sample catalog until it is made an alias
    of 백미밥. *)
Lemma alias_teaches_parser_witness :
  parse_text basic_unicode Sample.catalog (u "라이스 1공기") = ([], [u "라이스 1공기"])
  /\ parse_text basic_unicode
       (add_synonym basic_unicode Sample.catalog (u "라이스") (u "백미밥")) (u "라이스 1공기")
     = ([{| raw_name := u "라이스"; canonical_name := u "백미밥";
            FoodParser.grams := 210%float |}], []).
Proof.
  split; [vm_compute; reflexivity|].
  change (parse_text basic_unicode
            (add_synonym basic_unicode Sample.catalog (u "라이스") (u "백미밥"))
            (u "라이스 1공기"))
    with (parse_segment basic_unicode
            (add_synonym basic_unicode Sample.catalog (u "라이스") (u "백미밥"))
            ([], []) (u "라이스 1공기")).
  rewrite (alias_teaches_parser basic_unicode Sample.catalog (u "라이스") (u "백미밥")
             (Sample.row "백미밥" 130 2.7 0.3 28) (u "라이스 1공기") ([], []));
    vm_compute; reflexivity.
Defined.

(** ** The items of the recommended plans *)

Module PlanFacts.
Import Recommender RecommenderNotions RecommenderFacts PlanNotions.
Local Open Scope float_scope.

Lemma SFleb_trans (x y z : spec_float) :
  SFleb x y = true -> SFleb y z = true -> SFleb x z = true.
Proof.
  unfold SFleb, SFcompare.
  destruct x as [sx|sx| |sx mx ex], y as [sy|sy| |sy my ey], z as [sz|sz| |sz mz ez];
    try destruct sx; try destruct sy; try destruct sz; try discriminate; try reflexivity.
  all: change (Pos.compare_cont Eq) with Pos.compare.
  all: repeat match goal with
       | |- context [(?a ?= ?b)%Z] => destruct (Z.compare_spec a b)
       end; try discriminate; try reflexivity; try lia.
  all: repeat match goal with
       | |- context [(?a ?= ?b)%positive] => destruct (Pos.compare_spec a b)
       end; cbn; try discriminate; try reflexivity; try lia.
Qed.

(** The order of the floats is transitive. *)
Lemma leb_trans (x y z : float) : (x <=? y) = true -> (y <=? z) = true -> (x <=? z) = true.
Proof. rewrite !FloatAxioms.leb_spec. apply SFleb_trans. Qed.

Lemma within_wider (lo hi lo' hi' g : float) :
  (lo' <=? lo) = true -> (hi <=? hi') = true -> within lo hi g -> within lo' hi' g.
Proof. intros Hlo Hhi [H1 H2]. split; eauto using leb_trans. Qed.

Lemma ltb_leb (x y : float) : (x <? y) = true -> (x <=? y) = true.
Proof.
  rewrite FloatAxioms.ltb_spec, FloatAxioms.leb_spec. unfold SFltb, SFleb.
  destruct (SFcompare _ _) as [[]|]; congruence.
Qed.

(** [min(hi, max(lo, x))] lies between the bounds, whatever [x] is, a
    NaN included. *)
Lemma clamp_within (lo hi x : float) :
  (lo <=? hi) = true -> (lo <=? lo) = true -> (hi <=? hi) = true ->
  within lo hi (py_min hi (py_max lo x)).
Proof.
  intros Hlh Hll Hhh. unfold within, py_min, py_max.
  destruct (lo <? x) eqn:E1.
  - destruct (x <? hi) eqn:E2; split; auto using ltb_leb.
  - destruct (lo <? hi) eqn:E2; split; auto.
Qed.

Lemma slot_bounds_within (lo hi x : float) :
  (lo, hi) ∈ SLOT_BOUNDS -> within lo hi (py_min hi (py_max lo x)).
Proof.
  unfold SLOT_BOUNDS. rewrite !elem_of_cons.
  intros [[= -> ->]|[[= -> ->]|[[= -> ->]|H]]]; [..|inversion H];
    apply clamp_within; reflexivity.
Qed.

Section Slots.
Context (db : Database) (avoid prefer : gset pystr) (per_meal lower protein_per_meal : float).

(** An invariant that is kept when a portion is added for a candidate
    that is not avoided and known to the catalog, with grams clamped to
    the bounds of a slot, is kept by the three slots. *)
Section Invariant.
Context (P : Meal -> Prop).
Context (Hadd : forall m n f lo hi x,
           P m -> n ∉ avoid ->
           n ∈ elements prefer ++ PROTEIN_FOODS ++ CARB_FOODS ->
           get_food db n = Some f -> (lo, hi) ∈ SLOT_BOUNDS ->
           P (add_portion m (scaled db n (py_min hi (py_max lo x))))).

Lemma protein_slot_keeps (m : Meal) :
  P m -> exists m', protein_slot db avoid prefer protein_per_meal m = Ok m' /\ P m'.
Proof.
  intros Hm. rewrite protein_slot_eq. eexists. split; [reflexivity|].
  destruct (pick db _) as [picked|] eqn:Ep; [|exact Hm].
  destruct (truthy picked); [|exact Hm].
  destruct (get_food db picked) as [f|] eqn:E; [|exact Hm].
  apply pick_some in Ep as (pre & post & Hc & _ & _).
  assert (Hin : picked ∈ filter (fun f => f ∉ avoid) (elements prefer ++ PROTEIN_FOODS)).
  { rewrite Hc. apply elem_of_app. right. apply elem_of_cons. auto. }
  apply list_elem_of_filter in Hin as [Hna Hin].
  unfold protein_grams. apply (Hadd m picked f); try assumption.
  - rewrite app_assoc. apply elem_of_app. auto.
  - unfold SLOT_BOUNDS. apply elem_of_cons. auto.
Qed.

Lemma carb_loop_keeps (cands : list pystr) (m : Meal) :
  (forall c, c ∈ cands -> c ∈ elements prefer ++ PROTEIN_FOODS ++ CARB_FOODS) ->
  P m -> exists m', carb_loop db avoid per_meal lower cands m = Ok m' /\ P m'.
Proof.
  revert m. induction cands as [|carb rest IH]; intros m Hsub Hm; cbn [carb_loop].
  - eauto.
  - assert (Hrest : forall c, c ∈ rest -> c ∈ elements prefer ++ PROTEIN_FOODS ++ CARB_FOODS)
      by (intros c Hc; apply Hsub, elem_of_cons; auto).
    destruct (bool_decide_reflect (carb ∈ avoid)) as [Ha|Ha]; [apply IH; assumption|].
    destruct (get_food db carb) as [info|] eqn:E; [|apply IH; assumption].
    destruct (_ <=? 0); [eauto|].
    rewrite py_div_max by exact pos_millionth. cbn [mbind res_bind].
    rewrite nutrition_for_ok. cbn [mbind res_bind].
    match goal with |- context [add_portion m ?fp] => assert (Hm' : P (add_portion m fp)) end.
    { apply (Hadd m carb info); try assumption.
      - apply Hsub, elem_of_cons. auto.
      - unfold SLOT_BOUNDS. apply elem_of_cons. right. apply elem_of_cons. auto. }
    destruct (lower <=? _); [eauto|apply IH; assumption].
Qed.

Lemma fat_loop_keeps (cands : list pystr) (m : Meal) :
  (forall c, c ∈ cands -> c ∈ elements prefer ++ PROTEIN_FOODS ++ CARB_FOODS) ->
  P m -> exists m', fat_loop db avoid per_meal lower cands m = Ok m' /\ P m'.
Proof.
  revert m. induction cands as [|fatname rest IH]; intros m Hsub Hm; cbn [fat_loop].
  - eauto.
  - assert (Hrest : forall c, c ∈ rest -> c ∈ elements prefer ++ PROTEIN_FOODS ++ CARB_FOODS)
      by (intros c Hc; apply Hsub, elem_of_cons; auto).
    destruct (bool_decide_reflect (fatname ∈ avoid)) as [Ha|Ha]; [apply IH; assumption|].
    destruct (get_food db fatname) as [info|] eqn:E; [|apply IH; assumption].
    rewrite py_div_max by exact pos_millionth. cbn [mbind res_bind].
    rewrite nutrition_for_ok. cbn [mbind res_bind].
    match goal with |- context [add_portion m ?fp] => assert (Hm' : P (add_portion m fp)) end.
    { apply (Hadd m fatname info); try assumption.
      - apply Hsub, elem_of_cons. auto.
      - unfold SLOT_BOUNDS. do 2 (apply elem_of_cons; right). apply elem_of_cons. auto. }
    destruct (lower <=? _); [eauto|apply IH; assumption].
Qed.

Lemma meal_slot_keeps :
  P empty_meal ->
  exists m, meal_slot db avoid prefer per_meal lower protein_per_meal = Ok (plan_of m) /\ P m.
Proof.
  intros H0.
  destruct (protein_slot_keeps empty_meal H0) as (m1 & E1 & H1).
  destruct (carb_loop_keeps (elements prefer ++ CARB_FOODS) m1) as (m2 & E2 & H2);
    [|exact H1|].
  { intros c Hc. apply elem_of_app in Hc as [Hc|Hc]; rewrite !elem_of_app; auto. }
  assert (exists m3, fat_slot db avoid per_meal lower m2 = Ok m3 /\ P m3) as (m3 & E3 & H3).
  { unfold fat_slot. destruct (_ <? lower); [|eauto].
    apply fat_loop_keeps; [|exact H2].
    intros c Hc. apply fat_helpers_in_protein_pool in Hc. rewrite !elem_of_app. auto. }
  exists m3. split; [|exact H3]. unfold meal_slot, carb_slot.
  rewrite E1. cbn [mbind res_bind]. rewrite E2. cbn [mbind res_bind]. rewrite E3. reflexivity.
Qed.

End Invariant.
End Slots.

Section Call.
Context (db : Database) (target_kcal : float) (macro_ratio : gmap pystr float)
        (body_weight : float) (meals : Z) (avoid prefer : option (list pystr)).

(** Every plan of a call has the items and totals of one meal that
    satisfies a given invariant of the slots. *)
Lemma recommend_meals_keeps (P : Meal -> Prop) :
  (1 <= meals < 2 ^ 1023)%Z ->
  (forall m n f lo hi x,
     P m -> n ∉ default [] avoid ->
     n ∈ default [] prefer ++ PROTEIN_FOODS ++ CARB_FOODS ->
     get_food db n = Some f -> (lo, hi) ∈ SLOT_BOUNDS ->
     P (add_portion m (scaled db n (py_min hi (py_max lo x))))) ->
  P empty_meal ->
  exists m,
    recommend_meals db target_kcal macro_ratio body_weight meals avoid prefer
      = Ok (replicate (Z.to_nat meals) (plan_of m))
    /\ P m.
Proof.
  intros Hmeals Hadd H0.
  destruct (RecommendMeals.recommend_meals_loop db target_kcal macro_ratio body_weight
              meals avoid prefer Hmeals) as (fm & _ & _ & Hrec).
  destruct (meal_slot_keeps db (as_set avoid) (as_set prefer)
              (per_meal_of target_kcal fm) (lower_of target_kcal fm)
              (protein_per_meal_of target_kcal macro_ratio body_weight fm) P) as (m & Hm & HP);
    [|exact H0|].
  { intros m n f lo hi x Hm Hna Hin Hf Hb. apply (Hadd m n f lo hi x); try assumption.
    - intros H. apply Hna. apply elem_of_list_to_set. exact H.
    - apply elem_of_app in Hin as [Hin|Hin]; apply elem_of_app; [left|right; exact Hin].
      apply elem_of_elements, elem_of_list_to_set in Hin. exact Hin. }
  exists m. split; [|exact HP].
  rewrite Hrec, (meals_loop_replicate db _ _ _ _ _ _ _ _ Hm). reflexivity.
Qed.





End Call.





End PlanFacts.

(** ** The meal count *)

Section MealCount.
Local Open Scope Z_scope.

(** The sign given to [binary_round_aux] does not take part in the
    rounding. *)
Lemma binary_round_aux_opp (m e : Z) (l : location) :
  binary_round_aux prec emax true m e l = SFopp (binary_round_aux prec emax false m e l).
Proof.
  unfold binary_round_aux.
  destruct (shr_fexp prec emax m e l) as [mrs' e'].
  destruct (shr_fexp prec emax _ e' loc_Exact) as [mrs'' e''].
  destruct (shr_m mrs'') as [|q|q]; [reflexivity| |reflexivity].
  destruct (e'' <=? emax - prec); reflexivity.
Qed.

(** A positive integer below [2^1023] rounds to a normal number. *)
Lemma binary_normalize_int (p : positive) :
  Z.pos p < 2 ^ 1023 ->
  exists m e,
    binary_normalize prec emax (Z.pos p) 0 false = S754_finite false m e
    /\ Zdigits2 (Z.pos m) = 53 /\ -1000 <= e <= 971.
Proof.
  intros Hn.
  unfold binary_normalize, binary_round, shl_align.
  change (Z.pos (digits2_pos p)) with (Zdigits2 (Z.pos p)).
  pose proof (Zdigits2_bounds (Z.pos p) ltac:(lia)) as Hb.
  assert (Hd0 : 1 <= Zdigits2 (Z.pos p)) by (cbn; lia).
  assert (Hd1 : Zdigits2 (Z.pos p) <= 1023).
  { destruct (Z_lt_le_dec 1023 (Zdigits2 (Z.pos p))) as [Hgt|]; [|assumption].
    assert (2 ^ 1023 <= 2 ^ (Zdigits2 (Z.pos p) - 1)) by (apply Z.pow_le_mono_r; lia). lia. }
  rewrite fexp_normal by lia.
  assert (Hres : forall q e,
            2 ^ 52 <= q -> -1000 <= e -> e + (Zdigits2 q - 53) + 1 <= 971 ->
            exists m e',
              binary_round_aux prec emax false q e loc_Exact = S754_finite false m e'
              /\ Zdigits2 (Z.pos m) = 53 /\ -1000 <= e' <= 971).
  { intros q e Hq He Hmax.
    pose proof (binary_round_aux_normal q e loc_Exact Hq He) as H.
    destruct (binary_round_aux prec emax false q e loc_Exact) as [|[]| |[] m e'];
      try tauto; try lia.
    exists m, e'. split; [reflexivity|]. split; [tauto|lia]. }
  destruct (Zdigits2 (Z.pos p) + 0 - 53 - 0) as [|d|d] eqn:Ed.
  - apply Hres; try lia.
    replace (Zdigits2 (Z.pos p)) with 53 in Hb by lia. change (2 ^ (53 - 1)) with (2 ^ 52) in Hb.
    lia.
  - apply Hres; try lia.
    assert (2 ^ 52 <= 2 ^ (Zdigits2 (Z.pos p) - 1)) by (apply Z.pow_le_mono_r; lia). lia.
  - assert (Hq : 2 ^ 52 <= Z.pos (Pos.iter xO p d) < 2 ^ 53).
    { rewrite iter_xO.
      replace 52 with (Zdigits2 (Z.pos p) - 1 + Z.pos d) by lia.
      replace 53 with (Zdigits2 (Z.pos p) + Z.pos d) by lia.
      rewrite !Z.pow_add_r by lia.
      assert (0 < 2 ^ Z.pos d) by (apply Z.pow_pos_nonneg; lia). nia. }
    apply Hres; try lia.
    rewrite (Zdigits2_unique (Z.pos (Pos.iter xO p d)) 53) by lia. lia.
Qed.

(** A negative meal count above [-2^1023] converts to a float that is
    not zero. *)
Lemma float_of_int_negative (n : Z) :
  - 2 ^ 1023 < n < 0 -> exists f, float_of_int n = Ok f /\ (f =? 0)%float = false.
Proof.
  intros Hn. destruct n as [|p|p]; try lia.
  destruct (binary_normalize_int p ltac:(lia)) as (m & e & Hnorm & Hd & He).
  assert (Hneg : binary_normalize prec emax (Z.neg p) 0 false = S754_finite true m e).
  { unfold binary_normalize, binary_round in *.
    destruct (shl_align p 0 _) as [mz ez].
    rewrite binary_round_aux_opp, Hnorm. reflexivity. }
  unfold float_of_int. rewrite Hneg. eexists. split; [reflexivity|].
  rewrite FloatAxioms.eqb_spec, Prim2SF_SF2Prim; [reflexivity|].
  cbn [SpecFloat.valid_binary]. unfold bounded, canonical_mantissa.
  cbn [Zdigits2] in Hd. rewrite Hd, fexp_normal by lia.
  apply andb_true_intro. split; [apply Z.eqb_eq; lia|apply Z.leb_le; unfold emax, prec; lia].
Qed.

End MealCount.

(** X16: a meal count of zero makes [recommend_meals] raise
    [ZeroDivisionError], at the division that computes the energy of a
    meal and whatever the other arguments are; a negative meal count
    raises nothing and gives the empty list of plans. *)
Theorem recommend_meals_no_meals (db : Database) (target_kcal : float)
    (macro_ratio : gmap pystr float) (body_weight : float)
    (avoid prefer : option (list pystr)) :
  Recommender.recommend_meals db target_kcal macro_ratio body_weight 0 avoid prefer
    = Raise ZeroDivisionError
  /\ forall meals, (- 2 ^ 1023 < meals < 0)%Z ->
       Recommender.recommend_meals db target_kcal macro_ratio body_weight meals avoid prefer
         = Ok [].
Proof.
  split; [reflexivity|].
  intros meals Hm. destruct (float_of_int_negative meals Hm) as (f & Hf & Hnz).
  unfold Recommender.recommend_meals, py_div_int. rewrite Hf. cbn [mbind res_bind].
  unfold py_div at 1. rewrite Hnz. cbn [mbind res_bind].
  change (py_div ?x 4) with (Ok (x / 4)%float). cbn [mbind res_bind].
  unfold py_div. rewrite Hnz. cbn [mbind res_bind].
  destruct meals as [|p|p]; try lia. reflexivity.
Qed.

Lemma recommend_meals_no_meals_witness :
  Recommender.recommend_meals Sample.catalog 1800 ∅ 70 0 None None = Raise ZeroDivisionError
  /\ Recommender.recommend_meals Sample.catalog 1800 ∅ 70 (-2) None None = Ok [].
Proof.
  destruct (recommend_meals_no_meals Sample.catalog 1800 ∅ 70 None None) as [H0 Hneg].
  split; [exact H0|]. apply Hneg. split; [|lia].
  apply Z.lt_le_trans with (- 2 ^ 4)%Z; [|cbn; lia].
  apply -> Z.opp_lt_mono. apply Z.pow_lt_mono_r; lia.
Defined.

(** ** The commands *)

Module DietBotFacts.
Import DietBot Recommender RecommenderNotions RecommenderFacts PlanNotions.
Local Open Scope float_scope.

Lemma cli_names_piece (U : Unicode) (arg : option pystr) (n : pystr) :
  n ∈ cli_names U arg ->
  exists p, p ∈ split_on (fun c => (c =? 44)%N) (default [] arg)
            /\ n = strip U p /\ truthy n = true.
Proof.
  unfold cli_names. intros H. apply list_elem_of_omap in H as (p & Hp & Hs).
  exists p. split; [exact Hp|].
  destruct (truthy (strip U p)) eqn:E; [|discriminate].
  injection Hs as <-. split; [reflexivity|exact E].
Qed.

(** With an age from 0 up the target energy of a profile is computed
    without an exception. *)
Lemma resolve_target_kcal_returns (prof : UserProfile.t) (deficit : option float) :
  (0 <= UserProfile.age prof < 2 ^ 1000)%Z ->
  exists tk, UserProfile.resolve_target_kcal prof deficit = Ok tk.
Proof.
  intros Hage.
  assert (Hconv : exists a, float_of_int (5 * UserProfile.age prof) = Ok a).
  { destruct (Z.eq_dec (UserProfile.age prof) 0%Z) as [->|Hne]; [eexists; reflexivity|].
    destruct (float_of_int_posfin (5 * UserProfile.age prof)%Z) as (a & Ha & _); [|eauto].
    split; [lia|]. apply Z.lt_trans with (2 ^ 3 * 2 ^ 1000)%Z; [cbn; lia|].
    rewrite <- Z.pow_add_r by lia. apply Z.pow_lt_mono_r; lia. }
  destruct Hconv as [a Ha].
  unfold UserProfile.resolve_target_kcal, UserProfile.tdee, UserProfile.bmr.
  rewrite Ha. cbn [mbind res_bind].
  destruct (UserProfile.target_kcal prof); cbn [mbind res_bind];
    destruct deficit as [d|]; try destruct (_ && _); eauto.
Qed.

Section Recommend.
Context (U : Unicode) (db : Database) (prof : UserProfile.t) (deficit : option float)
        (meals : Z) (avoid prefer : option pystr).

(** X17: the lists [cmd_recommend] makes of [--avoid] and [--prefer]
    hold no empty name, only trimmed names without a comma, and an
    option that is absent or blank gives the empty list. *)
Theorem cli_names_clean (arg : option pystr) :
  (forall n, n ∈ cli_names U arg ->
     n <> [] /\ strip U n = n /\ (44%N ∉ n))
  /\ (Forall (fun c => isspace U c = true \/ c = 44%N) (default [] arg) ->
      cli_names U arg = []).
Proof.
  split.
  - intros n Hn. apply cli_names_piece in Hn as (p & Hp & -> & Htruthy).
    split; [intros E; rewrite E in Htruthy; discriminate|].
    split; [apply strip_idem|].
    intros Hin. apply strip_chars in Hin.
    apply split_on_pieces in Hp. rewrite Forall_forall in Hp.
    destruct (Hp _ Hin) as [_ Hsep]. discriminate Hsep.
  - intros Hblank. destruct (cli_names U arg) as [|n l] eqn:E; [reflexivity|].
    assert (Hin : n ∈ cli_names U arg) by (rewrite E; apply elem_of_cons; auto).
    apply cli_names_piece in Hin as (p & Hp & -> & Htruthy).
    rewrite strip_blank in Htruthy; [discriminate|].
    apply split_on_pieces in Hp. eapply Forall_impl; [exact Hp|].
    cbn. intros c [Hin Hsep]. rewrite Forall_forall in Hblank.
    destruct (Hblank c Hin) as [H|H]; [exact H|].
    subst c. discriminate Hsep.
Qed.

Lemma pick_app (l1 l2 : list pystr) :
  pick db (l1 ++ l2) = match pick db l1 with Some c => Some c | None => pick db l2 end.
Proof.
  induction l1 as [|a l1 IH]; [reflexivity|]. cbn [app pick].
  destruct (get_food db a); [reflexivity|exact IH].
Qed.

(** The protein source [cmd_recommend] settles on is the first item of
    every plan. *)
Lemma cmd_recommend_first (picked : pystr) :
  (0 <= UserProfile.age prof < 2 ^ 1000)%Z ->
  (1 <= meals < 2 ^ 1023)%Z ->
  pick db (filter (fun f => f ∉ as_set (Some (cli_names U avoid)))
             (elements (as_set (Some (cli_names U prefer))) ++ PROTEIN_FOODS)) = Some picked ->
  exists plans,
    cmd_recommend U db prof deficit meals avoid prefer = Ok plans
    /\ length plans = Z.to_nat meals
    /\ forall plan, plan ∈ plans ->
         exists fp rest,
           Plan.items plan = fp :: rest
           /\ name fp = picked
           /\ within 50 200 (grams fp).
Proof.
  intros Hage Hmeals Ep.
  destruct (resolve_target_kcal_returns prof deficit Hage) as [tk Htk].
  unfold cmd_recommend. rewrite Htk. cbn [mbind res_bind].
  destruct (RecommendMeals.recommend_meals_loop db tk (UserProfile.macro_ratio prof)
              (UserProfile.weight_kg prof) meals (Some (cli_names U avoid))
              (Some (cli_names U prefer)) Hmeals) as (fm & _ & _ & Hrec).
  rewrite Hrec. clear Hrec.
  set (av := as_set (Some (cli_names U avoid))) in *.
  set (pf := as_set (Some (cli_names U prefer))) in *.
  set (per_meal := per_meal_of tk fm). set (lower := lower_of tk fm).
  set (ppm := protein_per_meal_of tk (UserProfile.macro_ratio prof)
                (UserProfile.weight_kg prof) fm).
  pose proof Ep as Ep'. apply pick_some in Ep' as (pre & post & Hcands & [f Hf] & _).
  assert (Hin : picked ∈ filter (fun f => f ∉ av) (elements pf ++ PROTEIN_FOODS)).
  { rewrite Hcands. apply elem_of_app. right. apply elem_of_cons. auto. }
  apply list_elem_of_filter in Hin as [_ Hpin].
  assert (Htruthy : truthy picked = true).
  { apply elem_of_app in Hpin as [Hp|Hp].
    - apply elem_of_elements, elem_of_list_to_set, cli_names_piece in Hp
        as (_ & _ & _ & Ht). exact Ht.
    - destruct picked; [destruct (empty_not_in_protein_pool Hp)|reflexivity]. }
  set (fp := scaled db picked (protein_grams ppm (Db.protein f))).
  assert (E1 : protein_slot db av pf ppm empty_meal = Ok (add_portion empty_meal fp)).
  { rewrite protein_slot_eq, Ep, Htruthy, Hf. reflexivity. }
  set (m1 := add_portion empty_meal fp) in *.
  pose proof (fun m n f g (H : extends m1 m) (_ : get_food db n = Some f) (_ : portion g) =>
                add_portion_extends m1 m (scaled db n g) H) as Hadd.
  destruct (carb_loop_inv db av per_meal lower (extends m1) Hadd
              (elements pf ++ CARB_FOODS) m1) as (m2 & E2 & H2).
  { exists []. rewrite app_nil_r. reflexivity. }
  destruct (fat_slot_inv db av per_meal lower (extends m1) Hadd m2 H2)
    as (m3 & E3 & [l H3]).
  assert (Hslot : meal_slot db av pf per_meal lower ppm = Ok (plan_of m3)).
  { unfold meal_slot, carb_slot. rewrite E1. cbn [mbind res_bind].
    rewrite E2. cbn [mbind res_bind]. rewrite E3. reflexivity. }
  exists (replicate (Z.to_nat meals) (plan_of m3)).
  split; [rewrite (meals_loop_replicate db _ _ _ _ _ _ _ _ Hslot); reflexivity|].
  split; [apply length_replicate|].
  intros plan Hplan. apply elem_of_replicate in Hplan as [-> _].
  exists fp, l. split; [exact H3|].
  unfold fp, scaled. rewrite Hf. cbn [name grams].
  split; [reflexivity|]. apply PlanFacts.clamp_within; reflexivity.
Qed.

Lemma cli_set (arg : option pystr) (x : pystr) :
  x ∈ as_set (Some (cli_names U arg)) <-> x ∈ cli_names U arg.
Proof. unfold as_set. cbn [default from_option]. apply elem_of_list_to_set. Qed.



End Recommend.

Lemma cli_names_clean_witness :
  cli_names basic_unicode (Some (u " 계란 ,, 두부,")) = [u "계란"; u "두부"]
  /\ cli_names basic_unicode None = []
  /\ cli_names basic_unicode (Some (u " , ")) = [].
Proof.
  split; [vm_compute; reflexivity|]. split.
  - apply (cli_names_clean basic_unicode). constructor.
  - apply (cli_names_clean basic_unicode).
    change (default [] (Some (u " , "))) with [32%N; 44%N; 32%N].
    repeat constructor; first [left; reflexivity | right; reflexivity].
Defined.



End DietBotFacts.

(** ** The macro-ratio parser, further *)

Module MacroFacts.
Import Models.
Local Open Scope float_scope.

(** X20: a string that does not hold exactly two commas is refused
    with [ValueError] before any component is read: the result does not
    depend on what [float()] would do with the components. *)
Theorem parse_macro_str_arity (U : Unicode) (float_of_str : pystr -> res float) (s : pystr)
    (Hcommas : length (filter (fun c => c = 44%N) s) <> 2%nat) :
  parse_macro_str U float_of_str s = Raise ValueError.
Proof.
  unfold parse_macro_str.
  pose proof (split_on_length (fun c => (c =? 44)%N) s) as Hlen.
  assert (Hcount : length (filter (fun c => (c =? 44)%N = true) s)
                   = length (filter (fun c => c = 44%N) s)).
  { clear. induction s as [|c s IH]; [reflexivity|]. rewrite !filter_cons.
    destruct (N.eqb_spec c 44).
    - rewrite !decide_True by (reflexivity || assumption). cbn [length]. rewrite IH. reflexivity.
    - rewrite !decide_False by (discriminate || assumption). exact IH. }
  cbn beta in Hlen. rewrite Hcount in Hlen.
  assert (Hparts : length (strip U <$> split_on (fun c => (c =? 44)%N) s) <> 3%nat)
    by (rewrite length_fmap, Hlen; lia).
  destruct (strip U <$> split_on (fun c => (c =? 44)%N) s) as [|p0 [|p1 [|p2 [|p3 l]]]];
    try reflexivity.
  destruct Hparts. reflexivity.
Qed.

Lemma parse_macro_str_arity_witness :
  parse_macro_str basic_unicode Sample.float_of_str (u "0.4,0.3") = Raise ValueError
  /\ parse_macro_str basic_unicode Sample.float_of_str (u "4,3,2,1") = Raise ValueError.
Proof.
  split; apply parse_macro_str_arity; vm_compute; lia.
Defined.

Section DivSign.
Local Open Scope Z_scope.

Lemma SFdiv_core_nonneg (m1 m2 : positive) (e1 e2 : Z) :
  0 <= fst (fst (SFdiv_core_binary prec emax (Z.pos m1) e1 (Z.pos m2) e2)).
Proof.
  unfold SFdiv_core_binary.
  set (e' := Z.min _ _). set (s := e1 - e2 - e').
  set (m' := match s with
             | Z.pos _ => Z.shiftl (Z.pos m1) s
             | 0 => Z.pos m1
             | Z.neg _ => 0
             end).
  assert (Hm' : 0 <= m').
  { unfold m'. destruct s as [|p|p]; try lia. apply Z.shiftl_nonneg. lia. }
  pose proof (Z_div_mod m' (Z.pos m2) ltac:(lia)) as Hqr.
  destruct (Z.div_eucl m' (Z.pos m2)) as [q r]. cbn [fst].
  destruct Hqr as [Hqr Hr]. nia.
Qed.

(** A quotient of a number that is zero or positive and finite by a
    positive number is not negative, and not a NaN. *)
Lemma div_nonneg (x y : float) : finite_nonneg x -> pos y -> nonneg (x / y)%float.
Proof.
  unfold finite_nonneg. intros Hx Hy%pos_spec. apply nonneg_spec. rewrite div_spec.
  destruct (Prim2SF x) as [sx|sx| |[] mx ex]; try tauto;
    destruct (Prim2SF y) as [sy|[]| |[] my ey]; try tauto; try exact I.
  unfold SF64div, SFdiv. pose proof (SFdiv_core_nonneg mx my ex ey) as Hq.
  destruct (SFdiv_core_binary prec emax (Z.pos mx) ex (Z.pos my) ey) as [[mz ez] lz].
  cbn [fst xorb] in *. apply binary_round_aux_nonneg, Hq.
Qed.

End DivSign.

(** X21: components that are zero or positive and finite, with a
    positive sum, give three ratios that are not negative and not NaN;
    the result holds the three keys carb, protein and fat and no
    other. *)
Theorem parse_macro_str_ratios (U : Unicode) (float_of_str : pystr -> res float)
    (s p0 p1 p2 : pystr) (c p f : float)
    (Hparts : strip U <$> split_on (fun ch => (ch =? 44)%N) s = [p0; p1; p2])
    (Hc : float_of_str p0 = Ok c) (Hp : float_of_str p1 = Ok p) (Hf : float_of_str p2 = Ok f)
    (Hcn : finite_nonneg c) (Hpn : finite_nonneg p) (Hfn : finite_nonneg f)
    (Hpos : pos (c + p + f)) :
  exists r rc rp rf,
    parse_macro_str U float_of_str s = Ok r
    /\ r !! u "carb" = Some rc /\ r !! u "protein" = Some rp /\ r !! u "fat" = Some rf
    /\ (forall key, key <> u "carb" -> key <> u "protein" -> key <> u "fat" -> r !! key = None)
    /\ nonneg rc /\ nonneg rp /\ nonneg rf.
Proof.
  unfold parse_macro_str. rewrite Hparts, Hc. cbn [mbind res_bind].
  rewrite Hp. cbn [mbind res_bind]. rewrite Hf. cbn [mbind res_bind].
  rewrite pos_not_le0 by exact Hpos.
  unfold py_div. rewrite ModelsFacts.pos_nonzero by exact Hpos. cbn [mbind res_bind].
  eexists _, _, _, _. split; [reflexivity|].
  split; [apply lookup_insert_eq|].
  split; [rewrite lookup_insert_ne by discriminate; apply lookup_insert_eq|].
  split; [rewrite !lookup_insert_ne by discriminate; apply lookup_insert_eq|].
  split.
  - intros key H1 H2 H3. rewrite !lookup_insert_ne by congruence. apply lookup_empty.
  - repeat split; apply div_nonneg; assumption.
Qed.

Lemma parse_macro_str_ratios_witness :
  exists r rc rp rf,
    parse_macro_str basic_unicode Sample.float_of_str (u "5, 3 ,0") = Ok r
    /\ r !! u "carb" = Some rc /\ r !! u "protein" = Some rp /\ r !! u "fat" = Some rf
    /\ (forall key, key <> u "carb" -> key <> u "protein" -> key <> u "fat" -> r !! key = None)
    /\ nonneg rc /\ nonneg rp /\ nonneg rf.
Proof.
  apply (parse_macro_str_ratios basic_unicode Sample.float_of_str
           (u "5, 3 ,0") (u "5") (u "3") (u "0") 5 3 0);
    vm_compute; first [reflexivity | exact I].
Defined.

End MacroFacts.

(** ** The grams of the parsed items *)

Section Validity.
Local Open Scope Z_scope.

Lemma fexp_max (z : Z) : fexp prec emax z = Z.max (z - 53) (-1074).
Proof. reflexivity. Qed.

Lemma Zdigits2_nonneg (a : Z) : 0 <= Zdigits2 a.
Proof. destruct a; cbn; lia. Qed.

Lemma Zdigits2_le (a b : Z) : 0 <= a <= b -> Zdigits2 a <= Zdigits2 b.
Proof.
  intros [Ha Hab]. destruct (Z.eq_dec a 0) as [->|Hne]; [apply Zdigits2_nonneg|].
  rewrite !Zdigits2_log2 by lia. pose proof (Z.log2_le_mono a b Hab). lia.
Qed.

Lemma Zdigits2_pow2 (k : Z) : 0 <= k -> Zdigits2 (2 ^ k) = k + 1.
Proof.
  intros Hk. apply Zdigits2_unique; [lia|].
  replace (k + 1 - 1) with k by lia. split; [lia|].
  apply Z.pow_lt_mono_r; lia.
Qed.

Lemma Zdigits2_small (m n : Z) : 0 < m -> 0 <= n -> m < 2 ^ n -> Zdigits2 m <= n.
Proof.
  intros Hm Hn Hlt. pose proof (Zdigits2_bounds m Hm) as [Hlo _].
  destruct (Z_lt_le_dec n (Zdigits2 m)) as [Hgt|]; [|assumption].
  assert (2 ^ n <= 2 ^ (Zdigits2 m - 1)) by (apply Z.pow_le_mono_r; lia). lia.
Qed.

Lemma Zdigits2_div_pow2 (m : Z) (p : positive) :
  0 < m / 2 ^ Z.pos p -> Zdigits2 (m / 2 ^ Z.pos p) = Zdigits2 m - Z.pos p.
Proof.
  intros Hq.
  assert (H2p : 0 < 2 ^ Z.pos p) by (apply Z.pow_pos_nonneg; lia).
  assert (Hm : 2 ^ Z.pos p <= m).
  { destruct (Z_lt_le_dec m (2 ^ Z.pos p)) as [Hlt|]; [|assumption].
    destruct (Z_lt_le_dec m 0) as [Hneg|Hnn].
    - pose proof (Z.div_lt_upper_bound m (2 ^ Z.pos p) 0 H2p ltac:(lia)). lia.
    - rewrite Z.div_small in Hq by lia. lia. }
  pose proof (Zdigits2_bounds m ltac:(lia)) as [Hlo Hhi].
  assert (Hd : Z.pos p < Zdigits2 m).
  { destruct (Z_lt_le_dec (Z.pos p) (Zdigits2 m)) as [|Hle]; [assumption|].
    assert (2 ^ Zdigits2 m <= 2 ^ Z.pos p)
      by (apply Z.pow_le_mono_r; [lia|exact Hle]). lia. }
  apply Zdigits2_unique; [lia|]. split.
  - apply Z.div_le_lower_bound; [lia|].
    rewrite <- Z.pow_add_r by lia.
    replace (Z.pos p + (Zdigits2 m - Z.pos p - 1)) with (Zdigits2 m - 1) by lia. exact Hlo.
  - apply Z.div_lt_upper_bound; [lia|].
    rewrite <- Z.pow_add_r by lia.
    replace (Z.pos p + (Zdigits2 m - Z.pos p)) with (Zdigits2 m) by lia. exact Hhi.
Qed.

(** One call of [shr_fexp] on a mantissa that has no digit too few
    gives a mantissa of the right length, one that stays right when it
    grows by rounding. *)
Lemma shr_fexp_canonical (m e : Z) (l : location) :
  0 <= m -> e <= fexp prec emax (Zdigits2 m + e) ->
  0 <= shr_m (fst (shr_fexp prec emax m e l))
  /\ (0 < shr_m (fst (shr_fexp prec emax m e l)) ->
      fexp prec emax (Zdigits2 (shr_m (fst (shr_fexp prec emax m e l)))
                      + snd (shr_fexp prec emax m e l))
      = snd (shr_fexp prec emax m e l))
  /\ (forall q, shr_m (fst (shr_fexp prec emax m e l)) <= q -> 0 < q ->
        snd (shr_fexp prec emax m e l)
        <= fexp prec emax (Zdigits2 q + snd (shr_fexp prec emax m e l))).
Proof.
  intros Hm Hpre. split; [apply shr_fexp_nonneg, Hm|].
  unfold shr_fexp, shr.
  destruct (fexp prec emax (Zdigits2 m + e) - e) as [|p|p] eqn:En; [| |lia];
    cbn [fst snd].
  - rewrite shr_record_of_loc_m. split; [intros _; lia|].
    intros q Hq Hq0. pose proof (Zdigits2_le m q ltac:(lia)) as Hd.
    rewrite !fexp_max in *. lia.
  - rewrite iter_shr_1_div by (rewrite shr_record_of_loc_m; exact Hm).
    rewrite shr_record_of_loc_m.
    assert (H2p : 0 < 2 ^ Z.pos p) by (apply Z.pow_pos_nonneg; lia).
    split.
    + intros Hq. rewrite Zdigits2_div_pow2 by exact Hq.
      replace (Zdigits2 m - Z.pos p + (e + Z.pos p)) with (Zdigits2 m + e) by lia. lia.
    + intros q Hq Hq0.
      destruct (Z.eq_dec (m / 2 ^ Z.pos p) 0) as [Hz|Hnz].
      * assert (Hsmall : Zdigits2 m <= Z.pos p).
        { destruct (Z.eq_dec m 0) as [->|Hm0]; [cbn; lia|].
          apply Zdigits2_small; [lia|lia|].
          destruct (Z_lt_le_dec m (2 ^ Z.pos p)) as [|Hge]; [assumption|].
          pose proof (Z.div_le_lower_bound m (2 ^ Z.pos p) 1 H2p ltac:(lia)). lia. }
        pose proof (Zdigits2_nonneg q). rewrite !fexp_max in *. lia.
      * assert (Hpos : 0 < m / 2 ^ Z.pos p).
        { pose proof (Z.div_pos m (2 ^ Z.pos p) Hm H2p). lia. }
        pose proof (Zdigits2_div_pow2 m p Hpos) as Hd.
        pose proof (Zdigits2_le (m / 2 ^ Z.pos p) q ltac:(lia)) as Hd'.
        rewrite !fexp_max in *. lia.
Qed.

Lemma shr_fexp_zero (e : Z) (l : location) : shr_m (fst (shr_fexp prec emax 0 e l)) = 0.
Proof.
  unfold shr_fexp, shr.
  destruct (fexp prec emax (Zdigits2 0 + e) - e) as [|p|p]; cbn [fst];
    try apply shr_record_of_loc_m.
  rewrite iter_shr_1_div by (rewrite shr_record_of_loc_m; lia).
  rewrite shr_record_of_loc_m. apply Z.div_0_l.
  pose proof (Z.pow_pos_nonneg 2 (Z.pos p)). lia.
Qed.

(** The rounding of a mantissa that has no digit too few is a float of
    the format. *)
Lemma binary_round_aux_valid (s : bool) (m e : Z) (l : location) :
  0 <= m -> e <= fexp prec emax (Zdigits2 m + e) ->
  valid_binary (binary_round_aux prec emax s m e l) = true.
Proof.
  intros Hm Hpre. unfold binary_round_aux.
  pose proof (shr_fexp_canonical m e l Hm Hpre) as (H1 & _ & H1q).
  destruct (shr_fexp prec emax m e l) as [mrs' e']. cbn [fst snd] in H1, H1q.
  pose proof (round_nearest_even_bounds (shr_m mrs') (loc_of_shr_record mrs')) as Hr.
  set (q' := round_nearest_even (shr_m mrs') (loc_of_shr_record mrs')) in *.
  destruct (Z.eq_dec q' 0) as [Hz|Hnz].
  - rewrite Hz. pose proof (shr_fexp_zero e' loc_Exact) as H0.
    destruct (shr_fexp prec emax 0 e' loc_Exact) as [mrs'' e'']. cbn [fst] in H0.
    rewrite H0. reflexivity.
  - pose proof (shr_fexp_canonical q' e' loc_Exact ltac:(lia) (H1q q' ltac:(lia) ltac:(lia)))
      as (H2 & H2c & _).
    destruct (shr_fexp prec emax q' e' loc_Exact) as [mrs'' e'']. cbn [fst snd] in H2, H2c.
    destruct (shr_m mrs'') as [|m2|m2]; [reflexivity| |reflexivity].
    destruct (Z.leb_spec e'' (emax - prec)) as [Hle|Hgt]; [|reflexivity].
    cbn [SpecFloat.valid_binary]. unfold bounded, canonical_mantissa.
    change (Z.pos (digits2_pos m2)) with (Zdigits2 (Z.pos m2)).
    rewrite (H2c ltac:(lia)), Z.eqb_refl. apply Z.leb_le, Hle.
Qed.

(** The quotient that the division hands to the rounding has no digit
    too few. *)
Lemma SFdiv_core_digits (m1 m2 : positive) (e1 e2 : Z) :
  snd (fst (SFdiv_core_binary prec emax (Z.pos m1) e1 (Z.pos m2) e2))
  <= fexp prec emax
       (Zdigits2 (fst (fst (SFdiv_core_binary prec emax (Z.pos m1) e1 (Z.pos m2) e2)))
        + snd (fst (SFdiv_core_binary prec emax (Z.pos m1) e1 (Z.pos m2) e2))).
Proof.
  unfold SFdiv_core_binary.
  set (d1 := Zdigits2 (Z.pos m1)). set (d2 := Zdigits2 (Z.pos m2)).
  set (e' := Z.min (fexp prec emax (d1 + e1 - (d2 + e2))) (e1 - e2)).
  set (s := e1 - e2 - e').
  set (m' := match s with
             | Z.pos _ => Z.shiftl (Z.pos m1) s
             | 0 => Z.pos m1
             | Z.neg _ => 0
             end).
  assert (Hs : 0 <= s) by (unfold s, e'; lia).
  assert (Hm' : m' = Z.pos m1 * 2 ^ s).
  { unfold m'. destruct s as [|p|p]; [lia| |lia]. apply Z.shiftl_mul_pow2. lia. }
  assert (H2s : 0 < 2 ^ s) by (apply Z.pow_pos_nonneg; lia).
  pose proof (Zdigits2_bounds (Z.pos m1) ltac:(lia)) as [H1lo H1hi]. fold d1 in H1lo, H1hi.
  pose proof (Zdigits2_bounds (Z.pos m2) ltac:(lia)) as [H2lo H2hi]. fold d2 in H2lo, H2hi.
  assert (Hd1 : 1 <= d1) by (unfold d1; cbn; lia).
  assert (Hd2 : 1 <= d2) by (unfold d2; cbn; lia).
  assert (Hlow : 2 ^ (d1 + s - 1) <= m').
  { rewrite Hm'. replace (d1 + s - 1) with (d1 - 1 + s) by lia.
    rewrite Z.pow_add_r by lia. nia. }
  pose proof (Z_div_mod m' (Z.pos m2) ltac:(lia)) as Hqr.
  destruct (Z.div_eucl m' (Z.pos m2)) as [q r]. cbn [fst snd].
  destruct Hqr as [Hqr Hr].
  assert (Hq : 0 <= q) by nia.
  assert (He' : e' <= fexp prec emax (d1 + e1 - (d2 + e2))) by (unfold e'; lia).
  destruct (Z.eq_dec q 0) as [->|Hq0].
  - assert (Hlt : 2 ^ (d1 + s - 1) < 2 ^ d2) by lia.
    apply Z.pow_lt_mono_r_iff in Hlt; [|lia|lia].
    cbn [Zdigits2]. rewrite !fexp_max in *. unfold s in *. lia.
  - assert (Hdq : d1 + s - d2 <= Zdigits2 q).
    { destruct (Z_lt_le_dec (d1 + s - d2 - 1) 0) as [Hneg|Hk].
      - pose proof (Zdigits2_le 1 q ltac:(lia)) as H1. cbn in H1. lia.
      - assert (Hge : 2 ^ (d1 + s - d2 - 1) <= q).
        { assert (Hmul : Z.pos m2 * 2 ^ (d1 + s - d2 - 1) <= m').
          { apply Z.le_trans with (2 ^ d2 * 2 ^ (d1 + s - d2 - 1)).
            - apply Z.mul_le_mono_nonneg_r; [apply Z.pow_nonneg; lia|lia].
            - rewrite <- Z.pow_add_r by lia.
              replace (d2 + (d1 + s - d2 - 1)) with (d1 + s - 1) by lia. exact Hlow. }
          assert (H2k : 0 < 2 ^ (d1 + s - d2 - 1)) by (apply Z.pow_pos_nonneg; lia).
          nia. }
        pose proof (Zdigits2_le (2 ^ (d1 + s - d2 - 1)) q ltac:(lia)) as Hd.
        rewrite Zdigits2_pow2 in Hd by lia. lia. }
    rewrite !fexp_max in *. unfold s in *. lia.
Qed.

Lemma SFdiv_positive_valid (m1 m2 : positive) :
  valid_binary (SFdiv prec emax (S754_finite false m1 0) (S754_finite false m2 0)) = true
  /\ sf_nonneg (SFdiv prec emax (S754_finite false m1 0) (S754_finite false m2 0)).
Proof.
  unfold SFdiv.
  pose proof (SFdiv_core_digits m1 m2 0 0) as Hd.
  pose proof (MacroFacts.SFdiv_core_nonneg m1 m2 0 0) as Hq.
  destruct (SFdiv_core_binary prec emax (Z.pos m1) 0 (Z.pos m2) 0) as [[q e'] l].
  cbn [fst snd xorb] in *. split.
  - apply binary_round_aux_valid; assumption.
  - apply binary_round_aux_nonneg, Hq.
Qed.

End Validity.

(** The value [float()] reads from digits is not negative and not a
    NaN. *)
Lemma decimal_to_float_nonneg (n k : N) : nonneg (decimal_to_float n k).
Proof.
  apply nonneg_spec. unfold decimal_to_float.
  assert (Hpow : (10 ^ k <> 0)%N) by (apply N.pow_nonzero; discriminate).
  destruct (10 ^ k)%N as [|d] eqn:Ed; [contradiction|].
  destruct n as [|p]; cbn [SF_of_N].
  - rewrite Prim2SF_SF2Prim by reflexivity. exact I.
  - destruct (SFdiv_positive_valid p d) as [Hv Hn].
    rewrite Prim2SF_SF2Prim by exact Hv. exact Hn.
Qed.

Lemma table_factor_posfin (unit : pystr) (base : float) :
  UNIT_TO_G !! unit = Some base -> posfin base.
Proof.
  rewrite UNIT_TO_G_lookup. unfold unit_factor.
  repeat (destruct (decide _); [intros [= <-]; exact I|]). discriminate.
Qed.

(** X22: the grams of every item [parse_text] emits are zero or
    positive, possibly infinite, never negative and never a NaN: the
    pattern reads no sign, the digits give a number that is not
    negative, and every factor of the unit table is positive. *)
Theorem parsed_grams_nonneg (U : Unicode) (db : Database) (text : pystr) (it : ParsedItem)
    (Hit : it ∈ (parse_text U db text).1) :
  nonneg (FoodParser.grams it).
Proof.
  rewrite parse_text_spec in Hit. cbn [fst] in Hit.
  apply list_elem_of_omap in Hit as (segment & _ & Hitem).
  unfold segment_item in Hitem. destruct (truthy segment); [|discriminate].
  destruct (segment_food U db segment) as [f|]; [|discriminate].
  injection Hitem as <-. cbn [FoodParser.grams]. unfold segment_grams, extract_amount.
  destruct (NUM_UNIT_RE_search U segment) as [m|]; [|reflexivity].
  assert (Hvalue : nonneg (float_of_group1 U (group1 m))).
  { unfold float_of_group1. destruct (span_of (is_digit U) (group1 m)) as [ip r].
    apply decimal_to_float_nonneg. }
  unfold to_grams. destruct (lower <$> group2 m) as [unit|]; [|exact Hvalue].
  destruct (UNIT_TO_G !! unit) as [base|] eqn:E; [|exact Hvalue].
  apply mul_nonneg; [exact Hvalue|]. exact (table_factor_posfin unit base E).
Qed.

Lemma parsed_grams_nonneg_witness :
  parse_text basic_unicode Sample.catalog (u "토마토 0.5kg")
    = ([{| raw_name := u "토마토"; canonical_name := u "토마토";
           FoodParser.grams := 500%float |}], [])
  /\ nonneg 500.
Proof.
  assert (H : parse_text basic_unicode Sample.catalog (u "토마토 0.5kg")
              = ([{| raw_name := u "토마토"; canonical_name := u "토마토";
                     FoodParser.grams := 500%float |}], []))
    by (vm_compute; reflexivity).
  split; [exact H|].
  apply (parsed_grams_nonneg basic_unicode Sample.catalog (u "토마토 0.5kg")
           {| raw_name := u "토마토"; canonical_name := u "토마토";
              FoodParser.grams := 500%float |}).
  rewrite H. apply elem_of_cons. left. reflexivity.
Defined.

(** ** Texts put together *)

Lemma startswith_before (old s t : pystr) (c : N) :
  old <> [] -> c ∉ old -> startswith old (s ++ c :: t) = startswith old s.
Proof.
  intros Hne Hc. revert s. induction old as [|a old IH]; [contradiction|]. intros s.
  destruct s as [|x s]; cbn [app startswith].
  - destruct (N.eqb_spec a c) as [->|]; [|reflexivity].
    destruct Hc. apply elem_of_cons. auto.
  - destruct old as [|b old]; [destruct (a =? x); reflexivity|].
    rewrite IH; [reflexivity|discriminate|].
    intros H. apply Hc. apply elem_of_cons. auto.
Qed.

Lemma startswith_length (old s : pystr) :
  startswith old s = true -> (length old <= length s)%nat.
Proof.
  revert s. induction old as [|a old IH]; intros s; cbn [length]; [lia|].
  destruct s as [|x s]; cbn [startswith length]; [discriminate|].
  intros H. apply andb_prop in H as [_ H]. specialize (IH s H). lia.
Qed.

Lemma replace_from_before (old new s t : pystr) (c : N) (k : nat) :
  old <> [] -> c ∉ old -> (k <= length s)%nat ->
  replace_from old new k (s ++ c :: t)
  = replace_from old new k s ++ c :: replace_from old new 0 t.
Proof.
  intros Hne Hc. revert k. induction s as [|x s IH]; intros k Hk.
  - cbn [length] in Hk. replace k with 0%nat by lia. cbn [app replace_from].
    change (c :: t) with ([] ++ c :: t) at 1.
    rewrite (startswith_before old [] t c Hne Hc).
    destruct old; [contradiction|reflexivity].
  - destruct k as [|k].
    + change ((x :: s) ++ c :: t) with (x :: (s ++ c :: t)). cbn [replace_from].
      change (x :: (s ++ c :: t)) with ((x :: s) ++ c :: t).
      rewrite (startswith_before old (x :: s) t c Hne Hc).
      destruct (startswith old (x :: s)) eqn:E.
      * apply startswith_length in E. cbn [length] in E.
        rewrite IH by lia. rewrite <- app_assoc. reflexivity.
      * rewrite IH by lia. reflexivity.
    + cbn [app replace_from]. cbn [length] in Hk. apply IH. lia.
Qed.

Lemma split_on_nonempty (sep : N -> bool) (s : pystr) : split_on sep s <> [].
Proof.
  destruct s as [|c s]; cbn [split_on]; [discriminate|].
  destruct (sep c); [discriminate|]. destruct (split_on sep s); discriminate.
Qed.

Lemma split_on_before (sep : N -> bool) (x y : pystr) (c : N) :
  sep c = true -> split_on sep (x ++ c :: y) = split_on sep x ++ split_on sep y.
Proof.
  intros Hc. induction x as [|a x IH]; cbn [app split_on].
  - rewrite Hc. reflexivity.
  - destruct (sep a); [rewrite IH; reflexivity|].
    rewrite IH. pose proof (split_on_nonempty sep x) as Hne.
    destruct (split_on sep x) as [|p ps]; [contradiction|reflexivity].
Qed.

Lemma separator_not_in_word (c : N) : separator c -> c ∉ u "그리고".
Proof.
  intros Hc Hin. change (u "그리고") with [44536; 47532; 44256] in Hin.
  rewrite !elem_of_cons in Hin. unfold separator in Hc.
  destruct Hin as [->|[->|[->|Hin]]]; [lia..|inversion Hin].
Qed.

Lemma split_items_before (U : Unicode) (a b : pystr) (c : N) :
  separator c -> split_items U (a ++ c :: b) = split_items U a ++ split_items U b.
Proof.
  intros Hc. unfold split_items, replace.
  rewrite replace_from_before; [|discriminate|apply separator_not_in_word, Hc|lia].
  rewrite split_on_before.
  - apply omap_app.
  - destruct Hc as [-> | [-> | ->]]; reflexivity.
Qed.

(** X23: a separator between two texts splits the work: the segments
    of [a], a separator, [b] are the segments of [a] followed by those
    of [b], and so are the items and the unresolved segments that
    [parse_text] returns. *)
Theorem parse_text_concat (U : Unicode) (db : Database) (a b : pystr) (c : N)
    (Hc : separator c) :
  split_items U (a ++ c :: b) = split_items U a ++ split_items U b
  /\ parse_text U db (a ++ c :: b)
     = ((parse_text U db a).1 ++ (parse_text U db b).1,
        (parse_text U db a).2 ++ (parse_text U db b).2).
Proof.
  split; [apply split_items_before, Hc|].
  rewrite !parse_text_spec, split_items_before by exact Hc. cbn [fst snd].
  rewrite omap_app, filter_app. reflexivity.
Qed.

Lemma parse_text_concat_witness :
  parse_text basic_unicode Sample.catalog (u "계란 2개" ++ 47 :: u "피자")
  = ((parse_text basic_unicode Sample.catalog (u "계란 2개")).1
       ++ (parse_text basic_unicode Sample.catalog (u "피자")).1,
     (parse_text basic_unicode Sample.catalog (u "계란 2개")).2
       ++ (parse_text basic_unicode Sample.catalog (u "피자")).2)
  /\ parse_text basic_unicode Sample.catalog (u "계란 2개/피자")
     = ([{| raw_name := u "계란"; canonical_name := u "계란"; FoodParser.grams := 100%float |}],
        [u "피자"]).
Proof.
  split; [|vm_compute; reflexivity].
  apply (parse_text_concat basic_unicode Sample.catalog (u "계란 2개") (u "피자") 47).
  right. right. reflexivity.
Defined.

Lemma replace_absent (old new s : pystr) :
  Spec.contains old s = false -> replace_from old new 0 s = s.
Proof.
  induction s as [|c s IH]; [reflexivity|].
  cbn [Spec.contains replace_from]. intros H. apply orb_false_elim in H as [H1 H2].
  rewrite H1, (IH H2). reflexivity.
Qed.

Lemma split_on_absent (sep : N -> bool) (s : pystr) :
  Forall (fun c => sep c = false) s -> split_on sep s = [s].
Proof.
  induction 1 as [|c s Hc _ IH]; [reflexivity|].
  cbn [split_on]. rewrite Hc, IH. reflexivity.
Qed.

Lemma split_items_clean (U : Unicode) (s : pystr) :
  clean_segment U s -> split_items U s = [s].
Proof.
  intros (Hne & Hstrip & Hsep & Habs). unfold split_items, replace.
  rewrite replace_absent by exact Habs.
  rewrite split_on_absent.
  - cbn [omap list_omap]. rewrite Hstrip. destruct s; [contradiction|reflexivity].
  - eapply Forall_impl; [exact Hsep|]. cbn. intros c Hc. apply separator_test, Hc.
Qed.

(** X24: splitting undoes joining: segments that are not empty,
    trimmed, free of separators and of the word 그리고, joined by
    commas, are the segments [split_items] returns for the joined
    text. *)
Theorem split_items_join (U : Unicode) (segments : list pystr)
    (Hclean : Forall (clean_segment U) segments) :
  split_items U (join_commas segments) = segments.
Proof.
  induction Hclean as [|s rest Hs Hrest IH]; [reflexivity|].
  destruct rest as [|s' rest]; [apply split_items_clean, Hs|].
  change (join_commas (s :: s' :: rest)) with (s ++ 44 :: join_commas (s' :: rest)).
  rewrite split_items_before by (left; reflexivity).
  rewrite IH, split_items_clean by exact Hs. reflexivity.
Qed.

Lemma clean_segment_example (s : string) :
  u s <> [] -> strip basic_unicode (u s) = u s ->
  forallb (fun c => negb ((c =? 44) || (c =? 10) || (c =? 47))) (u s) = true ->
  Spec.contains (u "그리고") (u s) = false ->
  clean_segment basic_unicode (u s).
Proof.
  intros Hne Hstrip Hsep Habs. split; [exact Hne|]. split; [exact Hstrip|].
  split; [|exact Habs].
  apply Forall_forall. intros c Hc. rewrite forallb_forall in Hsep.
  apply list_elem_of_In in Hc. specialize (Hsep c Hc).
  apply negb_true_iff, separator_test in Hsep. exact Hsep.
Qed.

Lemma split_items_join_witness :
  join_commas [u "계란 2개"; u "밥 1공기"; u "토마토"] = u "계란 2개,밥 1공기,토마토"
  /\ split_items basic_unicode (join_commas [u "계란 2개"; u "밥 1공기"; u "토마토"])
     = [u "계란 2개"; u "밥 1공기"; u "토마토"].
Proof.
  split; [vm_compute; reflexivity|].
  apply split_items_join.
  apply Forall_cons. split; [apply clean_segment_example; vm_compute; congruence|].
  apply Forall_cons. split; [apply clean_segment_example; vm_compute; congruence|].
  apply Forall_cons. split; [apply clean_segment_example; vm_compute; congruence|].
  constructor.
Defined.

(** ** The user profile *)

Module ProfileFacts.
Import UserProfile.
Local Open Scope float_scope.

Lemma age_converts (prof : t) :
  (0 <= age prof < 2 ^ 1000)%Z -> exists a, float_of_int (5 * age prof) = Ok a.
Proof.
  intros Hage.
  destruct (Z.eq_dec (age prof) 0%Z) as [->|Hne]; [eexists; reflexivity|].
  destruct (float_of_int_posfin (5 * age prof)%Z) as (a & Ha & _); [|eauto].
  split; [lia|]. apply Z.lt_trans with (2 ^ 3 * 2 ^ 1000)%Z; [cbn; lia|].
  rewrite <- Z.pow_add_r by lia. apply Z.pow_lt_mono_r; lia.
Qed.

(** X25: for an age from 0 up the four methods of the profile return
    a number and raise nothing, whatever the other fields hold; an
    activity that is not a key of [ACTIVITY_MAP] gives the energy of
    the light activity; and a stored target is returned without the
    age being read. *)
Theorem profile_methods_return (prof : t) :
  ((0 <= age prof < 2 ^ 1000)%Z ->
   (exists b, bmr prof = Ok b)
   /\ (exists e, tdee prof = Ok e)
   /\ (forall deficit, exists tk, resolve_target_kcal prof deficit = Ok tk)
   /\ (forall target, exists m, macro_targets_g prof target = Ok m))
  /\ (ACTIVITY_MAP !! activity prof = None ->
      tdee prof =
        tdee {| gender := gender prof; age := age prof; height_cm := height_cm prof;
                weight_kg := weight_kg prof; activity := u "light";
                target_kcal := target_kcal prof; macro_ratio := macro_ratio prof |})
  /\ (forall tk, target_kcal prof = Some tk ->
        resolve_target_kcal prof None = Ok tk
        /\ forall d, resolve_target_kcal prof (Some d)
                     = Ok (if (0 <? d) && (d <? 0.9) then tk * (1 - d) else tk)).
Proof.
  split; [|split].
  - intros Hage. destruct (age_converts prof Hage) as [a Ha].
    assert (Hbmr : exists b, bmr prof = Ok b).
    { unfold bmr. rewrite Ha. cbn [mbind res_bind]. eauto. }
    destruct Hbmr as [b Hb].
    assert (Htdee : exists e, tdee prof = Ok e).
    { unfold tdee. rewrite Hb. cbn [mbind res_bind]. eauto. }
    destruct Htdee as [e He].
    assert (Hres : forall deficit, exists tk, resolve_target_kcal prof deficit = Ok tk).
    { intros deficit. unfold resolve_target_kcal. rewrite He.
      destruct (target_kcal prof); cbn [mbind res_bind];
        destruct deficit as [d|]; try destruct (_ && _); eauto. }
    split; [eauto|]. split; [eauto|]. split; [exact Hres|].
    intros target. unfold macro_targets_g.
    destruct target as [tk|]; cbn [mbind res_bind]; [eauto|].
    destruct (Hres None) as [tk ->]. cbn [mbind res_bind]. eauto.
  - intros Hact. unfold tdee, bmr. cbn [activity age gender weight_kg height_cm].
    rewrite Hact. reflexivity.
  - intros tk Htk. unfold resolve_target_kcal. rewrite Htk. cbn [mbind res_bind].
    split; [reflexivity|]. intros d. destruct (_ && _); reflexivity.
Qed.

(** The profile of the tests: a man of 25, 175 cm and 70 kg, lightly
    active. *)
Lemma profile_methods_return_witness :
  bmr {| gender := u "male"; age := 25; height_cm := 175; weight_kg := 70;
         activity := u "light"; target_kcal := None; macro_ratio := ∅ |} = Ok 1673.75
  /\ exists e,
       tdee {| gender := u "male"; age := 25; height_cm := 175; weight_kg := 70;
               activity := u "light"; target_kcal := None; macro_ratio := ∅ |} = Ok e.
Proof.
  split; [vm_compute; reflexivity|].
  apply (profile_methods_return
           {| gender := u "male"; age := 25; height_cm := 175; weight_kg := 70;
              activity := u "light"; target_kcal := None; macro_ratio := ∅ |}).
  cbn [age]. split; [lia|].
  apply Z.lt_le_trans with (2 ^ 5)%Z; [cbn; lia|apply Z.pow_le_mono_r; lia].
Defined.

End ProfileFacts.

(** ** The logged entries *)

Module EntriesFacts.
Import Entries.
Local Open Scope Z_scope.

Lemma foldr_max_spec (i : Z) (l : list Z) :
  (foldr Z.max i l = i \/ foldr Z.max i l ∈ l)
  /\ i <= foldr Z.max i l /\ forall x, x ∈ l -> x <= foldr Z.max i l.
Proof.
  induction l as [|y l (Hat & Hi & Hall)]; cbn [foldr].
  - split; [auto|]. split; [lia|]. intros x Hx. inversion Hx.
  - split; [|split].
    + destruct (Z.max_spec y (foldr Z.max i l)) as [[_ ->]|[_ ->]].
      * destruct Hat as [Hat|Hat]; [auto|right; apply elem_of_cons; auto].
      * right. apply elem_of_cons. auto.
    + lia.
    + intros x Hx. apply elem_of_cons in Hx as [->|Hx]; [lia|].
      specialize (Hall x Hx). lia.
Qed.

Lemma max_id_bound (t : list EntryRow) (r : EntryRow) : r ∈ t -> id r <= max_id t.
Proof.
  unfold max_id. destruct t as [|r0 t]; [intros H; inversion H|].
  rewrite fmap_cons. destruct (foldr_max_spec (id r0) (id <$> t)) as (_ & H0 & Hall).
  intros Hin. apply elem_of_cons in Hin as [->|Hin]; [exact H0|].
  apply Hall, list_elem_of_fmap. eauto.
Qed.

Lemma max_id_attained (t : list EntryRow) :
  t <> [] -> exists r, r ∈ t /\ id r = max_id t.
Proof.
  unfold max_id. destruct t as [|r0 t]; [contradiction|]. intros _.
  rewrite fmap_cons. destruct (foldr_max_spec (id r0) (id <$> t)) as ([Hat|Hat] & _).
  - exists r0. split; [apply elem_of_cons; auto|symmetry; exact Hat].
  - apply list_elem_of_fmap in Hat as (r & Hr & Hin).
    exists r. split; [apply elem_of_cons; auto|symmetry; exact Hr].
Qed.

Lemma max_id_snoc (t : list EntryRow) (r : EntryRow) :
  (forall x, x ∈ t -> id x <= id r) -> max_id (t ++ [r]) = id r.
Proof.
  intros Hle.
  destruct (max_id_attained (t ++ [r])) as (x & Hx & Hmax);
    [destruct t; discriminate|].
  pose proof (max_id_bound (t ++ [r]) r ltac:(apply elem_of_app; right; apply elem_of_cons; auto)).
  apply elem_of_app in Hx as [Hx|Hx].
  - specialize (Hle x Hx). lia.
  - apply list_elem_of_singleton in Hx. subst x. symmetry. exact Hmax.
Qed.

Lemma listed_mem (t : list EntryRow) (d : pystr) (e : Listed) :
  e ∈ list_entries_by_date t d <-> exists r, r ∈ t /\ date r = d /\ e = listed r.
Proof.
  unfold list_entries_by_date. rewrite list_elem_of_fmap. split.
  - intros (r & -> & Hr). rewrite merge_sort_Permutation in Hr.
    apply list_elem_of_filter in Hr as [Hd Hr]. eauto.
  - intros (r & Hr & Hd & ->). exists r. split; [reflexivity|].
    rewrite merge_sort_Permutation. apply list_elem_of_filter. auto.
Qed.

#[local] Instance by_time_total : Total by_time.
Proof. intros r1 r2. apply name_le_total. Qed.

#[local] Instance by_time_trans : Transitive by_time.
Proof. intros r1 r2 r3. apply name_le_trans. Qed.

Lemma listed_sorted (t : list EntryRow) (d : pystr) :
  StronglySorted listed_by_time (list_entries_by_date t d).
Proof.
  unfold list_entries_by_date.
  apply (StronglySorted_fmap listed by_time listed_by_time).
  - intros x y H. exact H.
  - apply (StronglySorted_merge_sort by_time).
Qed.

Lemma delete_absent (t : list EntryRow) (i : Z) :
  (forall x, x ∈ t -> id x <> i) -> delete_entry t i = t.
Proof.
  unfold delete_entry. induction t as [|r0 t0 IH]; intros Hne; [reflexivity|].
  rewrite filter_cons, decide_True by (apply Hne, elem_of_cons; auto).
  f_equal. apply IH. intros x Hx. apply Hne, elem_of_cons. auto.
Qed.

Section Insert.
Context (t : list EntryRow) (dt_iso date_str time_str name : pystr)
        (g k p f c : float) (raw : pystr).

(** X26: [insert_entry] returns an id above every id of the table, so
    one that no row carries: ids that were unique stay unique, ids from
    1 up stay so and the id returned is positive, and deleting the id
    returned gives back the table as it was. *)
Theorem insert_entry_fresh
    (Hmax : max_id t < 2 ^ 63 - 1) :
  let r := insert_entry t dt_iso date_str time_str name g k p f c raw in
  r.2 = max_id t + 1
  /\ (forall x, x ∈ t -> id x < r.2)
  /\ (NoDup (id <$> t) -> NoDup (id <$> r.1))
  /\ (Forall (fun x => 1 <= id x) t -> 1 <= r.2 /\ Forall (fun x => 1 <= id x) r.1)
  /\ delete_entry r.1 r.2 = t.
Proof.
  intros r. unfold r, insert_entry. cbn [fst snd].
  assert (Hlt : forall x, x ∈ t -> id x < max_id t + 1).
  { intros x Hx. pose proof (max_id_bound t x Hx). lia. }
  split; [reflexivity|]. split; [exact Hlt|]. split; [|split].
  - intros Hnd. rewrite fmap_app. apply NoDup_app. split; [exact Hnd|].
    split; [|apply NoDup_singleton].
    intros x Hx Hx'. apply list_elem_of_singleton in Hx'. cbn in Hx'. subst x.
    apply list_elem_of_fmap in Hx as (y & Hy & Hin). specialize (Hlt y Hin). lia.
  - intros Hpos.
    assert (Hi : 1 <= max_id t + 1).
    { destruct t as [|r0 t0]; [cbn; lia|].
      pose proof (max_id_bound (r0 :: t0) r0 ltac:(apply elem_of_cons; auto)).
      apply Forall_cons in Hpos as [H0 _]. lia. }
    split; [exact Hi|]. apply Forall_app. split; [exact Hpos|].
    constructor; [exact Hi|constructor].
  - unfold delete_entry. rewrite filter_app, filter_cons, decide_False by (cbn; lia).
    rewrite filter_nil, app_nil_r. apply delete_absent.
    intros x Hx. specialize (Hlt x Hx). lia.
Qed.

(** X27: after [insert_entry] for a date, [list_entries_by_date] of
    that date returns the entries it returned before and the new one,
    with the id returned and the values given; the list of every other
    date is unchanged; and a list is always in ascending order of
    time. *)
Theorem insert_entry_listed
    (Hmax : max_id t < 2 ^ 63 - 1)
    (Hg : storable g) (Hk : storable k) (Hp : storable p) (Hf : storable f)
    (Hc : storable c) :
  let r := insert_entry t dt_iso date_str time_str name g k p f c raw in
  list_entries_by_date r.1 date_str
    ≡ₚ {| l_id := r.2; l_food_name := name; l_grams := g; l_kcal := k;
          l_protein := p; l_fat := f; l_carbs := c; l_time := time_str |}
       :: list_entries_by_date t date_str
  /\ (forall d, d <> date_str -> list_entries_by_date r.1 d = list_entries_by_date t d)
  /\ StronglySorted listed_by_time (list_entries_by_date r.1 date_str).
Proof.
  intros r. unfold r, insert_entry. cbn [fst snd].
  split; [|split; [|apply listed_sorted]].
  - unfold list_entries_by_date.
    rewrite !merge_sort_Permutation, filter_app, filter_cons, decide_True by reflexivity.
    rewrite filter_nil, fmap_app. cbn [fmap list_fmap].
    rewrite <- Permutation_cons_append. reflexivity.
  - intros d Hd. unfold list_entries_by_date.
    rewrite filter_app, filter_cons, decide_False by (cbn; congruence).
    rewrite filter_nil, app_nil_r. reflexivity.
Qed.

End Insert.

(** X28: after [delete_entry(entry_id)] no list holds an entry of that
    id and the other entries are listed as before; deleting an id that
    no row carries, and deleting a second time, changes nothing. *)
Theorem delete_entry_removes (t : list EntryRow) (i : Z) :
  (forall d e, e ∈ list_entries_by_date (delete_entry t i) d
               <-> e ∈ list_entries_by_date t d /\ l_id e <> i)
  /\ ((forall x, x ∈ t -> id x <> i) -> delete_entry t i = t)
  /\ delete_entry (delete_entry t i) i = delete_entry t i.
Proof.
  split; [|split].
  - intros d e. rewrite !listed_mem. unfold delete_entry. split.
    + intros (r & Hr & Hd & ->). apply list_elem_of_filter in Hr as [Hne Hr].
      split; [eauto|exact Hne].
    + intros [(r & Hr & Hd & ->) Hne]. exists r.
      split; [apply list_elem_of_filter; auto|auto].
  - apply delete_absent.
  - apply delete_absent. intros x Hx. unfold delete_entry in Hx.
    apply list_elem_of_filter in Hx as [Hne _]. exact Hne.
Qed.

Lemma insert_entry_fresh_witness :
  (insert_entry SampleEntries.table (u "2025-01-01T07:00") (u "2025-01-01") (u "07:00")
     (u "백미밥") 210 273 5.67 0.63 58.8 (u "밥 1공기")).2 = 3
  /\ delete_entry
       (insert_entry SampleEntries.table (u "2025-01-01T07:00") (u "2025-01-01") (u "07:00")
          (u "백미밥") 210 273 5.67 0.63 58.8 (u "밥 1공기")).1 3
     = SampleEntries.table.
Proof.
  assert (Hmax : max_id SampleEntries.table < 2 ^ 63 - 1) by (vm_compute; reflexivity).
  destruct (insert_entry_fresh SampleEntries.table (u "2025-01-01T07:00") (u "2025-01-01")
              (u "07:00") (u "백미밥") 210 273 5.67 0.63 58.8 (u "밥 1공기") Hmax)
    as (Hid & _ & _ & _ & Hdel).
  split; [exact Hid|exact Hdel].
Defined.

Lemma insert_entry_listed_witness :
  l_id <$> list_entries_by_date
             (insert_entry SampleEntries.table (u "2025-01-01T07:00") (u "2025-01-01") (u "07:00")
                (u "백미밥") 210 273 5.67 0.63 58.8 (u "밥 1공기")).1 (u "2025-01-01")
    = [3; 1]
  /\ StronglySorted listed_by_time
       (list_entries_by_date
          (insert_entry SampleEntries.table (u "2025-01-01T07:00") (u "2025-01-01") (u "07:00")
             (u "백미밥") 210 273 5.67 0.63 58.8 (u "밥 1공기")).1 (u "2025-01-01")).
Proof.
  assert (Hmax : max_id SampleEntries.table < 2 ^ 63 - 1) by (vm_compute; reflexivity).
  destruct (insert_entry_listed SampleEntries.table (u "2025-01-01T07:00") (u "2025-01-01")
              (u "07:00") (u "백미밥") 210 273 5.67 0.63 58.8 (u "밥 1공기") Hmax I I I I I)
    as (_ & _ & Hsorted).
  split; [vm_compute; reflexivity|exact Hsorted].
Defined.

Lemma delete_entry_removes_witness :
  delete_entry SampleEntries.table 7 = SampleEntries.table
  /\ l_id <$> list_entries_by_date (delete_entry SampleEntries.table 1) (u "2025-01-01") = [].
Proof.
  destruct (delete_entry_removes SampleEntries.table 7) as (_ & Habsent & _).
  split; [|vm_compute; reflexivity].
  apply Habsent. intros x Hx. unfold SampleEntries.table in Hx. rewrite !elem_of_cons in Hx.
  destruct Hx as [->|[->|Hx]]; [discriminate..|inversion Hx].
Defined.

End EntriesFacts.

(** ** Logging the parsed items *)

Module LogFacts.
Import Entries DietBot.
Local Open Scope Z_scope.

Lemma select_food_known (db : Database) (f : FoodRow) :
  f ∈ food_items db ->
  exists row, select_food db (name f) = Some row /\ name row = name f /\ row ∈ food_items db.
Proof.
  intros Hin. unfold select_food.
  destruct (find (fun r => bool_decide (name r = name f)) (food_items db)) as [row|] eqn:E.
  - exists row. split; [reflexivity|]. apply (select_food_name db (name f) row E).
  - apply list_elem_of_In in Hin.
    pose proof (find_none _ _ E f Hin) as H. cbn in H.
    rewrite bool_decide_eq_true_2 in H by reflexivity. discriminate.
Qed.

Lemma parse_text_item_known (U : Unicode) (db : Database) (text : pystr) (it : ParsedItem) :
  it ∈ (parse_text U db text).1 ->
  exists row, select_food db (canonical_name it) = Some row
              /\ name row = canonical_name it /\ row ∈ food_items db.
Proof.
  rewrite parse_text_spec. cbn [fst]. intros H.
  apply list_elem_of_omap in H as (segment & _ & Hit).
  unfold segment_item in Hit. destruct (truthy segment); [|discriminate].
  destruct (segment_food U db segment) as [f|] eqn:E; [|discriminate].
  injection Hit as <-. cbn [canonical_name].
  apply select_food_known. unfold segment_food in E.
  destruct (get_food db (resolve_canonical U db (name_part_of U segment))) as [g|] eqn:Eg.
  - injection E as <-. exact (RecommenderFacts.get_food_in db _ _ Eg).
  - exact (RecommenderFacts.get_food_in db _ _ E).
Qed.

Section Log.
Context (U : Unicode) (db : Database) (date_str time_str raw : pystr).

Lemma log_items_rows (items : list ParsedItem) (t : list EntryRow) :
  Forall (fun it => exists row, select_food db (canonical_name it) = Some row) items ->
  exists rows,
    log_items db date_str time_str raw items t = Ok (t ++ rows)
    /\ Forall2 (logged db date_str time_str raw) items rows
    /\ id <$> rows = seqZ (max_id t + 1) (Z.of_nat (length items)).
Proof.
  intros Hall. revert t. induction Hall as [|it items [row Hrow] _ IH]; intros t.
  - exists []. rewrite app_nil_r. split; [reflexivity|]. split; [constructor|reflexivity].
  - cbn [log_items]. unfold compute_nutrition.
    rewrite (get_food_exact db _ row Hrow), py_div_100. cbn [mbind res_bind].
    unfold insert_entry. cbn [fst FoodParser.kcal FoodParser.protein FoodParser.fat
                               FoodParser.carbs].
    match goal with |- context [t ++ [?r]] => set (r0 := r) end.
    destruct (IH (t ++ [r0])) as (rows & Hlog & Hrows & Hids).
    exists (r0 :: rows). split; [rewrite Hlog, <- app_assoc; reflexivity|].
    split.
    + constructor; [|exact Hrows].
      exists row. unfold r0, holds. cbn.
      repeat split; try reflexivity; try (intros _; reflexivity). exact Hrow.
    + rewrite fmap_cons, Hids.
      rewrite (EntriesFacts.max_id_snoc t r0)
        by (intros x Hx; pose proof (EntriesFacts.max_id_bound t x Hx); unfold r0; cbn; lia).
      cbn [length]. rewrite (seqZ_cons (max_id t + 1)) by lia.
      unfold r0. cbn [id]. f_equal. f_equal; lia.
Qed.



End Log.



End LogFacts.
